(** * porto: a shallow embedding of the RPC dispatcher, the cgroup subsystem
    registry, the freezer wait loop, the traffic-control adapter and the typed
    property accessors, with the properties the specification states of them.

    Sources embedded: rpc.cpp, subsystem.cpp, qdisc.cpp, property.hpp.
    The file has two parts: the embedding (definitions), then the theorems. *)

From stdpp Require Import gmap strings list.

Local Open Scope Z_scope.

(* ===================================================================== *)
(** * Part I: the embedding                                               *)
(* ===================================================================== *)

(** ** Errors *)

(** Modelled from the spec: the [EError] enumeration is generated from
    rpc.proto, which is not among the sources; the constructors are the
    closed list of error kinds of the specification (section 7). *)
Module EError.
Inductive t :=
| Success | Unknown | InvalidMethod | InvalidValue | InvalidState
| ContainerDoesNotExist | ContainerAlreadyExists | PermissionDenied
| NotFound | Busy | Storage | Corrupted | FreezerTimeout | VolumeDoesNotExist.
End EError.
Abbreviation EError := EError.t.

#[global] Instance EError_eq_dec : EqDecision EError.
Proof. solve_decision. Defined.

(** Modelled from the spec: class [TError] (error.hpp is not among the
    sources): "every error carries kind plus a human-readable message". *)
Record TError := mkTError { GetError : EError; GetMsg : string }.

#[global] Instance TError_eq_dec : EqDecision TError.
Proof. solve_decision. Defined.

Module TError.
(** [TError::Success()] and the default constructor [TError error;]. *)
Definition Success : TError := mkTError EError.Success "".
(** [operator bool]: an error object is truthy when it is not a success. *)
Definition to_bool (e : TError) : bool := bool_decide (GetError e ≠ EError.Success).
End TError.

Coercion TError.to_bool : TError >-> bool.

(** The line feed that ends the content of a cgroup knob. *)
Definition LF : string := String (Ascii.ascii_of_nat 10) EmptyString.

(** ** A state monad for code that threads a mutable world *)

Definition St (S A : Type) : Type := S → A * S.

Definition st_ret {S A} (a : A) : St S A := λ s, (a, s).
Definition st_bind {S A B} (m : St S A) (f : A → St S B) : St S B :=
  λ s, let '(a, s') := m s in f a s'.
Definition st_modify {S} (f : S → S) : St S unit := λ s, (tt, f s).

Declare Scope st_scope.
Delimit Scope st_scope with st.
Notation "'let*' x ':=' m 'in' k" := (st_bind m (λ x, k))
  (at level 10, x pattern, m at level 100, k at level 200, only parsing) : st_scope.
Notation "'run*' m 'in' k" := (st_bind m (λ _, k))
  (at level 10, m at level 100, k at level 200, only parsing) : st_scope.

(** ** subsystem.cpp: the registry of subsystem adapters *)

(** The objects [make_shared] builds in [TSubsystem::Get]: the generic
    adapter carries the name it was built with, the specialised adapters are
    the derived classes. *)
Inductive TSubsystemObj :=
| TSubsystem_ (name : string)
| TMemorySubsystem_
| TFreezerSubsystem_
| TCpuSubsystem_
| TCpuacctSubsystem_.

#[global] Instance TSubsystemObj_eq_dec : EqDecision TSubsystemObj.
Proof. solve_decision. Defined.

(** A [shared_ptr]: null, or the address of an object of the heap. Two
    pointers are the same adapter exactly when the addresses are equal. *)
Definition shared_ptr := option nat.
Definition nullptr : shared_ptr := None.

(** The process state the registry lives in: the static map [subsystems]
    and the objects allocated so far (the address is the index). *)
Record SubsysState := mkSubsysState {
  subsystems : gmap string shared_ptr;
  heap : list TSubsystemObj
}.

Definition subsys_init : SubsysState := mkSubsysState ∅ [].

Module TSubsystem.

(** [make_shared<T>(...)]: a fresh object at the next free address. *)
Definition make_shared (o : TSubsystemObj) : St SubsysState shared_ptr :=
  λ s, (Some (length (heap s)), mkSubsysState (subsystems s) (heap s ++ [o])).

(** [subsystems[name] = p]. *)
Definition assign (name : string) (p : shared_ptr) : St SubsysState unit :=
  st_modify (λ s, mkSubsysState (<[name := p]> (subsystems s)) (heap s)).

(** [subsystems[name]] read: [operator[]] inserts a null pointer for a
    missing key and returns the mapped pointer. *)
Definition index (name : string) : St SubsysState shared_ptr :=
  λ s, match subsystems s !! name with
       | Some p => (p, s)
       | None => (nullptr, mkSubsysState (<[name := nullptr]> (subsystems s)) (heap s))
       end.

(** [subsystems.find(name) == subsystems.end()]. *)
Definition not_found (name : string) (s : SubsysState) : bool :=
  bool_decide (subsystems s !! name = None).

Definition Get (name : string) : St SubsysState shared_ptr :=
  (run* (λ s,
     (if not_found name s then
        if String.eqb name "memory" then
          let* p := make_shared TMemorySubsystem_ in assign name p
        else if String.eqb name "freezer" then
          let* p := make_shared TFreezerSubsystem_ in assign name p
        else if String.eqb name "cpu" then
          let* p := make_shared TCpuSubsystem_ in assign name p
        else
          let* p := make_shared (TSubsystem_ name) in assign name p
      else st_ret tt) s) in
   index name)%st.

(** [static_pointer_cast] is unchecked: the accessors return the pointer
    [Get] gives, whatever the class of the object behind it. *)
Definition Memory : St SubsysState shared_ptr := Get "memory".
Definition Freezer : St SubsysState shared_ptr := Get "freezer".
Definition Cpu : St SubsysState shared_ptr := Get "cpu".
Definition Cpuacct : St SubsysState shared_ptr := Get "cpuacct".

(** The object a pointer designates. *)
Definition deref (s : SubsysState) (p : shared_ptr) : option TSubsystemObj :=
  a ← p; heap s !! a.

End TSubsystem.

(** ** subsystem.cpp: the freezer *)

(** Modelled from the spec: class [TCgroup] (cgroup.hpp is not among the
    sources). The kernel side of one cgroup is a script: what a write of a
    knob answers, and what the n-th read of the run answers and leaves in
    the output string. *)
Record TCgroup := mkTCgroup {
  Relpath : string;
  write_result : string → string → TError;
  read_result : nat → string → TError * string
}.

(** [TLogger::LogError(error, msg)]. *)
Inductive LogEntry := LogError (error : TError) (msg : string).

(** What a run has done to the world so far. *)
Record CgState := mkCgState {
  reads : nat;                       (* GetKnobValue calls made *)
  writes : list (string * string);   (* SetKnobValue calls made, in order *)
  slept_ms : Z;                      (* total time slept *)
  errlog : list LogEntry             (* lines written by LogError *)
}.

Definition cg_init : CgState := mkCgState 0 [] 0 [].

Module TCgroup_.
Definition GetKnobValue (cg : TCgroup) (knob : string) : St CgState (TError * string) :=
  λ s, (read_result cg (reads s) knob,
        mkCgState (S (reads s)) (writes s) (slept_ms s) (errlog s)).
Definition SetKnobValue (cg : TCgroup) (knob value : string) : St CgState TError :=
  λ s, (write_result cg knob value,
        mkCgState (reads s) (writes s ++ [(knob, value)]) (slept_ms s) (errlog s)).
End TCgroup_.

Module TLogger.
Definition LogError (error : TError) (msg : string) : St CgState unit :=
  λ s, (tt, mkCgState (reads s) (writes s) (slept_ms s) (errlog s ++ [LogError error msg])).
End TLogger.

Definition usleep_ms (ms : Z) : St CgState unit :=
  λ s, (tt, mkCgState (reads s) (writes s) (slept_ms s + ms) (errlog s)).

(** Modelled from the spec: [RetryFailed] (unix.hpp declares it, its body
    is not among the sources): "the wait helper is a bounded retry with
    fixed interval". The handler runs at most [times] times; a zero result
    ends the loop, a non-zero one is followed by a sleep of [timeoMs]
    milliseconds; the last result of the handler is returned. *)
Fixpoint RetryFailed_loop (times : nat) (timeoMs : Z) (handler : St CgState Z)
    (ret : Z) : St CgState Z :=
  match times with
  | O => st_ret ret
  | S times' =>
      (let* ret := handler in
       if ret =? 0 then st_ret ret
       else run* usleep_ms timeoMs in RetryFailed_loop times' timeoMs handler ret)%st
  end.

Definition RetryFailed (times timeoMs : Z) (handler : St CgState Z) : St CgState Z :=
  RetryFailed_loop (Z.to_nat times) timeoMs handler 0.

Module TFreezerSubsystem.
Section Freezer.
(** [FREEZER_WAIT_TIMEOUT_S] is a constant of a header that is not among the
    sources (the specification gives 60 as its default). *)
Variable FREEZER_WAIT_TIMEOUT_S : Z.

(** The lambda of [WaitState]: read the knob, log a read error, and answer
    whether the content differs from the awaited one. *)
Definition WaitState_handler (cg : TCgroup) (state : string) : St CgState Z :=
  (let* (error, s) := TCgroup_.GetKnobValue cg "freezer.state" in
   run* (if TError.to_bool error then TLogger.LogError error "Can't freeze cgroup"
         else st_ret tt) in
   st_ret (if bool_decide (s ≠ state) then 1 else 0))%st.

Definition WaitState (cg : TCgroup) (state : string) : St CgState TError :=
  (let* ret := RetryFailed (FREEZER_WAIT_TIMEOUT_S * 10) 100 (WaitState_handler cg state) in
   if negb (ret =? 0) then
     let error := mkTError EError.Unknown ("Can't wait for freezer state " +:+ state) in
     run* TLogger.LogError error (Relpath cg) in
     st_ret error
   else st_ret TError.Success)%st.

Definition Freeze (cg : TCgroup) : St CgState TError :=
  (let* error := TCgroup_.SetKnobValue cg "freezer.state" "FROZEN" in
   if TError.to_bool error then st_ret error
   else WaitState cg ("FROZEN" +:+ LF))%st.

Definition Unfreeze (cg : TCgroup) : St CgState TError :=
  (let* error := TCgroup_.SetKnobValue cg "freezer.state" "THAWED" in
   if TError.to_bool error then st_ret error
   else WaitState cg ("THAWED" +:+ LF))%st.
End Freezer.
End TFreezerSubsystem.

(** Two kernels to run the freezer against: one whose knob never leaves
    the THAWED state whatever is written, and one that reports the written
    state from the third read on. *)
Definition stuck_cgroup : TCgroup :=
  mkTCgroup "porto/a" (λ _ _, TError.Success) (λ _ _, (TError.Success, "THAWED" +:+ LF)).
Definition slow_cgroup : TCgroup :=
  mkTCgroup "porto/a" (λ _ _, TError.Success)
    (λ n _, (TError.Success, if (n <? 2)%nat then "FREEZING" +:+ LF else "FROZEN" +:+ LF)).

(** ** qdisc.cpp: the traffic-control adapter *)

(** A netlink link; the adapter only asks for its name. *)
Record TNlLink := mkTNlLink { GetName : string }.

(** The stat selector is an enumeration of a header that is not among the
    sources; it is passed through to the netlink layer untouched. *)
Definition ETclassStat := N.

(** The calls the adapter makes to the netlink layer ([TNlClass], [TNlHtb]
    and [TNlCgFilter] objects built on a link, a parent handle and a handle),
    indexed by the type of what they answer. *)
Inductive NlCall : Type → Type :=
| NlClass_Exists (link : TNlLink) (parent handle : Z) : NlCall bool
| NlClass_GetStat (link : TNlLink) (parent handle : Z) (stat : ETclassStat) : NlCall (TError * Z)
| NlClass_Create (link : TNlLink) (parent handle : Z) (prio rate ceil : Z) : NlCall TError
| NlClass_Remove (link : TNlLink) (parent handle : Z) : NlCall TError
| NlHtb_Create (link : TNlLink) (parent handle : Z) (defclass : Z) : NlCall TError
| NlHtb_Remove (link : TNlLink) (parent handle : Z) : NlCall TError
| NlCgFilter_Exists (link : TNlLink) (parent handle : Z) : NlCall bool
| NlCgFilter_Create (link : TNlLink) (parent handle : Z) : NlCall TError
| NlCgFilter_Remove (link : TNlLink) (parent handle : Z) : NlCall TError.

(** A computation that talks to the kernel: it ends with a value, or makes
    one netlink call and goes on with the answer. *)
Inductive Nl (A : Type) : Type :=
| Ret (a : A)
| Call {R : Type} (c : NlCall R) (k : R → Nl A).
Arguments Ret {A} a.
Arguments Call {A R} c k.

Fixpoint nl_bind {A B} (m : Nl A) (f : A → Nl B) : Nl B :=
  match m with
  | Ret a => f a
  | Call c k => Call c (λ r, nl_bind (k r) f)
  end.

Definition nl_call {R} (c : NlCall R) : Nl R := Call c Ret.

Declare Scope nl_scope.
Delimit Scope nl_scope with nl.
Notation "'let*' x ':=' m 'in' k" := (nl_bind m (λ x, k))
  (at level 10, x pattern, m at level 100, k at level 200, only parsing) : nl_scope.

(** One netlink call as it was issued. *)
Inductive NlEvent :=
| Issued (R : Type) (c : NlCall R).
Arguments Issued {R} c.

(** A kernel answers every call and moves to a new state. *)
Definition NlKernel (K : Type) : Type := ∀ R, NlCall R → K → R * K.

(** Running a computation against a kernel: the value, the final kernel
    state and the calls issued, in order. *)
Fixpoint nl_run {K A} (h : NlKernel K) (p : Nl A) (k : K) : A * K * list NlEvent :=
  match p with
  | Ret a => (a, k, [])
  | Call c cont =>
      let '(r, k1) := h _ c k in
      let '(a, k2, evs) := nl_run h (cont r) k1 in
      (a, k2, Issued c :: evs)
  end.

(** [TQdisc]: the links it spans, its handle and its default class. *)
Record TQdisc := mkTQdisc {
  Link : list TNlLink;
  QHandle : Z;
  DefClass : Z
}.

(** Modelled from the spec: the class declaration of [TTclass] (qdisc.hpp)
    is not among the sources: "Tclass has either a parent qdisc or a parent
    tclass". The test [if (ParentQdisc)] of the code is the case analysis. *)
Inductive TTclass :=
| TclassOnQdisc (ParentQdisc : TQdisc) (Handle : Z)
| TclassOnTclass (ParentTclass : TTclass) (Handle : Z).

Definition TTclass_Handle (t : TTclass) : Z :=
  match t with TclassOnQdisc _ h | TclassOnTclass _ h => h end.

(** [TFilter]: attached to its parent qdisc. *)
Record TFilter := mkTFilter { Parent : TQdisc }.

Section TrafficControl.
(** [config().network().enabled()]. *)
Variable network_enabled : bool.
(** [TcRootHandle()], of the netlink layer. *)
Variable TcRootHandle : Z.

(** The loop shared by every operation:
    [for (auto &link : GetLink()) { TError error = body(link); if (error) return error; }
     return TError::Success();] *)
Fixpoint for_each_link (links : list TNlLink) (body : TNlLink → Nl TError) : Nl TError :=
  match links with
  | [] => Ret TError.Success
  | link :: links' =>
      (let* error := body link in
       if TError.to_bool error then Ret error
       else for_each_link links' body)%nl
  end.

Definition TQdisc_GetLink (q : TQdisc) : list TNlLink := Link q.
Definition TQdisc_GetHandle (q : TQdisc) : Z := QHandle q.

Fixpoint TTclass_GetLink (t : TTclass) : list TNlLink :=
  match t with
  | TclassOnQdisc q _ => TQdisc_GetLink q
  | TclassOnTclass p _ => TTclass_GetLink p
  end.

Definition TTclass_GetParent (t : TTclass) : Z :=
  if negb network_enabled then 0
  else match t with
       | TclassOnQdisc q _ => TQdisc_GetHandle q
       | TclassOnTclass p _ => TTclass_Handle p
       end.

Definition TTclass_Exists (t : TTclass) (link : TNlLink) : Nl bool :=
  nl_call (NlClass_Exists link (TTclass_GetParent t) (TTclass_Handle t)).

(** The loop of [GetStat] also fills the map. *)
Fixpoint TTclass_GetStat_loop (t : TTclass) (stat : ETclassStat)
    (links : list TNlLink) (m : gmap string Z) : Nl (TError * gmap string Z) :=
  match links with
  | [] => Ret (TError.Success, m)
  | link :: links' =>
      (let* (error, val) :=
         nl_call (NlClass_GetStat link (TTclass_GetParent t) (TTclass_Handle t) stat) in
       if TError.to_bool error then Ret (error, m)
       else TTclass_GetStat_loop t stat links' (<[GetName link := val]> m))%nl
  end.

Definition TTclass_GetStat (t : TTclass) (stat : ETclassStat) (m : gmap string Z)
    : Nl (TError * gmap string Z) :=
  if negb network_enabled then
    Ret (mkTError EError.Unknown "Network support is disabled", m)
  else TTclass_GetStat_loop t stat (TTclass_GetLink t) m.

Definition TTclass_Create (t : TTclass) (prio rate ceil : Z) : Nl TError :=
  if negb network_enabled then Ret TError.Success
  else for_each_link (TTclass_GetLink t) (λ link,
         nl_call (NlClass_Create link (TTclass_GetParent t) (TTclass_Handle t) prio rate ceil)).

(** The loop of [Remove] leaves the function, with success, at the first
    link on which the class does not exist. *)
Fixpoint TTclass_Remove_loop (t : TTclass) (links : list TNlLink) : Nl TError :=
  match links with
  | [] => Ret TError.Success
  | link :: links' =>
      (let* exists_ := TTclass_Exists t link in
       if negb exists_ then Ret TError.Success
       else
         let* error := nl_call (NlClass_Remove link (TTclass_GetParent t) (TTclass_Handle t)) in
         if TError.to_bool error then Ret error
         else TTclass_Remove_loop t links')%nl
  end.

Definition TTclass_Remove (t : TTclass) : Nl TError :=
  if negb network_enabled then Ret TError.Success
  else TTclass_Remove_loop t (TTclass_GetLink t).

Definition TQdisc_Create (q : TQdisc) : Nl TError :=
  if negb network_enabled then Ret TError.Success
  else for_each_link (TQdisc_GetLink q) (λ link,
         nl_call (NlHtb_Create link TcRootHandle (QHandle q) (DefClass q))).

Definition TQdisc_Remove (q : TQdisc) : Nl TError :=
  if negb network_enabled then Ret TError.Success
  else for_each_link (TQdisc_GetLink q) (λ link,
         nl_call (NlHtb_Remove link TcRootHandle (QHandle q))).

Definition TFilter_GetLink (f : TFilter) : list TNlLink := TQdisc_GetLink (Parent f).

Definition TFilter_Exists (f : TFilter) (link : TNlLink) : Nl bool :=
  nl_call (NlCgFilter_Exists link (TQdisc_GetHandle (Parent f)) 1).

Definition TFilter_Create (f : TFilter) : Nl TError :=
  if negb network_enabled then Ret TError.Success
  else for_each_link (TFilter_GetLink f) (λ link,
         nl_call (NlCgFilter_Create link (TQdisc_GetHandle (Parent f)) 1)).

Fixpoint TFilter_Remove_loop (f : TFilter) (links : list TNlLink) : Nl TError :=
  match links with
  | [] => Ret TError.Success
  | link :: links' =>
      (let* exists_ := TFilter_Exists f link in
       if negb exists_ then Ret TError.Success
       else
         let* error := nl_call (NlCgFilter_Remove link (TQdisc_GetHandle (Parent f)) 1) in
         if TError.to_bool error then Ret error
         else TFilter_Remove_loop f links')%nl
  end.

Definition TFilter_Remove (f : TFilter) : Nl TError :=
  if negb network_enabled then Ret TError.Success
  else TFilter_Remove_loop f (TFilter_GetLink f).

End TrafficControl.

(** Modelled from the spec: the netlink layer ([TNlClass], [TNlHtb],
    [TNlCgFilter]) is not among the sources. A reference kernel to run the
    adapter against: the classes, qdiscs and filters installed are finite
    sets of (link name, parent handle, handle); a creation installs, a
    removal of something installed uninstalls, a removal of something absent
    is an error, [exists] is membership. *)
Record TcKernel := mkTcKernel {
  k_classes : gset (string * Z * Z);
  k_qdiscs : gset (string * Z * Z);
  k_filters : gset (string * Z * Z)
}.

Definition no_such : TError := mkTError EError.NotFound "No such file or directory".

Definition ref_kernel : NlKernel TcKernel := λ R c,
  match c in NlCall R return TcKernel → R * TcKernel with
  | NlClass_Exists l p h => λ k,
      (bool_decide ((GetName l, p, h) ∈ k_classes k), k)
  | NlClass_GetStat l p h _ => λ k,
      (if bool_decide ((GetName l, p, h) ∈ k_classes k) then (TError.Success, 0)
       else (no_such, 0), k)
  | NlClass_Create l p h _ _ _ => λ k,
      (TError.Success, mkTcKernel ({[ (GetName l, p, h) ]} ∪ k_classes k) (k_qdiscs k) (k_filters k))
  | NlClass_Remove l p h => λ k,
      if bool_decide ((GetName l, p, h) ∈ k_classes k)
      then (TError.Success, mkTcKernel (k_classes k ∖ {[ (GetName l, p, h) ]}) (k_qdiscs k) (k_filters k))
      else (no_such, k)
  | NlHtb_Create l p h _ => λ k,
      (TError.Success, mkTcKernel (k_classes k) ({[ (GetName l, p, h) ]} ∪ k_qdiscs k) (k_filters k))
  | NlHtb_Remove l p h => λ k,
      if bool_decide ((GetName l, p, h) ∈ k_qdiscs k)
      then (TError.Success, mkTcKernel (k_classes k) (k_qdiscs k ∖ {[ (GetName l, p, h) ]}) (k_filters k))
      else (no_such, k)
  | NlCgFilter_Exists l p h => λ k,
      (bool_decide ((GetName l, p, h) ∈ k_filters k), k)
  | NlCgFilter_Create l p h => λ k,
      (TError.Success, mkTcKernel (k_classes k) (k_qdiscs k) ({[ (GetName l, p, h) ]} ∪ k_filters k))
  | NlCgFilter_Remove l p h => λ k,
      if bool_decide ((GetName l, p, h) ∈ k_filters k)
      then (TError.Success, mkTcKernel (k_classes k) (k_qdiscs k) (k_filters k ∖ {[ (GetName l, p, h) ]}))
      else (no_such, k)
  end.

(** A qdisc over two links, a class under it, and a kernel in which the
    class is installed on the second link only. *)
Definition eth0 : TNlLink := mkTNlLink "eth0".
Definition eth1 : TNlLink := mkTNlLink "eth1".
Definition qdisc_ex : TQdisc := mkTQdisc [eth0; eth1] 65536 2.
Definition tclass_ex : TTclass := TclassOnQdisc qdisc_ex 65539.
Definition kernel_ex : TcKernel := mkTcKernel {[ ("eth1", 65536, 65539) ]} ∅ ∅.

(** ** The value registry *)

(** Modelled from the spec: [TValueDef] and [TValueSet] (value.hpp is not
    among the sources). A descriptor carries its name, a human description,
    a flag set and a static default; a registry is "keyed by name" and
    enumerates "all descriptor names in insertion order". *)
Record TValueDef := mkTValueDef {
  VName : string;
  Desc : string;
  Flags : Z;
  Default : string
}.

Definition TValueSet := list TValueDef.

Module TValueSet_.
Definition GetNames (vs : TValueSet) : list string := VName <$> vs.
Definition Get (vs : TValueSet) (name : string) : option TValueDef :=
  List.find (λ d, String.eqb (VName d) name) vs.
Definition IsValid (vs : TValueSet) (name : string) : bool :=
  bool_decide (is_Some (Get vs name)).
(** A registration appends; a name already taken is refused ([None]). *)
Definition Register (vs : TValueSet) (d : TValueDef) : option TValueSet :=
  if IsValid vs (VName d) then None else Some (vs ++ [d]).
End TValueSet_.

(** ** property.hpp: the typed accessors of a property holder *)

Definition SUPERUSER_PROPERTY : Z := Z.shiftl 1 0.
Definition PARENT_DEF_PROPERTY : Z := Z.shiftl 1 1.
Definition PARENT_RO_PROPERTY : Z := Z.shiftl 1 2.

(** A container as the accessors see it: its name, its parent (none for the
    root) and the slots of its variant set; a slot that is absent from the
    map is a default slot, a present one holds the stored string form. *)
#[local] Set Warnings "-register-all".
Inductive TContainer :=
| mkTContainer (CName : string) (CParent : option TContainer) (Slots : gmap string string).

Definition GetParent (c : TContainer) : option TContainer :=
  match c with mkTContainer _ p _ => p end.
Definition VariantSet (c : TContainer) : gmap string string :=
  match c with mkTContainer _ _ v => v end.

Module TPropertyHolder.
Section Accessors.
(** [extern TValueSet propertySet]. *)
Variable propertySet : TValueSet.
(** The parsers of util/string.hpp, which is not among the sources. *)
Variable StringToBool : string → TError + bool.
Variable StringToInt : string → TError + Z.
Variable StringToUint64 : string → TError + Z.

(** Modelled from the spec: [TVariantSet] (value.hpp is not among the
    sources). "is_default(name): true iff slot is default"; "get_raw(name):
    returns the stored string form or the descriptor's static default"; a
    name the registry does not know "fails with NotFound" (the message is
    the name). The typed getters parse the raw form. *)
Definition VariantSet_IsDefault (vs : gmap string string) (property : string) : bool :=
  bool_decide (vs !! property = None).

Definition VariantSet_GetRaw (vs : gmap string string) (property : string)
    : TError + string :=
  match TValueSet_.Get propertySet property with
  | None => inl (mkTError EError.NotFound property)
  | Some d => inr (default (Default d) (vs !! property))
  end.

Definition VariantSet_Get {TYPE} (parse : string → TError + TYPE)
    (vs : gmap string string) (property : string) : TError + TYPE :=
  match VariantSet_GetRaw vs property with
  | inl error => inl error
  | inr s => parse s
  end.

Definition VariantSet_GetString := VariantSet_Get (λ s, inr s : TError + string).
Definition VariantSet_GetBool := VariantSet_Get StringToBool.
Definition VariantSet_GetInt := VariantSet_Get StringToInt.
Definition VariantSet_GetUint := VariantSet_Get StringToUint64.

(** Modelled from the spec: [HasFlags] and [ParentDefault] (property.cpp is
    not among the sources; property.hpp declares them). The slot is inherited
    "if the descriptor has parent-default", from an ancestor: the container
    [c] that [ParentDefault] hands back is the container of the holder, and
    the answer is yes only when it has a parent to delegate to; the root
    "serves only as the inheritance anchor" and answers with "the
    descriptor's static default". *)
Definition HasFlags (property : string) (flags : Z) : bool :=
  match TValueSet_.Get propertySet property with
  | None => false
  | Some d => negb (Z.land (Flags d) flags =? 0)
  end.

Definition ParentDefault (c : TContainer) (property : string) : bool :=
  HasFlags property PARENT_DEF_PROPERTY && bool_decide (is_Some (GetParent c)).

(** The macro [SYNTHESIZE_ACCESSOR(NAME, TYPE)], with [value{}] and
    [VariantSet.Get ## NAME] as arguments. The result is the value returned
    and the lines logged; [None] stands for [c->GetParent()->Prop] on a
    container without a parent, which [ParentDefault] rules out. *)
Fixpoint SYNTHESIZE_ACCESSOR {TYPE} (zero : TYPE)
    (VariantSet_GetNAME : gmap string string → string → TError + TYPE)
    (c : TContainer) (property : string) : option (TYPE * list LogEntry) :=
  match c with
  | mkTContainer _ parent vs =>
      if VariantSet_IsDefault vs property && ParentDefault c property then
        match parent with
        | Some p => SYNTHESIZE_ACCESSOR zero VariantSet_GetNAME p property
        | None => None
        end
      else
        match VariantSet_GetNAME vs property with
        | inl error => Some (zero, [LogError error ("Can't get property " +:+ property)])
        | inr value => Some (value, [])
        end
  end.

Definition GetString := SYNTHESIZE_ACCESSOR "" VariantSet_GetString.
Definition GetBool := SYNTHESIZE_ACCESSOR false VariantSet_GetBool.

(** Modelled from the spec: [GetInt] and [GetUint] are declared in
    property.hpp and defined in property.cpp, which is not among the
    sources: "the intended semantics is the single get_typed operation",
    that of the macro, at the kinds int and uint. *)
Definition GetInt := SYNTHESIZE_ACCESSOR 0 VariantSet_GetInt.
Definition GetUint := SYNTHESIZE_ACCESSOR 0 VariantSet_GetUint.

(** The chain a lookup walks: the container, its parent, and so on up to
    the root. *)
Fixpoint lineage (c : TContainer) : list TContainer :=
  match c with
  | mkTContainer _ parent _ =>
      c :: match parent with Some p => lineage p | None => [] end
  end.

End Accessors.
End TPropertyHolder.

(** A registry, parsers and a small tree to run the accessors on. *)
Definition props_ex : TValueSet :=
  [ mkTValueDef "command" "command executed upon container start" 0 "";
    mkTValueDef "memory_limit" "memory hard limit" PARENT_DEF_PROPERTY "0";
    mkTValueDef "isolate" "isolate container from parent" 0 "true" ].

Definition StringToBool_ex (s : string) : TError + bool :=
  if String.eqb s "true" then inr true
  else if String.eqb s "false" then inr false
  else inl (mkTError EError.InvalidValue ("Bad bool value " +:+ s)).

Definition StringToInt_ex (s : string) : TError + Z :=
  if String.eqb s "0" then inr 0
  else if String.eqb s "1024" then inr 1024
  else inl (mkTError EError.InvalidValue ("Bad integer value " +:+ s)).

Definition root_ex : TContainer := mkTContainer "/" None ∅.
Definition p_ex : TContainer :=
  mkTContainer "p" (Some root_ex) {[ "memory_limit" := "1024"; "isolate" := "maybe" ]}.
Definition pc_ex : TContainer := mkTContainer "p/c" (Some p_ex) ∅.

(** ** rpc.cpp: the messages *)

(** The messages are generated from rpc.proto, which is not among the
    sources; the fields are those the handlers read and write. A message
    field is optional: [has_x()] is [is_Some], [x()] of an unset field is
    the default instance. *)
Record TContainerNameRequest := mkNameReq { req_name : string }.
Record TContainerGetPropertyRequest := mkGetPropertyReq {
  getp_name : string; getp_property : string }.
Record TContainerSetPropertyRequest := mkSetPropertyReq {
  setp_name : string; setp_property : string; setp_value : string }.
Record TContainerGetDataRequest := mkGetDataReq {
  getd_name : string; getd_data : string }.
Record TContainerKillRequest := mkKillReq { kill_name : string; kill_sig : Z }.
Record TVolumeCreateRequest := mkVolumeCreateReq {
  vol_name : string; vol_source : string; vol_quota : string; vol_flags : string }.

Record TValueListEntry := mkEntry { entry_name : string; entry_desc : string }.
Record TVolumeDescription := mkVolumeDescription {
  vd_name : string; vd_source : string; vd_quota : string; vd_flags : string }.

Record TContainerResponse := mkResponse {
  rsp_error : option EError;
  rsp_errormsg : option string;
  rsp_list : option (list string);
  rsp_getproperty : option string;
  rsp_getdata : option string;
  rsp_propertylist : option (list TValueListEntry);
  rsp_datalist : option (list TValueListEntry);
  rsp_version : option (string * string);
  rsp_volumelist : option (list TVolumeDescription)
}.

(** The request: one optional field per method. The record lives in a
    module of its own, as the field names are those of the methods. *)
Module rpc.
Record TContainerRequest := mkRequest {
  create : option TContainerNameRequest;
  destroy : option TContainerNameRequest;
  list : option unit;
  getproperty : option TContainerGetPropertyRequest;
  setproperty : option TContainerSetPropertyRequest;
  getdata : option TContainerGetDataRequest;
  start : option TContainerNameRequest;
  stop : option TContainerNameRequest;
  pause : option TContainerNameRequest;
  resume : option TContainerNameRequest;
  propertylist : option unit;
  datalist : option unit;
  kill : option TContainerKillRequest;
  version : option unit;
  createvolume : option TVolumeCreateRequest;
  destroyvolume : option TContainerNameRequest;
  listvolumes : option unit
}.

End rpc.
Abbreviation TContainerRequest := rpc.TContainerRequest.

Definition empty_request : TContainerRequest :=
  rpc.mkRequest None None None None None None None None None None None None None None None None None.

Definition has {A} (field : option A) : bool := bool_decide (is_Some field).

Definition default_name_req := mkNameReq "".
Definition default_getp_req := mkGetPropertyReq "" "".
Definition default_setp_req := mkSetPropertyReq "" "" "".
Definition default_getd_req := mkGetDataReq "" "".
Definition default_kill_req := mkKillReq "" 0.
Definition default_vol_req := mkVolumeCreateReq "" "" "" "".

(** [rsp.Clear()], and a response as it is built. *)
Definition cleared : TContainerResponse :=
  mkResponse None None None None None None None None None.

Definition set_error (e : EError) (r : TContainerResponse) : TContainerResponse :=
  mkResponse (Some e) (rsp_errormsg r) (rsp_list r) (rsp_getproperty r) (rsp_getdata r)
    (rsp_propertylist r) (rsp_datalist r) (rsp_version r) (rsp_volumelist r).
Definition set_errormsg (m : string) (r : TContainerResponse) : TContainerResponse :=
  mkResponse (rsp_error r) (Some m) (rsp_list r) (rsp_getproperty r) (rsp_getdata r)
    (rsp_propertylist r) (rsp_datalist r) (rsp_version r) (rsp_volumelist r).
(** [rsp.mutable_list()->add_name(name)]. *)
Definition list_add_name (name : string) (r : TContainerResponse) : TContainerResponse :=
  mkResponse (rsp_error r) (rsp_errormsg r) (Some (default [] (rsp_list r) ++ [name]))
    (rsp_getproperty r) (rsp_getdata r)
    (rsp_propertylist r) (rsp_datalist r) (rsp_version r) (rsp_volumelist r).
(** [rsp.mutable_getproperty()->set_value(value)]. *)
Definition getproperty_set_value (value : string) (r : TContainerResponse) : TContainerResponse :=
  mkResponse (rsp_error r) (rsp_errormsg r) (rsp_list r) (Some value) (rsp_getdata r)
    (rsp_propertylist r) (rsp_datalist r) (rsp_version r) (rsp_volumelist r).
(** [rsp.mutable_getdata()->set_value(value)]. *)
Definition getdata_set_value (value : string) (r : TContainerResponse) : TContainerResponse :=
  mkResponse (rsp_error r) (rsp_errormsg r) (rsp_list r) (rsp_getproperty r) (Some value)
    (rsp_propertylist r) (rsp_datalist r) (rsp_version r) (rsp_volumelist r).
(** [rsp.mutable_propertylist()], then [list->add_list()] with both fields set. *)
Definition mutable_propertylist (r : TContainerResponse) : TContainerResponse :=
  mkResponse (rsp_error r) (rsp_errormsg r) (rsp_list r) (rsp_getproperty r) (rsp_getdata r)
    (Some (default [] (rsp_propertylist r))) (rsp_datalist r) (rsp_version r) (rsp_volumelist r).
Definition propertylist_add (e : TValueListEntry) (r : TContainerResponse) : TContainerResponse :=
  mkResponse (rsp_error r) (rsp_errormsg r) (rsp_list r) (rsp_getproperty r) (rsp_getdata r)
    (Some (default [] (rsp_propertylist r) ++ [e])) (rsp_datalist r) (rsp_version r) (rsp_volumelist r).
Definition mutable_datalist (r : TContainerResponse) : TContainerResponse :=
  mkResponse (rsp_error r) (rsp_errormsg r) (rsp_list r) (rsp_getproperty r) (rsp_getdata r)
    (rsp_propertylist r) (Some (default [] (rsp_datalist r))) (rsp_version r) (rsp_volumelist r).
Definition datalist_add (e : TValueListEntry) (r : TContainerResponse) : TContainerResponse :=
  mkResponse (rsp_error r) (rsp_errormsg r) (rsp_list r) (rsp_getproperty r) (rsp_getdata r)
    (rsp_propertylist r) (Some (default [] (rsp_datalist r) ++ [e])) (rsp_version r) (rsp_volumelist r).
Definition set_version (tag revision : string) (r : TContainerResponse) : TContainerResponse :=
  mkResponse (rsp_error r) (rsp_errormsg r) (rsp_list r) (rsp_getproperty r) (rsp_getdata r)
    (rsp_propertylist r) (rsp_datalist r) (Some (tag, revision)) (rsp_volumelist r).
(** [rsp.mutable_volumelist()->add_list()]: a new, empty description at
    the end; the setters then fill this last description. *)
Definition volumelist_add (r : TContainerResponse) : TContainerResponse :=
  mkResponse (rsp_error r) (rsp_errormsg r) (rsp_list r) (rsp_getproperty r) (rsp_getdata r)
    (rsp_propertylist r) (rsp_datalist r) (rsp_version r)
    (Some (default [] (rsp_volumelist r) ++ [mkVolumeDescription "" "" "" ""])).
Definition volumelist_fill (d : TVolumeDescription) (r : TContainerResponse) : TContainerResponse :=
  mkResponse (rsp_error r) (rsp_errormsg r) (rsp_list r) (rsp_getproperty r) (rsp_getdata r)
    (rsp_propertylist r) (rsp_datalist r) (rsp_version r)
    (Some (removelast (default [] (rsp_volumelist r)) ++ [d])).

Record TCred := mkTCred { Uid : Z; Gid : Z }.

(** ** rpc.cpp: faults *)

(** What a call can throw, as the catch clauses of the dispatcher tell them
    apart: [std::bad_alloc], a [std::string], another [std::exception] with
    its [what()], anything else. *)
Inductive Exception :=
| bad_alloc
| thrown_string (exc : string)
| std_exception (what : string)
| other_exception.

(** The outcome of a computation over a state: it returns, it throws, or it
    dereferences a null pointer (undefined behaviour, which no catch clause
    sees). *)
Inductive Outcome (S A : Type) : Type :=
| Returns (a : A) (s : S)
| Throws (e : Exception) (s : S)
| Undefined.
Arguments Returns {S A} a s.
Arguments Throws {S A} e s.
Arguments Undefined {S A}.

Definition M (S A : Type) : Type := S → Outcome S A.

Definition m_ret {S A} (a : A) : M S A := λ s, Returns a s.
Definition m_bind {S A B} (m : M S A) (f : A → M S B) : M S B :=
  λ s, match m s with
       | Returns a s' => f a s'
       | Throws e s' => Throws e s'
       | Undefined => Undefined
       end.
Definition m_modify {S} (f : S → S) : M S unit := λ s, Returns tt (f s).
(** [p->...] on a shared pointer. *)
Definition m_deref {S A} (p : option A) : M S A :=
  λ s, match p with Some a => Returns a s | None => Undefined end.
(** [try { body } catch (...) { handler }]. *)
Definition try_catch {S A} (body : M S A) (handler : Exception → M S A) : M S A :=
  λ s, match body s with
       | Throws e s' => handler e s'
       | o => o
       end.

Declare Scope rpc_scope.
Delimit Scope rpc_scope with rpc.
Notation "'let*' x ':=' m 'in' k" := (m_bind m (λ x, k))
  (at level 10, x pattern, m at level 100, k at level 200, only parsing) : rpc_scope.
Notation "'run*' m 'in' k" := (m_bind m (λ _, k))
  (at level 10, m at level 100, k at level 200, only parsing) : rpc_scope.

(** ** rpc.cpp: the context *)

(** The collaborators of the handlers (container holder, containers, volume
    holder, volumes) are not among the sources: the handlers are embedded
    over an interface of them. Every call works on the state of the daemon
    and may throw. *)
Record TContext := mkTContext {
  World : Type;
  Container : Type;
  Volume : Type;
  Cholder_Get : string → M World (option Container);
  Cholder_Create : string → TCred → M World TError;
  Cholder_Destroy : string → M World TError;
  Cholder_List : M World (list string);
  CheckPermission : Container → TCred → M World TError;
  Start : Container → M World TError;
  Stop : Container → M World TError;
  Pause : Container → M World TError;
  Resume : Container → M World TError;
  Kill_ : Container → Z → M World TError;
  GetProperty : Container → string → M World (TError * string);
  SetProperty : Container → string → string → bool → M World TError;
  GetData : Container → string → M World (TError * string);
  IsPrivileged : TCred → bool;
  TVolume_make : string → string → string → string → TCred → M World Volume;
  Volume_Create : Volume → M World TError;
  Vholder_Get : string → M World (option Volume);
  Vholder_List : M World (list string);
  Volume_CheckPermission : Volume → TCred → M World TError;
  Volume_Destroy : Volume → M World TError;
  Volume_GetName : Volume → string;
  Volume_GetSource : Volume → string;
  Volume_GetQuota : Volume → string;
  Volume_GetFlags : Volume → string;
  (* process-wide registries and constants *)
  propertySet : TValueSet;
  dataSet : TValueSet;
  HIDDEN_VALUE : Z;
  GIT_TAG : string;
  GIT_REVISION : string
}.

(** A line of the log: [LogRequest] and [LogResponse] print the message. *)
Inductive RpcLogLine :=
| LogRequest (req : TContainerRequest)
| LogResponse (rsp : TContainerResponse).

(** What a request works on: the daemon, the response under construction
    and the log. *)
Record RpcState (ctx : TContext) := mkRpcState {
  world : World ctx;
  rsp : TContainerResponse;
  rpclog : list RpcLogLine
}.
Arguments mkRpcState {ctx} world rsp rpclog.
Arguments world {ctx} r.
Arguments rsp {ctx} r.
Arguments rpclog {ctx} r.

(** ** rpc.cpp: the handlers *)

Section Rpc.
Variable ctx : TContext.

Definition Rpc (A : Type) : Type := M (RpcState ctx) A.

(** A call into the daemon from a handler. *)
Definition call {A} (op : M (World ctx) A) : Rpc A :=
  λ s, match op (world s) with
       | Returns a w => Returns a (mkRpcState w (rsp s) (rpclog s))
       | Throws e w => Throws e (mkRpcState w (rsp s) (rpclog s))
       | Undefined => Undefined
       end.

(** A write to the response. *)
Definition on_rsp (f : TContainerResponse → TContainerResponse) : Rpc unit :=
  m_modify (λ s, mkRpcState (world s) (f (rsp s)) (rpclog s)).

Definition TLogger_LogRequest (req : TContainerRequest) : Rpc unit :=
  m_modify (λ s, mkRpcState (world s) (rsp s) (rpclog s ++ [LogRequest req])).
Definition TLogger_LogResponse : Rpc unit :=
  m_modify (λ s, mkRpcState (world s) (rsp s) (rpclog s ++ [LogResponse (rsp s)])).

Definition CreateContainer (req : TContainerNameRequest) (cred : TCred) : Rpc TError :=
  (let* container := call (Cholder_Get ctx (req_name req)) in
   if container is Some _ then
     m_ret (mkTError EError.ContainerAlreadyExists "invalid name")
   else call (Cholder_Create ctx (req_name req) cred))%rpc.

Definition DestroyContainer (req : TContainerNameRequest) (cred : TCred) : Rpc TError :=
  (let* container := call (Cholder_Get ctx (req_name req)) in
   match container with
   | Some c =>
       let* error := call (CheckPermission ctx c cred) in
       if TError.to_bool error then m_ret error
       else call (Cholder_Destroy ctx (req_name req))
   | None => call (Cholder_Destroy ctx (req_name req))
   end)%rpc.

(** The shape shared by start, stop, pause, resume and kill: look the
    container up, check the permission, act. *)
Definition on_container (name : string) (cred : TCred)
    (op : Container ctx → M (World ctx) TError) : Rpc TError :=
  (let* container := call (Cholder_Get ctx name) in
   match container with
   | None => m_ret (mkTError EError.ContainerDoesNotExist "invalid name")
   | Some c =>
       let* error := call (CheckPermission ctx c cred) in
       if TError.to_bool error then m_ret error
       else call (op c)
   end)%rpc.

Definition StartContainer (req : TContainerNameRequest) (cred : TCred) : Rpc TError :=
  on_container (req_name req) cred (Start ctx).
Definition StopContainer (req : TContainerNameRequest) (cred : TCred) : Rpc TError :=
  on_container (req_name req) cred (Stop ctx).
Definition PauseContainer (req : TContainerNameRequest) (cred : TCred) : Rpc TError :=
  on_container (req_name req) cred (Pause ctx).
Definition ResumeContainer (req : TContainerNameRequest) (cred : TCred) : Rpc TError :=
  on_container (req_name req) cred (Resume ctx).

Definition ListContainers : Rpc TError :=
  (let* names := call (Cholder_List ctx) in
   run* on_rsp (λ r, foldl (λ r name, list_add_name name r) r names) in
   m_ret TError.Success)%rpc.

Definition GetContainerProperty (req : TContainerGetPropertyRequest) (cred : TCred)
    : Rpc TError :=
  (let* container := call (Cholder_Get ctx (getp_name req)) in
   match container with
   | None => m_ret (mkTError EError.ContainerDoesNotExist "invalid name")
   | Some c =>
       let* (error, value) := call (GetProperty ctx c (getp_property req)) in
       run* (if negb (TError.to_bool error) then on_rsp (getproperty_set_value value)
             else m_ret tt) in
       m_ret error
   end)%rpc.

Definition SetContainerProperty (req : TContainerSetPropertyRequest) (cred : TCred)
    : Rpc TError :=
  on_container (setp_name req) cred
    (λ c, SetProperty ctx c (setp_property req) (setp_value req) (IsPrivileged ctx cred)).

Definition GetContainerData (req : TContainerGetDataRequest) (cred : TCred)
    : Rpc TError :=
  (let* container := call (Cholder_Get ctx (getd_name req)) in
   match container with
   | None => m_ret (mkTError EError.ContainerDoesNotExist "invalid name")
   | Some c =>
       let* (error, value) := call (GetData ctx c (getd_data req)) in
       run* (if negb (TError.to_bool error) then on_rsp (getdata_set_value value)
             else m_ret tt) in
       m_ret error
   end)%rpc.

(** [p->Flags & HIDDEN_VALUE]. *)
Definition hidden (p : TValueDef) : bool := negb (Z.land (Flags p) (HIDDEN_VALUE ctx) =? 0).

Fixpoint ListProperty_loop (names : list string) : Rpc unit :=
  match names with
  | [] => m_ret tt
  | property :: names' =>
      (let* p := m_deref (TValueSet_.Get (propertySet ctx) property) in
       if hidden p then ListProperty_loop names'
       else
         run* on_rsp (propertylist_add (mkEntry property (Desc p))) in
         ListProperty_loop names')%rpc
  end.

Definition ListProperty : Rpc TError :=
  (run* on_rsp mutable_propertylist in
   run* ListProperty_loop (TValueSet_.GetNames (propertySet ctx)) in
   m_ret TError.Success)%rpc.

Fixpoint ListData_loop (names : list string) : Rpc unit :=
  match names with
  | [] => m_ret tt
  | data :: names' =>
      (let* d := m_deref (TValueSet_.Get (dataSet ctx) data) in
       if hidden d then ListData_loop names'
       else
         run* on_rsp (datalist_add (mkEntry data (Desc d))) in
         ListData_loop names')%rpc
  end.

Definition ListData : Rpc TError :=
  (run* on_rsp mutable_datalist in
   run* ListData_loop (TValueSet_.GetNames (dataSet ctx)) in
   m_ret TError.Success)%rpc.

Definition Kill (req : TContainerKillRequest) (cred : TCred) : Rpc TError :=
  on_container (kill_name req) cred (λ c, Kill_ ctx c (kill_sig req)).

Definition Version : Rpc TError :=
  (run* on_rsp (set_version (GIT_TAG ctx) (GIT_REVISION ctx)) in
   m_ret TError.Success)%rpc.

Definition CreateVolume (req : TVolumeCreateRequest) (cred : TCred) : Rpc TError :=
  (let* volume := call (TVolume_make ctx (vol_name req) (vol_source req)
                          (vol_quota req) (vol_flags req) cred) in
   let* err := call (Volume_Create ctx volume) in
   if TError.to_bool err then m_ret err
   else m_ret TError.Success)%rpc.

(** After the [if (volume)] block the pointer is null, and the message of
    the error is built from [volume->GetName()]. *)
Definition DestroyVolume (req : TContainerNameRequest) (cred : TCred) : Rpc TError :=
  (let* volume := call (Vholder_Get ctx (req_name req)) in
   match volume with
   | Some v =>
       let* error := call (Volume_CheckPermission ctx v cred) in
       if TError.to_bool error then m_ret error
       else call (Volume_Destroy ctx v)
   | None =>
       let* v := m_deref volume in
       m_ret (mkTError EError.VolumeDoesNotExist
                ("volume " +:+ Volume_GetName ctx v +:+ "doesn't exist"))
   end)%rpc.

Fixpoint ListVolumes_loop (names : list string) : Rpc unit :=
  match names with
  | [] => m_ret tt
  | name :: names' =>
      (run* on_rsp volumelist_add in
       let* vol := call (Vholder_Get ctx name) in
       let* v := m_deref vol in
       run* on_rsp (volumelist_fill
                      (mkVolumeDescription (Volume_GetName ctx v) (Volume_GetSource ctx v)
                         (Volume_GetQuota ctx v) (Volume_GetFlags ctx v))) in
       ListVolumes_loop names')%rpc
  end.

Definition ListVolumes : Rpc TError :=
  (let* names := call (Vholder_List ctx) in
   run* ListVolumes_loop names in
   m_ret TError.Success)%rpc.

(** ** rpc.cpp: the dispatcher *)

(** A handler of the chain leaves [send_reply] as it was. *)
Definition replying (h : Rpc TError) : Rpc (TError * bool) :=
  (let* error := h in m_ret (error, true))%rpc.
(** The two volume handlers clear [send_reply] when they succeed. *)
Definition deferring (h : Rpc TError) : Rpc (TError * bool) :=
  (let* error := h in m_ret (error, if negb (TError.to_bool error) then false else true))%rpc.

(** The body of the [try] block: the value is the pair of the locals
    [error] and [send_reply] at its end. *)
Definition HandleRpcRequest_try (req : TContainerRequest) (cred : TCred)
    : Rpc (TError * bool) :=
  if has (rpc.create req) then
    replying (CreateContainer (default default_name_req (rpc.create req)) cred)
  else if has (rpc.destroy req) then
    replying (DestroyContainer (default default_name_req (rpc.destroy req)) cred)
  else if has (rpc.list req) then
    replying ListContainers
  else if has (rpc.getproperty req) then
    replying (GetContainerProperty (default default_getp_req (rpc.getproperty req)) cred)
  else if has (rpc.setproperty req) then
    replying (SetContainerProperty (default default_setp_req (rpc.setproperty req)) cred)
  else if has (rpc.getdata req) then
    replying (GetContainerData (default default_getd_req (rpc.getdata req)) cred)
  else if has (rpc.start req) then
    replying (StartContainer (default default_name_req (rpc.start req)) cred)
  else if has (rpc.stop req) then
    replying (StopContainer (default default_name_req (rpc.stop req)) cred)
  else if has (rpc.pause req) then
    replying (PauseContainer (default default_name_req (rpc.pause req)) cred)
  else if has (rpc.resume req) then
    replying (ResumeContainer (default default_name_req (rpc.resume req)) cred)
  else if has (rpc.propertylist req) then
    replying ListProperty
  else if has (rpc.datalist req) then
    replying ListData
  else if has (rpc.kill req) then
    replying (Kill (default default_kill_req (rpc.kill req)) cred)
  else if has (rpc.version req) then
    replying Version
  else if has (rpc.createvolume req) then
    deferring (CreateVolume (default default_vol_req (rpc.createvolume req)) cred)
  else if has (rpc.destroyvolume req) then
    deferring (DestroyVolume (default default_name_req (rpc.destroyvolume req)) cred)
  else if has (rpc.listvolumes req) then
    replying ListVolumes
  else
    m_ret (mkTError EError.InvalidMethod "invalid RPC method", true).

(** The message each catch clause gives the error. *)
Definition fault_message (e : Exception) : string :=
  match e with
  | bad_alloc => "memory allocation failure"
  | thrown_string exc => exc
  | std_exception what => what
  | other_exception => "unknown error"
  end.

(** The catch clauses: [send_reply] still has its initial value, as a
    handler only clears it after it has returned. *)
Definition HandleRpcRequest_catch (e : Exception) : Rpc (TError * bool) :=
  (run* on_rsp (λ _, cleared) in
   m_ret (mkTError EError.Unknown (fault_message e), true))%rpc.

Definition HandleRpcRequest (req : TContainerRequest) (cred : TCred) : Rpc bool :=
  (run* TLogger_LogRequest req in
   run* on_rsp (set_error EError.Unknown) in
   let* (error, send_reply) :=
     try_catch (HandleRpcRequest_try req cred) HandleRpcRequest_catch in
   run* on_rsp (set_error (GetError error)) in
   run* on_rsp (set_errormsg (GetMsg error)) in
   run* (if send_reply then TLogger_LogResponse else m_ret tt) in
   m_ret send_reply)%rpc.

End Rpc.

(** ** The methods, for the statements about the dispatcher *)

Inductive Method :=
| m_create | m_destroy | m_list | m_getproperty | m_setproperty | m_getdata
| m_start | m_stop | m_pause | m_resume | m_propertylist | m_datalist
| m_kill | m_version | m_createvolume | m_destroyvolume | m_listvolumes.

#[global] Instance Method_eq_dec : EqDecision Method.
Proof. solve_decision. Defined.

(** The methods in the order in which the dispatcher tests them. *)
Definition chain : list Method :=
  [ m_create; m_destroy; m_list; m_getproperty; m_setproperty; m_getdata;
    m_start; m_stop; m_pause; m_resume; m_propertylist; m_datalist;
    m_kill; m_version; m_createvolume; m_destroyvolume; m_listvolumes ].

(** Whether the variant of a method is set in a request. *)
Definition is_set (req : TContainerRequest) (m : Method) : bool :=
  match m with
  | m_create => has (rpc.create req)
  | m_destroy => has (rpc.destroy req)
  | m_list => has (rpc.list req)
  | m_getproperty => has (rpc.getproperty req)
  | m_setproperty => has (rpc.setproperty req)
  | m_getdata => has (rpc.getdata req)
  | m_start => has (rpc.start req)
  | m_stop => has (rpc.stop req)
  | m_pause => has (rpc.pause req)
  | m_resume => has (rpc.resume req)
  | m_propertylist => has (rpc.propertylist req)
  | m_datalist => has (rpc.datalist req)
  | m_kill => has (rpc.kill req)
  | m_version => has (rpc.version req)
  | m_createvolume => has (rpc.createvolume req)
  | m_destroyvolume => has (rpc.destroyvolume req)
  | m_listvolumes => has (rpc.listvolumes req)
  end.

(** The variants that are set, in the order of the chain. *)
Definition set_variants (req : TContainerRequest) : list Method :=
  List.filter (is_set req) chain.

(** The handler of a method on a request, with its effect on [send_reply]. *)
Definition handler_of (ctx : TContext) (m : Method) (req : TContainerRequest)
    (cred : TCred) : Rpc ctx (TError * bool) :=
  match m with
  | m_create => replying ctx (CreateContainer ctx (default default_name_req (rpc.create req)) cred)
  | m_destroy => replying ctx (DestroyContainer ctx (default default_name_req (rpc.destroy req)) cred)
  | m_list => replying ctx (ListContainers ctx)
  | m_getproperty =>
      replying ctx (GetContainerProperty ctx (default default_getp_req (rpc.getproperty req)) cred)
  | m_setproperty =>
      replying ctx (SetContainerProperty ctx (default default_setp_req (rpc.setproperty req)) cred)
  | m_getdata =>
      replying ctx (GetContainerData ctx (default default_getd_req (rpc.getdata req)) cred)
  | m_start => replying ctx (StartContainer ctx (default default_name_req (rpc.start req)) cred)
  | m_stop => replying ctx (StopContainer ctx (default default_name_req (rpc.stop req)) cred)
  | m_pause => replying ctx (PauseContainer ctx (default default_name_req (rpc.pause req)) cred)
  | m_resume => replying ctx (ResumeContainer ctx (default default_name_req (rpc.resume req)) cred)
  | m_propertylist => replying ctx (ListProperty ctx)
  | m_datalist => replying ctx (ListData ctx)
  | m_kill => replying ctx (Kill ctx (default default_kill_req (rpc.kill req)) cred)
  | m_version => replying ctx (Version ctx)
  | m_createvolume =>
      deferring ctx (CreateVolume ctx (default default_vol_req (rpc.createvolume req)) cred)
  | m_destroyvolume =>
      deferring ctx (DestroyVolume ctx (default default_name_req (rpc.destroyvolume req)) cred)
  | m_listvolumes => replying ctx (ListVolumes ctx)
  end.

(** What the dispatcher does around the [try] block, given what the block
    does. *)
Definition around_try (ctx : TContext) (req : TContainerRequest)
    (body : Rpc ctx (TError * bool)) : Rpc ctx bool :=
  (run* TLogger_LogRequest ctx req in
   run* on_rsp ctx (set_error EError.Unknown) in
   let* (error, send_reply) := try_catch body (HandleRpcRequest_catch ctx) in
   run* on_rsp ctx (set_error (GetError error)) in
   run* on_rsp ctx (set_errormsg (GetMsg error)) in
   run* (if send_reply then TLogger_LogResponse ctx else m_ret tt) in
   m_ret send_reply)%rpc.

(** ** A small daemon to run the dispatcher on *)

Definition HIDDEN_VALUE_ex : Z := Z.shiftl 1 30.

Definition properties_ex : TValueSet :=
  props_ex ++ [ mkTValueDef "raw_root_pid" "internal" HIDDEN_VALUE_ex "" ].
Definition data_ex : TValueSet :=
  [ mkTValueDef "state" "container state" 0 "";
    mkTValueDef "__debug" "internal" HIDDEN_VALUE_ex "";
    mkTValueDef "exit_status" "container exit status" 0 "" ].

(** The daemon knows the containers by name, in creation order, and has no
    volume. Killing with a negative signal throws a string, setting the
    property "oom" runs out of memory. *)
Definition toy : TContext := {|
  World := list string;
  Container := string;
  Volume := string;
  Cholder_Get := λ name w, Returns (if bool_decide (name ∈ w) then Some name else None) w;
  Cholder_Create := λ name _ w, Returns TError.Success (w ++ [name]);
  Cholder_Destroy := λ name w,
    if bool_decide (name ∈ w) then Returns TError.Success (List.filter (λ n, negb (String.eqb n name)) w)
    else Returns (mkTError EError.ContainerDoesNotExist "invalid name") w;
  Cholder_List := λ w, Returns w w;
  CheckPermission := λ _ cred w,
    Returns (if Uid cred =? 0 then TError.Success
             else mkTError EError.PermissionDenied "Permission error") w;
  Start := λ _ w, Returns TError.Success w;
  Stop := λ _ w, Returns TError.Success w;
  Pause := λ _ w, Returns TError.Success w;
  Resume := λ _ w, Returns TError.Success w;
  Kill_ := λ _ sig w,
    if sig <? 0 then Throws (thrown_string "bad signal") w else Returns TError.Success w;
  GetProperty := λ _ property w,
    if String.eqb property "command" then Returns (TError.Success, "sleep 1") w
    else Returns (mkTError EError.InvalidValue "invalid property", "") w;
  SetProperty := λ _ property _ _ w,
    if String.eqb property "oom" then Throws bad_alloc w else Returns TError.Success w;
  GetData := λ _ data w,
    if String.eqb data "state" then Returns (TError.Success, "stopped") w
    else Returns (mkTError EError.InvalidValue "invalid data", "") w;
  IsPrivileged := λ cred, Uid cred =? 0;
  TVolume_make := λ name _ _ _ _ w, Returns name w;
  Volume_Create := λ _ w, Returns TError.Success w;
  Vholder_Get := λ _ w, Returns None w;
  Vholder_List := λ w, Returns [] w;
  Volume_CheckPermission := λ _ _ w, Returns TError.Success w;
  Volume_Destroy := λ _ w, Returns TError.Success w;
  Volume_GetName := λ v, v;
  Volume_GetSource := λ _, "";
  Volume_GetQuota := λ _, "";
  Volume_GetFlags := λ _, "";
  propertySet := properties_ex;
  dataSet := data_ex;
  HIDDEN_VALUE := HIDDEN_VALUE_ex;
  GIT_TAG := "v0.1";
  GIT_REVISION := "0000000"
|}.

Definition root_cred : TCred := mkTCred 0 0.
Definition toy_init : RpcState toy := mkRpcState (["a"] : World toy) cleared [].

(** Requests with no variant, with one, and with two. *)
Definition req_none : TContainerRequest := empty_request.
Definition req_create_b : TContainerRequest :=
  rpc.mkRequest (Some (mkNameReq "b")) None None None None None None None None None None None
    None None None None None.
Definition req_create_and_destroy : TContainerRequest :=
  rpc.mkRequest (Some (mkNameReq "b")) (Some (mkNameReq "a")) None None None None None None
    None None None None None None None None None.
Definition req_getproperty (name property : string) : TContainerRequest :=
  rpc.mkRequest None None None (Some (mkGetPropertyReq name property)) None None None None
    None None None None None None None None None.
Definition req_getdata (name data : string) : TContainerRequest :=
  rpc.mkRequest None None None None None (Some (mkGetDataReq name data)) None None
    None None None None None None None None None.
Definition req_kill (name : string) (sig : Z) : TContainerRequest :=
  rpc.mkRequest None None None None None None None None None None None None
    (Some (mkKillReq name sig)) None None None None.
Definition req_destroyvolume (name : string) : TContainerRequest :=
  rpc.mkRequest None None None None None None None None None None None None
    None None None (Some (mkNameReq name)) None.
Definition req_propertylist : TContainerRequest :=
  rpc.mkRequest None None None None None None None None None None (Some tt) None
    None None None None None.

(** ** The vocabulary of the statements *)

(** *** The registry *)

(** The object the factory of [TSubsystem::Get] builds for a name. *)
Definition factory (name : string) : TSubsystemObj :=
  if String.eqb name "memory" then TMemorySubsystem_
  else if String.eqb name "freezer" then TFreezerSubsystem_
  else if String.eqb name "cpu" then TCpuSubsystem_
  else TSubsystem_ name.

(** The states of the registry a run can be in: the initial one, and those
    a call of [Get] leaves. *)
Inductive reachable : SubsysState → Prop :=
| reach_init : reachable subsys_init
| reach_Get name s : reachable s → reachable (snd (TSubsystem.Get name s)).

(** Every registered name points to the object the factory builds for it. *)
Definition registry_ok (s : SubsysState) : Prop :=
  ∀ name p, subsystems s !! name = Some p →
    ∃ a, p = Some a ∧ heap s !! a = Some (factory name).

(** *** The freezer *)

(** What the n-th read of [freezer.state] leaves in the string. *)
Definition observed (cg : TCgroup) (n : nat) : string :=
  snd (read_result cg n "freezer.state").

(** The first of the [n] reads from the read number [from] on that observes
    [state], counted from [from]. *)
Fixpoint first_match (cg : TCgroup) (state : string) (from n : nat) : option nat :=
  match n with
  | O => None
  | S n' =>
      if bool_decide (observed cg from = state) then Some O
      else S <$> first_match cg state (S from) n'
  end.

(** The two transitions of the freezer, and the word each writes. *)
Definition freezer_word (freeze : bool) : string :=
  if freeze then "FROZEN" else "THAWED".
Definition freezer_op (T : Z) (freeze : bool) : TCgroup → St CgState TError :=
  if freeze then TFreezerSubsystem.Freeze T else TFreezerSubsystem.Unfreeze T.

(** *** The typed accessors *)

(** What an accessor answers to the raw form of a value, or to the error
    of its lookup: the parsed form, or the zero value of the kind and one
    logged line. *)
Definition typed_answer {TYPE} (zero : TYPE) (parse : string → TError + TYPE)
    (property : string) (raw : TError + string) : TYPE * list LogEntry :=
  match raw with
  | inl error => (zero, [LogError error ("Can't get property " +:+ property)])
  | inr s =>
      match parse s with
      | inl error => (zero, [LogError error ("Can't get property " +:+ property)])
      | inr value => (value, [])
      end
  end.

(** The semantics the specification gives the typed accessors, step by
    step, for an accessor [acc] of a kind with the zero value [zero] and the
    parser [parse]: a default slot of a parent-default descriptor is read
    from the parent, and at the root, which has none, from the static
    default; otherwise the accessor parses the stored string or the static
    default. An error is logged and answered with the zero value. *)
Definition get_typed_law (propertySet : TValueSet) {TYPE} (zero : TYPE)
    (parse : string → TError + TYPE)
    (acc : TContainer → string → option (TYPE * list LogEntry)) : Prop :=
  ∀ c property,
    if TPropertyHolder.VariantSet_IsDefault (VariantSet c) property
       && TPropertyHolder.HasFlags propertySet property PARENT_DEF_PROPERTY then
      match GetParent c with
      | Some parent => acc c property = acc parent property
      | None =>
          acc c property
          = Some (typed_answer zero parse property
                    (TPropertyHolder.VariantSet_GetRaw propertySet (VariantSet c) property))
      end
    else
      acc c property
      = Some (typed_answer zero parse property
                (TPropertyHolder.VariantSet_GetRaw propertySet (VariantSet c) property)).

(** The ancestors of a container, the nearest first. *)
Definition ancestors (c : TContainer) : list TContainer := tail (TPropertyHolder.lineage c).

(** The retrieval rule in the words of the specification: "if explicit,
    return it; else if the descriptor has parent-default, walk up to the
    nearest live ancestor that has an explicit value and return that; else
    return the descriptor's static default". A name the registry does not
    know "fails with NotFound". *)
Definition retrieve (propertySet : TValueSet) (c : TContainer) (property : string)
    : TError + string :=
  match TValueSet_.Get propertySet property with
  | None => inl (mkTError EError.NotFound property)
  | Some d =>
      match VariantSet c !! property with
      | Some s => inr s
      | None =>
          if negb (Z.land (Flags d) PARENT_DEF_PROPERTY =? 0) then
            inr (default (Default d)
                   (head (omap (λ a, VariantSet a !! property) (ancestors c))))
          else inr (Default d)
      end
  end.

(** The accessor always has an answer, and it is the one to the value the
    retrieval rule gives. *)
Definition reads_nearest (propertySet : TValueSet) {TYPE} (zero : TYPE)
    (parse : string → TError + TYPE)
    (acc : TContainer → string → option (TYPE * list LogEntry)) : Prop :=
  ∀ c property,
    acc c property = Some (typed_answer zero parse property (retrieve propertySet c property)).

(** *** The dispatcher *)

(** The state in which the [try] block starts: the request is logged and the
    error of the response is preset to [Unknown]. *)
Definition at_try {ctx} (req : TContainerRequest) (s : RpcState ctx) : RpcState ctx :=
  mkRpcState (world s) (set_error EError.Unknown (rsp s)) (rpclog s ++ [LogRequest req]).

(** The response after a fault: cleared, then the error and its message. *)
Definition fault_response (e : Exception) : TContainerResponse :=
  set_errormsg (fault_message e) (set_error EError.Unknown cleared).

(** The response at the end of the dispatcher, from the response [r] the
    handler left and the error it returned. *)
Definition final_response (error : TError) (r : TContainerResponse) : TContainerResponse :=
  set_errormsg (GetMsg error) (set_error (GetError error) r).

(** The entries of the descriptors that do not carry the hidden flag, in the
    order of the registry. *)
Definition visible_entries (ctx : TContext) (vs : TValueSet) : list TValueListEntry :=
  (λ d, mkEntry (VName d) (Desc d)) <$> List.filter (λ d, negb (hidden ctx d)) vs.

Definition with_propertylist (l : list TValueListEntry) (r : TContainerResponse)
    : TContainerResponse :=
  mkResponse (rsp_error r) (rsp_errormsg r) (rsp_list r) (rsp_getproperty r) (rsp_getdata r)
    (Some l) (rsp_datalist r) (rsp_version r) (rsp_volumelist r).
Definition with_datalist (l : list TValueListEntry) (r : TContainerResponse)
    : TContainerResponse :=
  mkResponse (rsp_error r) (rsp_errormsg r) (rsp_list r) (rsp_getproperty r) (rsp_getdata r)
    (rsp_propertylist r) (Some l) (rsp_version r) (rsp_volumelist r).

(** The reply of the small daemon to a request, when there is one. *)
Definition toy_reply (req : TContainerRequest) : RpcState toy :=
  match HandleRpcRequest toy req root_cred toy_init with
  | Returns _ s' => s'
  | _ => toy_init
  end.

(** ** Further vocabulary *)

(** *** The registry *)

(** Every registered pointer is the address of an allocated object. *)
Definition registry_bounded (s : SubsysState) : Prop :=
  ∀ name p, subsystems s !! name = Some p → ∃ a, p = Some a ∧ (a < length (heap s))%nat.

(** Two names never share a pointer. *)
Definition registry_injective (s : SubsysState) : Prop :=
  ∀ n1 n2 p, subsystems s !! n1 = Some p → subsystems s !! n2 = Some p → n1 = n2.

(** The state after a sequence of calls of [Get]. *)
Definition after_Gets (names : list string) (s : SubsysState) : SubsysState :=
  foldl (λ s name, snd (TSubsystem.Get name s)) s names.

(** *** The freezer *)

(** The lines the reads number [from], [from + 1], ... ([n] of them) leave
    in the log: one for each read that failed. *)
Fixpoint failed_reads (cg : TCgroup) (from n : nat) : list LogEntry :=
  match n with
  | O => []
  | S n' =>
      (if TError.to_bool (fst (read_result cg from "freezer.state"))
       then [LogError (fst (read_result cg from "freezer.state")) "Can't freeze cgroup"]
       else [])
      ++ failed_reads cg (S from) n'
  end.

(** *** The traffic-control adapter *)

(** One call per link, in the order of the links. *)
Definition issued_on {R} (c : TNlLink → NlCall R) (links : list TNlLink) : list NlEvent :=
  (λ link, Issued (c link)) <$> links.

(** The kernel after the call [c] has been made on each of the links, in
    order, and what the call on [link] answers once the calls on the links
    [before] have been made. *)
Definition kernel_after {K} (h : NlKernel K) (c : TNlLink → NlCall TError)
    (links : list TNlLink) (k : K) : K :=
  foldl (λ k link, snd (h _ (c link) k)) k links.

Definition answer_after {K} (h : NlKernel K) (c : TNlLink → NlCall TError)
    (before : list TNlLink) (link : TNlLink) (k : K) : TError :=
  fst (h _ (c link) (kernel_after h c before k)).

(** The outcome of an operation that makes the call [c] on each link, in
    order, and stops at the first call that answers an error. Either some
    link is the first on which the call fails: the calls on the links before
    it succeeded, the result is the error that call answered, the kernel is
    as that call left it, and the calls issued are those on the links up to
    it and none after. Or no call fails: the result is success, the call
    was made on every link, and the kernel is as the last call left it. *)
Definition stops_at_first_failure {K} (h : NlKernel K) (c : TNlLink → NlCall TError)
    (links : list TNlLink) (k : K) (r : TError * K * list NlEvent) : Prop :=
  (∃ before link after,
     links = before ++ link :: after
     ∧ (∀ i l, before !! i = Some l →
               TError.to_bool (answer_after h c (take i before) l k) = false)
     ∧ TError.to_bool (answer_after h c before link k) = true
     ∧ r = (answer_after h c before link k,
            kernel_after h c (before ++ [link]) k,
            issued_on c (before ++ [link])))
  ∨ ((∀ i l, links !! i = Some l →
             TError.to_bool (answer_after h c (take i links) l k) = false)
     ∧ r = (TError.Success, kernel_after h c links k, issued_on c links)).

(** The names of the links of a class, and the kernel entries of the class
    on them. *)
Definition link_names (links : list TNlLink) : gset string :=
  list_to_set (GetName <$> links).
Definition class_entries (t : TTclass) (links : list TNlLink) : gset (string * Z * Z) :=
  list_to_set ((λ link, (GetName link, TTclass_GetParent true t, TTclass_Handle t)) <$> links).

(** A qdisc that names the link eth0 twice, and a class under it. *)
Definition qdisc_dup : TQdisc := mkTQdisc [eth0; eth0; eth1] 65536 2.
Definition tclass_dup : TTclass := TclassOnQdisc qdisc_dup 65539.

(** *** The handlers *)

(** A computation keeps the relation [P] between the state it starts in and
    the state it returns or throws in. *)
Definition keeps {ctx A} (P : RpcState ctx → RpcState ctx → Prop) (h : Rpc ctx A) : Prop :=
  ∀ s, match h s with
       | Returns _ s' => P s s'
       | Throws _ s' => P s s'
       | Undefined => True
       end.

Definition same_log {ctx} (s s' : RpcState ctx) : Prop := rpclog s' = rpclog s.
Definition same_world {ctx} (s s' : RpcState ctx) : Prop := world s' = world s.
Definition same_rsp {ctx} (s s' : RpcState ctx) : Prop := rsp s' = rsp s.

(** The methods whose handler checks the permission of the caller on an
    existing container before it acts, and the name of that container in
    the request. *)
Definition owner_checked : list Method :=
  [m_destroy; m_setproperty; m_start; m_stop; m_pause; m_resume; m_kill].

(** The methods whose handler refuses a container that does not exist. *)
Definition need_container : list Method :=
  [m_getproperty; m_setproperty; m_getdata; m_start; m_stop; m_pause; m_resume; m_kill].

Definition target_name (m : Method) (req : TContainerRequest) : string :=
  match m with
  | m_create => req_name (default default_name_req (rpc.create req))
  | m_destroy => req_name (default default_name_req (rpc.destroy req))
  | m_getproperty => getp_name (default default_getp_req (rpc.getproperty req))
  | m_setproperty => setp_name (default default_setp_req (rpc.setproperty req))
  | m_getdata => getd_name (default default_getd_req (rpc.getdata req))
  | m_start => req_name (default default_name_req (rpc.start req))
  | m_stop => req_name (default default_name_req (rpc.stop req))
  | m_pause => req_name (default default_name_req (rpc.pause req))
  | m_resume => req_name (default default_name_req (rpc.resume req))
  | m_kill => kill_name (default default_kill_req (rpc.kill req))
  | m_destroyvolume => req_name (default default_name_req (rpc.destroyvolume req))
  | m_createvolume => vol_name (default default_vol_req (rpc.createvolume req))
  | _ => ""
  end.

(** The methods whose handler writes no payload into the response. *)
Definition payload_free : list Method :=
  [m_create; m_destroy; m_setproperty; m_start; m_stop; m_pause; m_resume; m_kill;
   m_createvolume; m_destroyvolume].

(** The reply the dispatcher logs and returns for the error [error] of a
    handler that left the daemon in [w] and wrote nothing to the response. *)
Definition plain_reply {ctx} (req : TContainerRequest) (s : RpcState ctx) (w : World ctx)
    (error : TError) : RpcState ctx :=
  mkRpcState w (final_response error (set_error EError.Unknown (rsp s)))
    (rpclog s ++ [LogRequest req;
                  LogResponse (final_response error (set_error EError.Unknown (rsp s)))]).

Definition with_list (l : list string) (r : TContainerResponse) : TContainerResponse :=
  mkResponse (rsp_error r) (rsp_errormsg r) (Some l) (rsp_getproperty r) (rsp_getdata r)
    (rsp_propertylist r) (rsp_datalist r) (rsp_version r) (rsp_volumelist r).
Definition with_volumelist (l : list TVolumeDescription) (r : TContainerResponse)
    : TContainerResponse :=
  mkResponse (rsp_error r) (rsp_errormsg r) (rsp_list r) (rsp_getproperty r) (rsp_getdata r)
    (rsp_propertylist r) (rsp_datalist r) (rsp_version r) (Some l).

(** The description [ListVolumes] writes for a volume. *)
Definition describe (ctx : TContext) (v : Volume ctx) : TVolumeDescription :=
  mkVolumeDescription (Volume_GetName ctx v) (Volume_GetSource ctx v)
    (Volume_GetQuota ctx v) (Volume_GetFlags ctx v).

(** The state in which the dispatcher returns when it withholds the reply:
    the response is not logged. *)
Definition withheld_reply {ctx} (req : TContainerRequest) (s : RpcState ctx) (w : World ctx)
    : RpcState ctx :=
  mkRpcState w (final_response TError.Success (set_error EError.Unknown (rsp s)))
    (rpclog s ++ [LogRequest req]).

(** The small daemon with a volume holder that lists [names] and knows the
    volumes [known]; a volume is its name, kept under "/place". *)
Definition toy_volumes (names known : list string) : TContext := {|
  World := World toy;
  Container := Container toy;
  Volume := string;
  Cholder_Get := Cholder_Get toy;
  Cholder_Create := Cholder_Create toy;
  Cholder_Destroy := Cholder_Destroy toy;
  Cholder_List := Cholder_List toy;
  CheckPermission := CheckPermission toy;
  Start := Start toy;
  Stop := Stop toy;
  Pause := Pause toy;
  Resume := Resume toy;
  Kill_ := Kill_ toy;
  GetProperty := GetProperty toy;
  SetProperty := SetProperty toy;
  GetData := GetData toy;
  IsPrivileged := IsPrivileged toy;
  TVolume_make := λ name _ _ _ _ w, Returns name w;
  Volume_Create := λ _ w, Returns TError.Success w;
  Vholder_Get := λ name w, Returns (if bool_decide (name ∈ known) then Some name else None) w;
  Vholder_List := λ w, Returns names w;
  Volume_CheckPermission := λ _ _ w, Returns TError.Success w;
  Volume_Destroy := λ _ w, Returns TError.Success w;
  Volume_GetName := λ v, v;
  Volume_GetSource := λ v, "/place/" +:+ v;
  Volume_GetQuota := λ _, "1G";
  Volume_GetFlags := λ _, "";
  propertySet := propertySet toy;
  dataSet := dataSet toy;
  HIDDEN_VALUE := HIDDEN_VALUE toy;
  GIT_TAG := GIT_TAG toy;
  GIT_REVISION := GIT_REVISION toy
|}.

Definition toy_volumes_init (names known : list string) : RpcState (toy_volumes names known) :=
  mkRpcState (["a"] : World (toy_volumes names known)) cleared [].

(** ** util/log.cpp: the logger *)

(** Modelled from the spec: [ELogLevel] (log.hpp is not among the sources),
    in the order of the table of prefixes of [TLogger::Log]; [Log()] without
    an argument, as [LogAction], [LogRequest] and [LogResponse] call it, is
    taken to log a notice, the level with the empty prefix. *)
Inductive ELogLevel := LOG_NOTICE | LOG_WARN | LOG_ERROR.

(** Modelled from the spec: what the logger asks of its environment. The
    file system ([TPath] and [TFile], of headers that are not among the
    sources), the two output files, the clock, the name of the process
    ([GetProcessName], declared in unix.hpp), [strerror], and whether the
    file is compiled for the daemon ([#ifdef PORTOD]). *)
Record LogEnv := mkLogEnv {
  Fs : Type;
  DirAccessOk : string → Fs → bool;    (* logPath.DirName().AccessOk(EFileAccess::Write) *)
  PathExists : string → Fs → bool;     (* logPath.Exists() *)
  IsRegular : string → Fs → bool;      (* logPath.GetType() == EFileType::Regular *)
  PathMode : string → Fs → Z;          (* logPath.GetMode() *)
  FileRemove : string → Fs → Fs;       (* (void)f.Remove() *)
  FileTouch : string → Z → Fs → Fs;    (* (void)f.Touch(), of TFile f(logPath, logMode) *)
  open_app : string → Fs → bool * Fs;  (* logFile.open(path, app), then is_open() *)
  open_kmsg : Fs → bool * Fs;          (* kmsgFile.open("/dev/kmsg"), then is_open() *)
  GetTime : Fs → string;
  GetProcessName : string;
  strerror : Z → string;
  PORTOD : bool
}.

(** Where a line goes. *)
Inductive Sink := ToCerr | ToLogFile (path : string) | ToKmsg.

(** The statics of log.cpp, the file system, the statistics of the daemon
    and the lines written so far. *)
Record LogState (env : LogEnv) := mkLogState {
  logFile_open : bool;
  kmsgFile_open : bool;
  logPath : string;
  logMode : Z;
  stdlog : bool;
  verbose : bool;
  openlog : Z;
  fs : Fs env;
  stat_warns : nat;
  stat_errors : nat;
  written : list (Sink * string)
}.
Arguments mkLogState {env}.
Arguments logFile_open {env}.
Arguments kmsgFile_open {env}.
Arguments logPath {env}.
Arguments logMode {env}.
Arguments stdlog {env}.
Arguments verbose {env}.
Arguments openlog {env}.
Arguments fs {env}.
Arguments stat_warns {env}.
Arguments stat_errors {env}.
Arguments written {env}.

Module TLogger_.
Section Logger.
Variable env : LogEnv.
Local Abbreviation State := (LogState env).

Definition InitLog (path : string) (mode : Z) (verb : bool) (s : State) : State :=
  mkLogState false (kmsgFile_open s) path mode (stdlog s) verb (openlog s) (fs s)
    (stat_warns s) (stat_errors s) (written s).

Definition LogToStd (s : State) : State :=
  mkLogState (logFile_open s) (kmsgFile_open s) (logPath s) (logMode s) true (verbose s)
    (openlog s) (fs s) (stat_warns s) (stat_errors s) (written s).

Definition with_fs (f : Fs env) (s : State) : State :=
  mkLogState (logFile_open s) (kmsgFile_open s) (logPath s) (logMode s) (stdlog s) (verbose s)
    (openlog s) f (stat_warns s) (stat_errors s) (written s).

Definition OpenLog (s : State) : State :=
  if logFile_open s then s
  else if negb (DirAccessOk env (logPath s) (fs s)) then
    if negb (kmsgFile_open s) then
      let '(opened, f) := open_kmsg env (fs s) in
      mkLogState (logFile_open s) opened (logPath s) (logMode s) (stdlog s) (verbose s)
        (openlog s) f (stat_warns s) (stat_errors s) (written s)
    else s
  else
    let '(needCreate, f1) :=
      if PathExists env (logPath s) (fs s) then
        if negb (IsRegular env (logPath s) (fs s))
           || negb (PathMode env (logPath s) (fs s) =? logMode s)
        then (true, FileRemove env (logPath s) (fs s))
        else (false, fs s)
      else (true, fs s) in
    let f2 := if needCreate then FileTouch env (logPath s) (logMode s) f1 else f1 in
    let '(opened, f3) := open_app env (logPath s) f2 in
    mkLogState opened (if opened && kmsgFile_open s then false else kmsgFile_open s)
      (logPath s) (logMode s) (stdlog s) (verbose s) (openlog s) f3
      (stat_warns s) (stat_errors s) (written s).

Definition CloseLog (s : State) : State :=
  mkLogState false false (logPath s) (logMode s) (stdlog s) (verbose s) (openlog s) (fs s)
    (stat_warns s) (stat_errors s) (written s).

Definition prefix (level : ELogLevel) : string :=
  match level with LOG_NOTICE => "" | LOG_WARN => "Warning! " | LOG_ERROR => "Error! " end.

(** Modelled from the spec: [StatInc] (stat.hpp is not among the sources)
    adds one to the counter it is given. Under [#ifdef PORTOD], [Log]
    counts the warnings and the errors. *)
Definition StatInc (level : ELogLevel) (s : State) : State :=
  if PORTOD env then
    match level with
    | LOG_WARN =>
        mkLogState (logFile_open s) (kmsgFile_open s) (logPath s) (logMode s) (stdlog s)
          (verbose s) (openlog s) (fs s) (S (stat_warns s)) (stat_errors s) (written s)
    | LOG_ERROR =>
        mkLogState (logFile_open s) (kmsgFile_open s) (logPath s) (logMode s) (stdlog s)
          (verbose s) (openlog s) (fs s) (stat_warns s) (S (stat_errors s)) (written s)
    | LOG_NOTICE => s
    end
  else s.

Definition set_openlog (n : Z) (s : State) : State :=
  mkLogState (logFile_open s) (kmsgFile_open s) (logPath s) (logMode s) (stdlog s) (verbose s)
    n (fs s) (stat_warns s) (stat_errors s) (written s).

Definition on_cerr (level : ELogLevel) (s : State) : Sink * string :=
  (ToCerr, GetTime env (fs s) +:+ " " +:+ GetProcessName env +:+ ": " +:+ prefix level).

(** [TLogger::Log(level)]: the state after the call, the stream it returns
    and what it has already written to the stream. *)
Definition Log (level : ELogLevel) (s : State) : State * (Sink * string) :=
  let s := StatInc level s in
  if stdlog s then (s, on_cerr level s)
  else if negb (openlog s =? 0) then (s, on_cerr level s)
  else
    let s := set_openlog (openlog s + 1) s in
    let s := OpenLog s in
    let s := set_openlog (openlog s - 1) s in
    if logFile_open s then
      (s, (ToLogFile (logPath s), GetTime env (fs s) +:+ " " +:+ prefix level))
    else if kmsgFile_open s then
      (s, (ToKmsg, " " +:+ GetProcessName env +:+ ": " +:+ prefix level))
    else (s, on_cerr level s).

(** [Log(level) << text << std::endl]: one line on the stream. *)
Definition put_line (level : ELogLevel) (text : string) (s : State) : State :=
  let '(s, (sink, head)) := Log level s in
  mkLogState (logFile_open s) (kmsgFile_open s) (logPath s) (logMode s) (stdlog s) (verbose s)
    (openlog s) (fs s) (stat_warns s) (stat_errors s) (written s ++ [(sink, head +:+ text)]).

Definition LogAction (action : string) (error : bool) (errcode : Z) (s : State) : State :=
  if negb error && verbose s then put_line LOG_NOTICE (" Ok: " +:+ action) s
  else if error then
    put_line LOG_NOTICE (" Error: " +:+ action +:+ ": " +:+ strerror env errcode) s
  else s.

Definition LogRequest (message : string) (s : State) : State :=
  put_line LOG_NOTICE ("-> " +:+ message) s.

Definition LogResponse (message : string) (s : State) : State :=
  put_line LOG_NOTICE ("<- " +:+ message) s.

End Logger.
End TLogger_.

(** An environment to run the logger in: the file system is the list of the
    paths that exist (all regular, mode 0644), the directory of the log is
    writable exactly when the path starts under "/var/log/", and both
    files open. *)
Definition log_env_ex : LogEnv := {|
  Fs := list string;
  DirAccessOk := λ path _, String.prefix "/var/log/" path;
  PathExists := λ path f, bool_decide (path ∈ f);
  IsRegular := λ _ _, true;
  PathMode := λ _ _, 420;
  FileRemove := λ path f, List.filter (λ p, negb (String.eqb p path)) f;
  FileTouch := λ path _ f, f ++ [path];
  open_app := λ _ f, (true, f);
  open_kmsg := λ f, (true, f);
  GetTime := λ _, "Thu Jan  1 00:00:00 1970";
  GetProcessName := "portod";
  strerror := λ e, if e =? 2 then "No such file or directory" else "Unknown error";
  PORTOD := true
|}.

Definition log_init_ex (path : string) : LogState log_env_ex :=
  mkLogState false false path 420 false false 0 ([] : Fs log_env_ex) 0 0 [].

(** *** The logger *)

(** The logger is at rest: it is not inside [Log], and the log file and
    /dev/kmsg are not both open. *)
Definition log_ok {env} (s : LogState env) : Prop :=
  openlog s = 0 ∧ logFile_open s && kmsgFile_open s = false.

(** What a level adds to the statistics of the daemon. *)
Definition counts_warn (env : LogEnv) (level : ELogLevel) : nat :=
  if PORTOD env then match level with LOG_WARN => 1 | _ => 0 end else 0.
Definition counts_error (env : LogEnv) (level : ELogLevel) : nat :=
  if PORTOD env then match level with LOG_ERROR => 1 | _ => 0 end else 0.

(** ** src/api/cpp/libporto.cpp: the connection of the client library *)

Module Porto.

Definition PortoSocket : string := "/run/portod.socket".
Definition EIO : Z := 5.
Definition EBADF : Z := 9.

(** [int] has 32 bits. The product of two [int]s, with the wrap-around of
    the machine written out; an overflow is undefined in C++, and the
    properties that name a product are stated where it does not overflow. *)
Definition int_wrap (x : Z) : Z := (x + 2147483648) mod 4294967296 - 2147483648.
Definition int_mul (a b : Z) : Z := int_wrap (a * b).

Inductive SockOpt := SO_SNDTIMEO | SO_RCVTIMEO.

(** Modelled from the spec: the messages are the classes generated from
    rpc.proto (rpc.pb.h is not among the sources). The asyncwait part of a
    request is the only part of a request that [ConnectionImpl] writes to. *)
Record TAsyncWaitRequest := mkTAsyncWaitRequest {
  aw_name : list string;
  aw_label : list string;
  aw_timeout_ms : option Z
}.

Record AsyncWaitEvent := mkAsyncWaitEvent {
  When : Z;
  Name : string;
  State : string;
  Label : string;
  Value : string
}.

Section Client.
(** Modelled from the spec: the rest of a request and the payload of a
    response are those of the generated classes, kept abstract;
    [Body_Clear] is the rest of a request after [Clear()]. [Success] and
    [Unknown] are the numbers of [EError::Success] and [EError::Unknown],
    which rpc.proto gives. *)
Variables Body Payload : Type.
Variable Body_Clear : Body.
Variables Success Unknown : Z.
Variable strerror : Z → string.

Record TContainerRequest := mkTContainerRequest {
  body : Body;
  asyncwait : option TAsyncWaitRequest
}.

Definition Req_Clear : TContainerRequest := mkTContainerRequest Body_Clear None.

(** [Req.mutable_asyncwait()]: the part is created empty when it is not
    there. *)
Definition mutable_asyncwait (r : TContainerRequest) : TAsyncWaitRequest :=
  match asyncwait r with Some a => a | None => mkTAsyncWaitRequest [] [] None end.

Definition asyncwait_add_name (name : string) (r : TContainerRequest) : TContainerRequest :=
  let a := mutable_asyncwait r in
  mkTContainerRequest (body r)
    (Some (mkTAsyncWaitRequest (aw_name a ++ [name]) (aw_label a) (aw_timeout_ms a))).

Definition asyncwait_add_label (label : string) (r : TContainerRequest) : TContainerRequest :=
  let a := mutable_asyncwait r in
  mkTContainerRequest (body r)
    (Some (mkTAsyncWaitRequest (aw_name a) (aw_label a ++ [label]) (aw_timeout_ms a))).

Definition asyncwait_set_timeout_ms (ms : Z) (r : TContainerRequest) : TContainerRequest :=
  let a := mutable_asyncwait r in
  mkTContainerRequest (body r)
    (Some (mkTAsyncWaitRequest (aw_name a) (aw_label a) (Some ms))).

Record TContainerResponse := mkTContainerResponse {
  error : Z;
  errormsg : string;
  rsp_asyncwait : option AsyncWaitEvent;
  payload : Payload
}.

(** What reading one frame gives: no length ([ReadVarint32] fails), a frame
    that does not parse (the response keeps what was parsed), or a
    response. The number is [raw.GetErrno()]. *)
Inductive RecvResult :=
  | NoSize (errno : Z)
  | BadFrame (partial : TContainerResponse) (errno : Z)
  | Frame (r : TContainerResponse).

(** The calls that leave the process, with their results. *)
Inductive Syscall :=
  | ev_socket (ret errno : Z)
  | ev_setsockopt (fd : Z) (opt : SockOpt) (tv_sec : Z) (ret errno : Z)
  | ev_connect (fd : Z) (path : string) (ret errno : Z)
  | ev_close (fd : Z)
  | ev_send (fd : Z) (req : TContainerRequest) (errno : Z)
  | ev_recv (fd : Z) (res : RecvResult)
  | ev_callback (event : AsyncWaitEvent).

(** The world of the client: what the kernel and the daemon will answer to
    the calls to come, one tape for each call, and the calls made so far.
    A tape that has run out answers with a failure; the tape of the frames
    ends with the end of the stream. *)
Record World := mkWorld {
  socket_tape : list (Z * Z);
  setsockopt_tape : list (Z * Z);
  connect_tape : list (Z * Z);
  send_tape : list Z;
  recv_tape : list RecvResult;
  trace : list Syscall
}.

Definition emit (e : Syscall) (w : World) : World :=
  mkWorld (socket_tape w) (setsockopt_tape w) (connect_tape w) (send_tape w) (recv_tape w)
    (trace w ++ [e]).

Definition socket (w : World) : (Z * Z) * World :=
  let '(a, t) := match socket_tape w with [] => ((-1, EBADF), []) | a :: t => (a, t) end in
  (a, emit (ev_socket a.1 a.2)
        (mkWorld t (setsockopt_tape w) (connect_tape w) (send_tape w) (recv_tape w) (trace w))).

Definition setsockopt (fd : Z) (opt : SockOpt) (tv_sec : Z) (w : World) : (Z * Z) * World :=
  let '(a, t) := match setsockopt_tape w with [] => ((-1, EBADF), []) | a :: t => (a, t) end in
  (a, emit (ev_setsockopt fd opt tv_sec a.1 a.2)
        (mkWorld (socket_tape w) t (connect_tape w) (send_tape w) (recv_tape w) (trace w))).

Definition connect (fd : Z) (path : string) (w : World) : (Z * Z) * World :=
  let '(a, t) := match connect_tape w with [] => ((-1, EBADF), []) | a :: t => (a, t) end in
  (a, emit (ev_connect fd path a.1 a.2)
        (mkWorld (socket_tape w) (setsockopt_tape w) t (send_tape w) (recv_tape w) (trace w))).

Definition close (fd : Z) (w : World) : World := emit (ev_close fd) w.

(** Writing the length and the request to the descriptor and flushing;
    the result is [raw.GetErrno()]. *)
Definition write_frame (fd : Z) (req : TContainerRequest) (w : World) : Z * World :=
  let '(a, t) := match send_tape w with [] => (EBADF, []) | a :: t => (a, t) end in
  (a, emit (ev_send fd req a)
        (mkWorld (socket_tape w) (setsockopt_tape w) (connect_tape w) t (recv_tape w) (trace w))).

Definition read_frame (fd : Z) (res : RecvResult) (rest : list RecvResult) (w : World) : World :=
  emit (ev_recv fd res)
    (mkWorld (socket_tape w) (setsockopt_tape w) (connect_tape w) (send_tape w) rest (trace w)).

Record ConnectionImpl := mkConnectionImpl {
  Fd : Z;
  Timeout : Z;
  Req : TContainerRequest;
  Rsp : TContainerResponse;
  AsyncWaitContainers : list string;
  AsyncWaitTimeout : Z;
  AsyncWaitCallback : bool;
  LastError : Z;
  LastErrorMsg : string
}.

Definition set_Fd (fd : Z) (c : ConnectionImpl) : ConnectionImpl :=
  mkConnectionImpl fd (Timeout c) (Req c) (Rsp c) (AsyncWaitContainers c)
    (AsyncWaitTimeout c) (AsyncWaitCallback c) (LastError c) (LastErrorMsg c).
Definition set_Timeout (t : Z) (c : ConnectionImpl) : ConnectionImpl :=
  mkConnectionImpl (Fd c) t (Req c) (Rsp c) (AsyncWaitContainers c)
    (AsyncWaitTimeout c) (AsyncWaitCallback c) (LastError c) (LastErrorMsg c).
Definition set_Req (r : TContainerRequest) (c : ConnectionImpl) : ConnectionImpl :=
  mkConnectionImpl (Fd c) (Timeout c) r (Rsp c) (AsyncWaitContainers c)
    (AsyncWaitTimeout c) (AsyncWaitCallback c) (LastError c) (LastErrorMsg c).
Definition set_Rsp (r : TContainerResponse) (c : ConnectionImpl) : ConnectionImpl :=
  mkConnectionImpl (Fd c) (Timeout c) (Req c) r (AsyncWaitContainers c)
    (AsyncWaitTimeout c) (AsyncWaitCallback c) (LastError c) (LastErrorMsg c).
Definition set_AsyncWait (names : list string) (t : Z) (cb : bool) (c : ConnectionImpl)
  : ConnectionImpl :=
  mkConnectionImpl (Fd c) (Timeout c) (Req c) (Rsp c) names t cb (LastError c) (LastErrorMsg c).
Definition set_LastError (e : Z) (msg : string) (c : ConnectionImpl) : ConnectionImpl :=
  mkConnectionImpl (Fd c) (Timeout c) (Req c) (Rsp c) (AsyncWaitContainers c)
    (AsyncWaitTimeout c) (AsyncWaitCallback c) e msg.

(** A connection and the world it talks to. *)
Definition Conn : Type := ConnectionImpl * World.

Definition Close : Conn → Conn := λ '(c, w),
  (set_Fd (-1) c, if 0 <=? Fd c then close (Fd c) w else w).

Definition Error (err : Z) (prefix : string) : Conn → Z * Conn := λ '(c, w),
  let c := set_LastError Unknown (prefix +:+ ": " +:+ strerror err) c in
  let '(c, w) := Close (c, w) in
  (LastError c, (c, w)).

Definition SetTimeout (direction timeout : Z) : Conn → Z * Conn := λ '(c, w),
  let '((ret, errno), w) :=
    if negb (Z.land direction 1 =? 0) then setsockopt (Fd c) SO_SNDTIMEO timeout w
    else ((0, 0), w) in
  if negb (ret =? 0) then Error errno "set send timeout" (c, w)
  else
    let '((ret, errno), w) :=
      if negb (Z.land direction 2 =? 0) then setsockopt (Fd c) SO_RCVTIMEO timeout w
      else ((0, 0), w) in
    if negb (ret =? 0) then Error errno "set recv timeout" (c, w)
    else (Success, (c, w)).

Definition Send : Conn → Z * Conn := λ '(c, w),
  let '(err, w) := write_frame (Fd c) (Req c) w in
  if negb (err =? 0) then Error err "send" (c, w) else (Success, (c, w)).

(** [raw.GetErrno() ?: EIO] *)
Definition errno_or_EIO (errno : Z) : Z := if errno =? 0 then EIO else errno.

(** The loop of [Recv], over the frames to come. *)
Fixpoint Recv_loop (frames : list RecvResult) (c : ConnectionImpl) (w : World) : Z * Conn :=
  match frames with
  | [] => Error (errno_or_EIO 0) "recv" (c, read_frame (Fd c) (NoSize 0) [] w)
  | NoSize errno :: rest =>
      Error (errno_or_EIO errno) "recv" (c, read_frame (Fd c) (NoSize errno) rest w)
  | BadFrame partial errno :: rest =>
      Error (errno_or_EIO errno) "recv"
        (set_Rsp partial c, read_frame (Fd c) (BadFrame partial errno) rest w)
  | Frame r :: rest =>
      let w := read_frame (Fd c) (Frame r) rest w in
      let c := set_Rsp r c in
      match rsp_asyncwait (Rsp c) with
      | Some event =>
          let w := if AsyncWaitCallback c then emit (ev_callback event) w else w in
          Recv_loop rest c w
      | None => (Success, (c, w))
      end
  end.

Definition Recv : Conn → Z * Conn := λ '(c, w), Recv_loop (recv_tape w) c w.

(** "restore async wait" in [Connect] *)
Definition restore_asyncwait (c : ConnectionImpl) : TContainerRequest :=
  let r := foldl (λ r name, asyncwait_add_name name r) (Req c) (AsyncWaitContainers c) in
  if 0 <=? AsyncWaitTimeout c
  then asyncwait_set_timeout_ms (int_mul (AsyncWaitTimeout c) 1000) r
  else r.

(** [Connect], which calls [Rpc], which calls [Connect]: the body of each
    is given the other one. *)
Definition Connect_body (Rpc : Conn → option (Z * Conn)) : Conn → option (Z * Conn) := λ s,
  let '(c, w) := if 0 <=? Fd s.1 then Close s else s in
  let '((fd, errno), w) := socket w in
  let c := set_Fd fd c in
  if Fd c <? 0 then Some (Error errno "socket" (c, w))
  else
    let '(ret, (c, w)) :=
      if negb (Timeout c =? 0) then SetTimeout 3 (Timeout c) (c, w) else (0, (c, w)) in
    if negb (ret =? 0) then Some (LastError c, (c, w))
    else
      let '((ret, errno), w) := connect (Fd c) PortoSocket w in
      if ret <? 0 then Some (Error errno "connect" (c, w))
      else
        match AsyncWaitContainers c with
        | _ :: _ => Rpc (set_Req (restore_asyncwait c) c, w)
        | [] => Some (Success, (c, w))
        end.

Definition Rpc_body (Connect : Conn → option (Z * Conn)) : Conn → option (Z * Conn) := λ s,
  match (if Fd s.1 <? 0 then Connect s else Some (0, s)) with
  | None => None
  | Some (ret, s) =>
      let '(ret, (c, w)) := if ret =? 0 then Send s else (ret, s) in
      let c := set_Req Req_Clear c in
      let '(ret, (c, w)) := if ret =? 0 then Recv (c, w) else (ret, (c, w)) in
      if ret =? 0 then
        let c := set_LastError (error (Rsp c)) (errormsg (Rsp c)) c in
        Some (LastError c, (c, w))
      else Some (ret, (c, w))
  end.

(** The depth of the calls is the fuel. *)
Fixpoint Rpc (depth : nat) : Conn → option (Z * Conn) :=
  match depth with
  | O => λ _, None
  | S depth => Rpc_body (Connect_body (Rpc depth))
  end.

Definition Connect (depth : nat) : Conn → option (Z * Conn) := Connect_body (Rpc depth).

(** *** The calls of [Connection] that only use the connection *)

Definition Connection_SetTimeout (timeout : Z) : Conn → Z * Conn := λ '(c, w),
  let c := set_Timeout timeout c in
  if 0 <=? Fd c then SetTimeout 3 timeout (c, w) else (Success, (c, w)).

(** [Connection::Rpc(req, rsp)]: the result and the new [rsp]. *)
Definition Connection_Rpc (IsInitialized : TContainerRequest → bool) (depth : nat)
    (req : TContainerRequest) (rsp : TContainerResponse)
  : Conn → option ((Z * TContainerResponse) * Conn) := λ '(c, w),
  let c := set_Req req c in
  if negb (IsInitialized (Req c)) then Some ((-1, rsp), (c, w))
  else
    match Rpc depth (c, w) with
    | None => None
    | Some (ret, (c, w)) => Some ((ret, Rsp c), (c, w))
    end.

Definition Connection_AsyncWait (depth : nat) (containers labels : list string)
    (callback : bool) (timeout : Z) : Conn → option (Z * Conn) := λ '(c, w),
  let c := set_AsyncWait [] timeout callback c in
  let r := foldl (λ r name, asyncwait_add_name name r) (Req c) containers in
  let r := foldl (λ r label, asyncwait_add_label label r) r labels in
  let r := if 0 <=? timeout then asyncwait_set_timeout_ms (int_mul timeout 1000) r else r in
  match Rpc depth (set_Req r c, w) with
  | None => None
  | Some (ret, (c, w)) =>
      if negb (ret =? 0)
      then Some (ret, (set_AsyncWait (AsyncWaitContainers c) (AsyncWaitTimeout c) false c, w))
      else Some (ret, (set_AsyncWait containers (AsyncWaitTimeout c) (AsyncWaitCallback c) c, w))
  end.

Definition Connection_GetLastError (c : ConnectionImpl) : Z * string :=
  (LastError c, LastErrorMsg c).

End Client.

Arguments mkTContainerRequest {Body}.
Arguments body {Body}.
Arguments asyncwait {Body}.
Arguments mkTContainerResponse {Payload}.
Arguments error {Payload}.
Arguments errormsg {Payload}.
Arguments rsp_asyncwait {Payload}.
Arguments payload {Payload}.
Arguments NoSize {Payload}.
Arguments BadFrame {Payload}.
Arguments Frame {Payload}.
Arguments ev_socket {Body Payload}.
Arguments ev_setsockopt {Body Payload}.
Arguments ev_connect {Body Payload}.
Arguments ev_close {Body Payload}.
Arguments ev_send {Body Payload}.
Arguments ev_recv {Body Payload}.
Arguments ev_callback {Body Payload}.
Arguments mkWorld {Body Payload}.
Arguments socket_tape {Body Payload}.
Arguments setsockopt_tape {Body Payload}.
Arguments connect_tape {Body Payload}.
Arguments send_tape {Body Payload}.
Arguments recv_tape {Body Payload}.
Arguments trace {Body Payload}.
Arguments emit {Body Payload}.
Arguments socket {Body Payload}.
Arguments setsockopt {Body Payload}.
Arguments connect {Body Payload}.
Arguments close {Body Payload}.
Arguments write_frame {Body Payload}.
Arguments read_frame {Body Payload}.
Arguments set_Fd {Body Payload}.
Arguments set_Timeout {Body Payload}.
Arguments set_Req {Body Payload}.
Arguments set_Rsp {Body Payload}.
Arguments set_AsyncWait {Body Payload}.
Arguments set_LastError {Body Payload}.
Arguments mkConnectionImpl {Body Payload}.
Arguments Fd {Body Payload}.
Arguments Timeout {Body Payload}.
Arguments Req {Body Payload}.
Arguments Rsp {Body Payload}.
Arguments AsyncWaitContainers {Body Payload}.
Arguments AsyncWaitTimeout {Body Payload}.
Arguments AsyncWaitCallback {Body Payload}.
Arguments LastError {Body Payload}.
Arguments LastErrorMsg {Body Payload}.
Arguments Req_Clear {Body}.
Arguments restore_asyncwait {Body Payload}.
Arguments Close {Body Payload}.
Arguments Error {Body Payload}.
Arguments SetTimeout {Body Payload}.
Arguments Send {Body Payload}.
Arguments Recv_loop {Body Payload}.
Arguments Recv {Body Payload}.
Arguments Connect_body {Body Payload}.
Arguments Rpc_body {Body Payload}.
Arguments Rpc {Body Payload}.
Arguments Connect {Body Payload}.
Arguments Connection_SetTimeout {Body Payload}.
Arguments Connection_Rpc {Body Payload}.
Arguments Connection_AsyncWait {Body Payload}.
Arguments Connection_GetLastError {Body Payload}.

End Porto.

(** *** The client library *)

Section ClientVocabulary.
Context {Body Payload : Type}.

(** What a call does to the number of open sockets of the process. *)
Definition open_delta (e : Porto.Syscall Body Payload) : Z :=
  match e with
  | Porto.ev_socket ret _ => if 0 <=? ret then 1 else 0
  | Porto.ev_close _ => -1
  | _ => 0
  end.

Definition open_sockets (tr : list (Porto.Syscall Body Payload)) : Z :=
  foldr (λ e n, open_delta e + n) 0 tr.

(** The requests written to the socket. *)
Definition sent_frames (tr : list (Porto.Syscall Body Payload))
  : list (Porto.TContainerRequest Body) :=
  omap (λ e, match e with Porto.ev_send _ r _ => Some r | _ => None end) tr.

(** The events given to the callback. *)
Definition callbacks (tr : list (Porto.Syscall Body Payload)) : list Porto.AsyncWaitEvent :=
  omap (λ e, match e with Porto.ev_callback ev => Some ev | _ => None end) tr.

(** The connection holds the one socket the process has open, or none. *)
Definition balanced (s : Porto.Conn Body Payload) : Prop :=
  open_sockets (Porto.trace s.2) = Z.b2z (0 <=? Porto.Fd s.1).

(** The events at the head of the frames to come, and the frames from the
    first one that is not an event. *)
Fixpoint leading_events (frames : list (Porto.RecvResult Payload)) : list Porto.AsyncWaitEvent :=
  match frames with
  | Porto.Frame r :: rest =>
      match Porto.rsp_asyncwait r with
      | Some ev => ev :: leading_events rest
      | None => []
      end
  | _ => []
  end.

Definition after_events (frames : list (Porto.RecvResult Payload))
  : list (Porto.RecvResult Payload) :=
  drop (length (leading_events frames)) frames.

(** The fields of the connection that only [Connection] writes. *)
Definition same_settings (c c' : Porto.ConnectionImpl Body Payload) : Prop :=
  Porto.Timeout c' = Porto.Timeout c
  ∧ Porto.AsyncWaitContainers c' = Porto.AsyncWaitContainers c
  ∧ Porto.AsyncWaitTimeout c' = Porto.AsyncWaitTimeout c
  ∧ Porto.AsyncWaitCallback c' = Porto.AsyncWaitCallback c.

(** What goes over the wire, read off the calls: a [connect] and whether
    it succeeded, a request written and whether the write succeeded, and a
    response read that is no event. *)
Inductive Wire :=
| Connected (ok : bool)
| Sent (req : Porto.TContainerRequest Body) (ok : bool)
| Replied (r : Porto.TContainerResponse Payload).

Definition wire_of (e : Porto.Syscall Body Payload) : option Wire :=
  match e with
  | Porto.ev_connect _ _ ret _ => Some (Connected (0 <=? ret))
  | Porto.ev_send _ req errno => Some (Sent req (errno =? 0))
  | Porto.ev_recv _ (Porto.Frame r) =>
      match Porto.rsp_asyncwait r with
      | None => Some (Replied r)
      | Some _ => None
      end
  | _ => None
  end.

Definition wire (tr : list (Porto.Syscall Body Payload)) : list Wire := omap wire_of tr.

(** A step of the transport: it goes on with the socket as it was, and
    then [Qok] holds, or it ends in [Error], which closes the socket, and
    then [Qerr] holds. *)
Definition transport_step (Success Unknown : Z) (s : Porto.Conn Body Payload) (ret : Z)
    (s' : Porto.Conn Body Payload) (evs : list (Porto.Syscall Body Payload))
    (Qok Qerr : Prop) : Prop :=
  Porto.trace s'.2 = Porto.trace s.2 ++ evs
  ∧ same_settings s.1 s'.1
  ∧ Porto.Req s'.1 = Porto.Req s.1
  ∧ ((ret = Success ∧ Porto.Fd s'.1 = Porto.Fd s.1
      ∧ Porto.LastError s'.1 = Porto.LastError s.1 ∧ open_sockets evs = 0 ∧ Qok)
     ∨ (ret = Unknown ∧ Porto.Fd s'.1 = -1
        ∧ Porto.LastError s'.1 = Unknown
        ∧ open_sockets evs = - Z.b2z (0 <=? Porto.Fd s.1) ∧ Qerr)).

(** How [Rpc] ends: in [Error], with the socket closed, or with the code of
    a response that is no event, on an open socket. *)
Definition rpc_result (Unknown : Z) (ret : Z) (s' : Porto.Conn Body Payload) : Prop :=
  (Porto.Fd s'.1 = -1 ∧ ret = Unknown)
  ∨ (0 ≤ Porto.Fd s'.1 ∧ ret = Porto.error (Porto.Rsp s'.1)
     ∧ Porto.rsp_asyncwait (Porto.Rsp s'.1) = None).

(** One exchange on a connected socket, with the result [ret] and the
    connection [s'] it ends in: the request [q] is written. When the write
    fails, or the write succeeds and no response can be read, the result
    is [Unknown] and the socket is closed. Otherwise one response is read,
    the connection holds it on the socket left open, and the result is its
    error code. *)
Definition exchange (Unknown : Z) (q : Porto.TContainerRequest Body) (ret : Z)
    (s' : Porto.Conn Body Payload) (l : list Wire) : Prop :=
  ((l = [Sent q false] ∨ l = [Sent q true]) ∧ ret = Unknown ∧ Porto.Fd s'.1 = -1)
  ∨ (∃ r, l = [Sent q true; Replied r] ∧ ret = Porto.error r
          ∧ Porto.Rsp s'.1 = r ∧ 0 ≤ Porto.Fd s'.1).

Definition rpc_post (Body_Clear : Body) (Unknown : Z) (s : Porto.Conn Body Payload) (ret : Z)
    (s' : Porto.Conn Body Payload) (evs : list (Porto.Syscall Body Payload)) : Prop :=
  Porto.trace s'.2 = Porto.trace s.2 ++ evs
  ∧ same_settings s.1 s'.1
  ∧ Porto.Req s'.1 = Porto.Req_Clear Body_Clear
  ∧ Porto.LastError s'.1 = ret
  ∧ open_sockets evs = Z.b2z (0 <=? Porto.Fd s'.1) - Z.b2z (0 <=? Porto.Fd s.1)
  ∧ rpc_result Unknown ret s'.

(** How [Connect] ends: connected with nothing sent, in [Error] with no
    connection, or connected with the exchange of the request that restores
    the subscription. *)
Definition connect_post (Body_Clear : Body) (Success Unknown : Z)
    (s : Porto.Conn Body Payload) (ret : Z)
    (s' : Porto.Conn Body Payload) (evs : list (Porto.Syscall Body Payload)) : Prop :=
  Porto.trace s'.2 = Porto.trace s.2 ++ evs
  ∧ same_settings s.1 s'.1
  ∧ open_sockets evs = Z.b2z (0 <=? Porto.Fd s'.1) - Z.b2z (0 <=? Porto.Fd s.1)
  ∧ ((ret = Success ∧ 0 ≤ Porto.Fd s'.1 ∧ Porto.AsyncWaitContainers s.1 = []
      ∧ wire evs = [Connected true] ∧ Porto.Req s'.1 = Porto.Req s.1)
     ∨ (ret = Unknown ∧ Porto.Fd s'.1 = -1 ∧ Porto.LastError s'.1 = Unknown
        ∧ (wire evs = [] ∨ wire evs = [Connected false]))
     ∨ (Porto.AsyncWaitContainers s.1 ≠ []
        ∧ (∃ l, wire evs = Connected true :: l
                ∧ exchange Unknown (Porto.restore_asyncwait s.1) ret s' l)
        ∧ Porto.Req s'.1 = Porto.Req_Clear Body_Clear
        ∧ Porto.LastError s'.1 = ret
        ∧ rpc_result Unknown ret s')).

(** What one [Rpc] puts on the wire, with its result [ret] and the
    connection [s'] it ends in. On a connected socket: one exchange of the
    request. Without a socket: when no connection is made (no socket, a
    timeout that cannot be set, or a [connect] that fails), nothing is sent,
    the result is [Unknown] and no socket is left. When the connection is
    made and there is no subscription to restore: one exchange of the
    request. When there is one: one exchange of the request together with
    the restored subscription; when that exchange ends with an error code,
    or fails, this is the result; when it ends with the code 0, a second
    exchange follows, of the empty request, and gives the result. *)
Definition rpc_wire (Body_Clear : Body) (Unknown : Z) (c : Porto.ConnectionImpl Body Payload)
    (ret : Z) (s' : Porto.Conn Body Payload) (l : list Wire) : Prop :=
  if 0 <=? Porto.Fd c then exchange Unknown (Porto.Req c) ret s' l
  else
    ((l = [] ∨ l = [Connected false]) ∧ ret = Unknown ∧ Porto.Fd s'.1 = -1)
    ∨ ∃ l', l = Connected true :: l'
            ∧ match Porto.AsyncWaitContainers c with
              | [] => exchange Unknown (Porto.Req c) ret s' l'
              | _ :: _ =>
                  (ret ≠ 0 ∧ exchange Unknown (Porto.restore_asyncwait c) ret s' l')
                  ∨ ∃ r1 l'',
                      l' = Sent (Porto.restore_asyncwait c) true :: Replied r1 :: l''
                      ∧ Porto.error r1 = 0
                      ∧ exchange Unknown (Porto.Req_Clear Body_Clear) ret s' l''
              end.

End ClientVocabulary.

Arguments Wire : clear implicits.
Arguments Connected {Body Payload}.
Arguments Sent {Body Payload}.
Arguments Replied {Body Payload}.

(** A result of a call that may run out of depth leaves the connection
    with its one socket. *)
Definition returns_balanced {Body Payload A : Type}
    (r : option (A * Porto.Conn Body Payload)) : Prop :=
  match r with Some (_, s') => balanced s' | None => False end.

(** A client to run: the rest of a request is the list of the names of its
    fields, the payload of a response is a text. *)
Definition strerror_ex (err : Z) : string :=
  if err =? 5 then "Input/output error"
  else if err =? 111 then "Connection refused"
  else "Unknown error".

Definition rsp_ex (e : Z) (text : string) : Porto.TContainerResponse string :=
  Porto.mkTContainerResponse e "" None text.

Definition event_ex : Porto.AsyncWaitEvent :=
  Porto.mkAsyncWaitEvent 1 "a" "dead" "" "".

(** A connection that lost its socket after it had subscribed to the
    events of container "a", with a request to list the containers. *)
Definition conn_ex : Porto.ConnectionImpl (list string) string :=
  Porto.mkConnectionImpl (-1) 0 (Porto.mkTContainerRequest ["list"] None) (rsp_ex 0 "")
    ["a"] 5 true 0 "".

(** A world where the daemon is back and answers two requests. *)
Definition world_ex : Porto.World (list string) string :=
  Porto.mkWorld [(3, 0)] [] [(0, 0)] [0; 0]
    [Porto.Frame (rsp_ex 0 "subscribed"); Porto.Frame (rsp_ex 0 "nothing")] [].

(** A connected client, and a world where an event comes before the
    response. *)
Definition connected_ex : Porto.ConnectionImpl (list string) string :=
  Porto.mkConnectionImpl 3 0 (Porto.mkTContainerRequest [] None) (rsp_ex 0 "")
    [] (-1) true 0 "".

Definition world_event_ex : Porto.World (list string) string :=
  Porto.mkWorld [] [] [] [0]
    [Porto.Frame (Porto.mkTContainerResponse 0 "" (Some event_ex) "");
     Porto.Frame (rsp_ex 0 "a b")]
    [Porto.ev_socket 3 0; Porto.ev_connect 3 Porto.PortoSocket 0 0].

(** *** The getters *)

(** The outcome of the dispatcher that replies to the request [req],
    received in the state [s]: the daemon is left in [w], the response
    carries the kind and the message of [error] and the two value payloads
    [property] and [data], its other fields are as they were, and the log
    has gained the request and this response. *)
Definition getter_reply {ctx} (req : TContainerRequest) (s : RpcState ctx) (w : World ctx)
    (error : TError) (property data : option string) : Outcome (RpcState ctx) bool :=
  let r := mkResponse (Some (GetError error)) (Some (GetMsg error)) (rsp_list (rsp s))
             property data (rsp_propertylist (rsp s)) (rsp_datalist (rsp s))
             (rsp_version (rsp s)) (rsp_volumelist (rsp s)) in
  Returns true (mkRpcState w r (rpclog s ++ [LogRequest req; LogResponse r])).

(* ===================================================================== *)
(** * Part II: the properties                                             *)
(* ===================================================================== *)

(** ** The subsystem registry *)

Lemma Get_eq name s :
  TSubsystem.Get name s =
  match subsystems s !! name with
  | Some p => (p, s)
  | None => (Some (length (heap s)),
             mkSubsysState (<[name := Some (length (heap s))]> (subsystems s))
               (heap s ++ [factory name]))
  end.
Proof.
  unfold TSubsystem.Get, st_bind, TSubsystem.not_found, factory.
  destruct (subsystems s !! name) as [p|] eqn:E.
  - rewrite bool_decide_eq_false_2 by done.
    unfold st_ret, TSubsystem.index. by rewrite E.
  - rewrite bool_decide_eq_true_2 by done.
    destruct (String.eqb name "memory"); [|destruct (String.eqb name "freezer");
      [|destruct (String.eqb name "cpu")]];
      unfold st_bind, TSubsystem.make_shared, TSubsystem.assign,
        st_modify, TSubsystem.index; simpl; by rewrite lookup_insert_eq.
Qed.

Lemma Get_registers name s :
  subsystems (snd (TSubsystem.Get name s)) !! name = Some (fst (TSubsystem.Get name s)).
Proof.
  rewrite Get_eq. destruct (subsystems s !! name) eqn:E; simpl; [done|].
  by rewrite lookup_insert_eq.
Qed.

Lemma Get_keeps name other s p :
  subsystems s !! other = Some p →
  subsystems (snd (TSubsystem.Get name s)) !! other = Some p.
Proof.
  intros H. rewrite Get_eq. destruct (subsystems s !! name) eqn:E; simpl; [done|].
  rewrite lookup_insert_ne; [done|]. intros ->. congruence.
Qed.

Lemma Get_heap_grows name s a o :
  heap s !! a = Some o → heap (snd (TSubsystem.Get name s)) !! a = Some o.
Proof.
  intros H. rewrite Get_eq. destruct (subsystems s !! name); simpl; [done|].
  by apply lookup_app_l_Some.
Qed.

Lemma Get_preserves_ok name s : registry_ok s → registry_ok (snd (TSubsystem.Get name s)).
Proof.
  intros Hok n p. rewrite Get_eq.
  destruct (subsystems s !! name) eqn:E; simpl; [apply Hok|].
  destruct (decide (name = n)) as [->|Hne].
  - rewrite lookup_insert_eq. intros [= <-]. eexists; split; [done|].
    rewrite lookup_app_r by done. by rewrite Nat.sub_diag.
  - rewrite lookup_insert_ne by done. intros H.
    destruct (Hok _ _ H) as (a & -> & Ha). eexists; split; [done|].
    by apply lookup_app_l_Some.
Qed.

Lemma reachable_ok s : reachable s → registry_ok s.
Proof.
  induction 1 as [|name s _ IH].
  - intros n p H. cbn in H. by rewrite lookup_empty in H.
  - by apply Get_preserves_ok.
Qed.

(** One adapter per name: a second call with the same name returns the same
    pointer and changes nothing. *)
Lemma Get_singleton name s :
  TSubsystem.Get name (snd (TSubsystem.Get name s))
  = (fst (TSubsystem.Get name s), snd (TSubsystem.Get name s)).
Proof.
  rewrite (Get_eq name (snd _)). by rewrite Get_registers.
Qed.

(** Calls with other names in between do not change the adapter of a name. *)
Lemma Get_singleton_across name other s :
  fst (TSubsystem.Get name (snd (TSubsystem.Get other (snd (TSubsystem.Get name s)))))
  = fst (TSubsystem.Get name s).
Proof.
  rewrite (Get_eq name (snd (TSubsystem.Get other _))).
  by rewrite (Get_keeps other name _ _ (Get_registers name s)).
Qed.

(** What [Get] returns designates the object of the factory. *)
Lemma Get_factory name s :
  reachable s →
  TSubsystem.deref (snd (TSubsystem.Get name s)) (fst (TSubsystem.Get name s))
  = Some (factory name).
Proof.
  intros Hr.
  destruct (reachable_ok _ (reach_Get name s Hr) name _ (Get_registers name s))
    as (a & Hp & Ha).
  rewrite Hp. exact Ha.
Qed.

(** The names "memory", "freezer" and "cpu" get their specialised adapter. *)
Lemma Get_specialised s :
  reachable s →
  TSubsystem.deref (snd (TSubsystem.Memory s)) (fst (TSubsystem.Memory s)) = Some TMemorySubsystem_
  ∧ TSubsystem.deref (snd (TSubsystem.Freezer s)) (fst (TSubsystem.Freezer s)) = Some TFreezerSubsystem_
  ∧ TSubsystem.deref (snd (TSubsystem.Cpu s)) (fst (TSubsystem.Cpu s)) = Some TCpuSubsystem_.
Proof.
  intros Hr. unfold TSubsystem.Memory, TSubsystem.Freezer, TSubsystem.Cpu.
  by rewrite !Get_factory.
Qed.

(** Every name but those three gets the generic adapter. *)
Lemma Get_generic name s :
  reachable s → name ≠ "memory" → name ≠ "freezer" → name ≠ "cpu" →
  TSubsystem.deref (snd (TSubsystem.Get name s)) (fst (TSubsystem.Get name s))
  = Some (TSubsystem_ name).
Proof.
  intros Hr H1 H2 H3. rewrite Get_factory by done. unfold factory.
  by rewrite !(proj2 (String.eqb_neq _ _)).
Qed.

(** C3. [TSubsystem::Get] has no case for "cpuacct": in every state of the
    registry, the pointer [TSubsystem::Cpuacct] casts to [TCpuacctSubsystem]
    designates a generic [TSubsystem] built with the name "cpuacct", not the
    specialised adapter. *)
Theorem Cpuacct_is_generic s :
  reachable s →
  TSubsystem.deref (snd (TSubsystem.Cpuacct s)) (fst (TSubsystem.Cpuacct s))
  = Some (TSubsystem_ "cpuacct")
  ∧ TSubsystem.deref (snd (TSubsystem.Cpuacct s)) (fst (TSubsystem.Cpuacct s))
  ≠ Some TCpuacctSubsystem_.
Proof.
  intros Hr. unfold TSubsystem.Cpuacct.
  rewrite Get_generic by done. done.
Qed.

Lemma Cpuacct_is_generic_witness :
  reachable (snd (TSubsystem.Get "memory" subsys_init))
  ∧ TSubsystem.deref (snd (TSubsystem.Cpuacct (snd (TSubsystem.Get "memory" subsys_init))))
      (fst (TSubsystem.Cpuacct (snd (TSubsystem.Get "memory" subsys_init))))
    = Some (TSubsystem_ "cpuacct").
Proof.
  split.
  - apply reach_Get, reach_init.
  - apply (Cpuacct_is_generic (snd (TSubsystem.Get "memory" subsys_init))).
    apply reach_Get, reach_init.
Defined.

(** ** The freezer *)

Section FreezerFacts.
Variable cg : TCgroup.

Lemma first_match_Some state from n k :
  first_match cg state from n = Some k →
  (k < n)%nat ∧ observed cg (from + k) = state
  ∧ ∀ i, (i < k)%nat → observed cg (from + i) ≠ state.
Proof.
  revert from k. induction n as [|n IH]; intros from k; simpl; [done|].
  case_bool_decide as Hm.
  - intros [= <-]. rewrite Nat.add_0_r. repeat split; [lia|done|lia].
  - destruct (first_match cg state (S from) n) as [k'|] eqn:E; simpl; [|done].
    intros [= <-]. destruct (IH _ _ E) as (Hlt & Hk & Hbefore).
    repeat split; [lia| by rewrite Nat.add_succ_r |].
    intros [|i] Hi; [by rewrite Nat.add_0_r|].
    rewrite Nat.add_succ_r. apply (Hbefore i). lia.
Qed.

Lemma first_match_None state from n :
  first_match cg state from n = None →
  ∀ i, (i < n)%nat → observed cg (from + i) ≠ state.
Proof.
  revert from. induction n as [|n IH]; intros from; simpl; [lia|].
  case_bool_decide as Hm; [done|].
  destruct (first_match cg state (S from) n) eqn:E; simpl; [done|]. intros _.
  intros [|i] Hi; [by rewrite Nat.add_0_r|].
  rewrite Nat.add_succ_r. apply (IH _ E i). lia.
Qed.

Lemma handler_spec state s :
  TFreezerSubsystem.WaitState_handler cg state s
  = (if bool_decide (observed cg (reads s) = state) then 0 else 1,
     mkCgState (S (reads s)) (writes s) (slept_ms s)
       (errlog s ++
        if TError.to_bool (fst (read_result cg (reads s) "freezer.state"))
        then [LogError (fst (read_result cg (reads s) "freezer.state")) "Can't freeze cgroup"]
        else [])).
Proof.
  unfold TFreezerSubsystem.WaitState_handler, st_bind, TCgroup_.GetKnobValue, observed.
  destruct (read_result cg (reads s) "freezer.state") as [error str]; simpl.
  destruct (TError.to_bool error); simpl; unfold st_ret.
  - f_equal. repeat case_bool_decide; done.
  - rewrite app_nil_r. f_equal. repeat case_bool_decide; done.
Qed.

Lemma RetryFailed_loop_step n timeoMs handler ret0 s :
  RetryFailed_loop (S n) timeoMs handler ret0 s
  = (if (handler s).1 =? 0 then handler s
     else RetryFailed_loop n timeoMs handler (handler s).1
            (mkCgState (reads (handler s).2) (writes (handler s).2)
               (slept_ms (handler s).2 + timeoMs) (errlog (handler s).2))).
Proof.
  simpl. unfold st_bind. destruct (handler s) as [ret s1]; simpl.
  by destruct (ret =? 0).
Qed.

Lemma RetryFailed_loop_spec state n : ∀ s ret0,
  let r := RetryFailed_loop n 100 (TFreezerSubsystem.WaitState_handler cg state) ret0 s in
  writes (snd r) = writes s ∧
  match first_match cg state (reads s) n with
  | Some k =>
      fst r = 0 ∧ reads (snd r) = (reads s + S k)%nat
      ∧ slept_ms (snd r) = slept_ms s + 100 * Z.of_nat k
  | None =>
      fst r = (if n is O then ret0 else 1) ∧ reads (snd r) = (reads s + n)%nat
      ∧ slept_ms (snd r) = slept_ms s + 100 * Z.of_nat n
  end.
Proof.
  induction n as [|n IH]; intros s ret0; cbv zeta.
  - simpl. unfold st_ret; simpl. repeat split; lia.
  - rewrite RetryFailed_loop_step, handler_spec. cbn [first_match fst snd].
    case_bool_decide as Hm; cbn [Z.eqb fst snd reads writes slept_ms errlog].
    + repeat split; lia.
    + match goal with |- context [RetryFailed_loop n 100 _ 1 ?s1] => specialize (IH s1 1) end.
      cbv zeta in IH. cbn [reads writes slept_ms] in IH.
      destruct IH as [Hw IH]. split; [exact Hw|].
      destruct (first_match cg state (S (reads s)) n) as [k|]; cbn [fmap option_fmap option_map].
      * destruct IH as (-> & -> & ->). repeat split; lia.
      * destruct IH as (Hr & -> & ->). repeat split; [|lia|lia].
        rewrite Hr. by destruct n.
Qed.

End FreezerFacts.

Lemma WaitState_spec T cg state s :
  0 < T →
  let r := TFreezerSubsystem.WaitState T cg state s in
  writes (snd r) = writes s ∧
  match first_match cg state (reads s) (Z.to_nat (T * 10)) with
  | Some k =>
      fst r = TError.Success ∧ reads (snd r) = (reads s + S k)%nat
      ∧ slept_ms (snd r) = slept_ms s + 100 * Z.of_nat k
  | None =>
      fst r = mkTError EError.Unknown ("Can't wait for freezer state " +:+ state)
      ∧ reads (snd r) = (reads s + Z.to_nat (T * 10))%nat
      ∧ slept_ms (snd r) = slept_ms s + 100 * Z.of_nat (Z.to_nat (T * 10))
  end.
Proof.
  intros HT. cbv zeta. unfold TFreezerSubsystem.WaitState, RetryFailed, st_bind.
  pose proof (RetryFailed_loop_spec cg state (Z.to_nat (T * 10)) s 0) as H.
  cbv zeta in H.
  destruct (RetryFailed_loop _ _ _ _ s) as [ret s1]. simpl in H.
  destruct H as [Hw H]. 
  destruct (first_match cg state (reads s) (Z.to_nat (T * 10))) as [k|].
  - destruct H as (-> & Hr & Hs). simpl. unfold st_ret. simpl. done.
  - destruct H as (Hret & Hr & Hs).
    destruct (Z.to_nat (T * 10)) eqn:E; [lia|]. subst ret. simpl. done.
Qed.

(** C2, as the code has it. Pause and resume of the freezer first write
    FROZEN (resp. THAWED) to [freezer.state]. A failed write is returned as
    it is, with no read of the knob. Otherwise the knob is read up to
    [FREEZER_WAIT_TIMEOUT_S * 10] times, with a sleep of 100 ms after each
    read that does not observe the written word followed by a line feed; the
    first read that observes it ends the wait with success; when none does,
    the operation fails with error kind [Unknown] and the message
    "Can't wait for freezer state " followed by the awaited content. *)
Theorem freezer_transition_spec T cg freeze s :
  0 < T →
  let r := freezer_op T freeze cg s in
  let times := Z.to_nat (T * 10) in
  writes (snd r) = writes s ++ [("freezer.state", freezer_word freeze)] ∧
  if TError.to_bool (write_result cg "freezer.state" (freezer_word freeze)) then
    fst r = write_result cg "freezer.state" (freezer_word freeze)
    ∧ reads (snd r) = reads s ∧ slept_ms (snd r) = slept_ms s
  else
    match first_match cg (freezer_word freeze +:+ LF) (reads s) times with
    | Some k =>
        fst r = TError.Success ∧ reads (snd r) = (reads s + S k)%nat
        ∧ slept_ms (snd r) = slept_ms s + 100 * Z.of_nat k
    | None =>
        fst r = mkTError EError.Unknown
                  ("Can't wait for freezer state " +:+ freezer_word freeze +:+ LF)
        ∧ reads (snd r) = (reads s + times)%nat
        ∧ slept_ms (snd r) = slept_ms s + 100 * Z.of_nat times
    end.
Proof.
  intros HT. cbv zeta.
  assert (∀ word,
    let r := (let* error := TCgroup_.SetKnobValue cg "freezer.state" word in
              if TError.to_bool error then st_ret error
              else TFreezerSubsystem.WaitState T cg (word +:+ LF))%st s in
    writes (snd r) = writes s ++ [("freezer.state", word)] ∧
    if TError.to_bool (write_result cg "freezer.state" word) then
      fst r = write_result cg "freezer.state" word
      ∧ reads (snd r) = reads s ∧ slept_ms (snd r) = slept_ms s
    else
      match first_match cg (word +:+ LF) (reads s) (Z.to_nat (T * 10)) with
      | Some k =>
          fst r = TError.Success ∧ reads (snd r) = (reads s + S k)%nat
          ∧ slept_ms (snd r) = slept_ms s + 100 * Z.of_nat k
      | None =>
          fst r = mkTError EError.Unknown ("Can't wait for freezer state " +:+ word +:+ LF)
          ∧ reads (snd r) = (reads s + Z.to_nat (T * 10))%nat
          ∧ slept_ms (snd r) = slept_ms s + 100 * Z.of_nat (Z.to_nat (T * 10))
      end) as Hboth.
  { intros word. cbv zeta. unfold st_bind, TCgroup_.SetKnobValue.
    destruct (TError.to_bool (write_result cg "freezer.state" word)) eqn:Ew.
    - unfold st_ret. simpl. done.
    - match goal with |- context [TFreezerSubsystem.WaitState T cg ?st ?s1] =>
        pose proof (WaitState_spec T cg st s1 HT) as H end.
      cbv zeta in H. simpl in H. exact H. }
  destruct freeze; apply Hboth.
Qed.

Lemma freezer_transition_spec_witness :
  0 < 60 ∧
  fst (TFreezerSubsystem.Freeze 60 slow_cgroup cg_init) = TError.Success
  ∧ reads (snd (TFreezerSubsystem.Freeze 60 slow_cgroup cg_init)) = 3%nat
  ∧ slept_ms (snd (TFreezerSubsystem.Freeze 60 slow_cgroup cg_init)) = 200.
Proof.
  split; [lia|].
  assert (H60 : 0 < 60) by lia.
  pose proof (freezer_transition_spec 60 slow_cgroup true cg_init H60) as H.
  cbv zeta in H. destruct H as [_ H]. exact H.
Defined.

(** C2 as stated fails: on a knob that never reports FROZEN the wait ends
    with error kind [Unknown], not [FreezerTimeout]. *)
Lemma freeze_timeout_is_Unknown :
  (∀ n, observed stuck_cgroup n ≠ "FROZEN" +:+ LF)
  ∧ GetError (fst (TFreezerSubsystem.Freeze 60 stuck_cgroup cg_init)) = EError.Unknown
  ∧ GetError (fst (TFreezerSubsystem.Freeze 60 stuck_cgroup cg_init)) ≠ EError.FreezerTimeout.
Proof.
  split; [intros n; vm_compute; discriminate|].
  split; [vm_compute; reflexivity | vm_compute; discriminate].
Qed.

(** ** The traffic-control adapter *)

(** A computation that ends at once issues no call and leaves the kernel as
    it is. *)
Lemma nl_run_Ret {K A} (h : NlKernel K) (a : A) (k : K) : nl_run h (Ret a) k = (a, k, []).
Proof. reflexivity. Qed.

(** C4, as the code has it. With networking disabled, qdisc create and
    remove, tclass create and remove and filter create and remove return
    success, issue no netlink call and leave the kernel untouched; tclass
    stat issues no call either, but returns an error of kind [Unknown] with
    the message "Network support is disabled", the map as it was. *)
Theorem tc_disabled_operations
    {K} (h : NlKernel K) (k : K) (root : Z) (q : TQdisc) (t : TTclass) (f : TFilter)
    (prio rate ceil : Z) (stat : ETclassStat) (m : gmap string Z) :
  nl_run h (TQdisc_Create false root q) k = (TError.Success, k, [])
  ∧ nl_run h (TQdisc_Remove false root q) k = (TError.Success, k, [])
  ∧ nl_run h (TTclass_Create false t prio rate ceil) k = (TError.Success, k, [])
  ∧ nl_run h (TTclass_Remove false t) k = (TError.Success, k, [])
  ∧ nl_run h (TFilter_Create false f) k = (TError.Success, k, [])
  ∧ nl_run h (TFilter_Remove false f) k = (TError.Success, k, [])
  ∧ nl_run h (TTclass_GetStat false t stat m) k
    = ((mkTError EError.Unknown "Network support is disabled", m), k, []).
Proof. repeat split. Qed.

(** C4 as stated fails on stat: with networking disabled it does not
    return success. *)
Lemma tclass_stat_disabled_fails :
  TTclass_GetStat false tclass_ex 0%N ∅
  = Ret (mkTError EError.Unknown "Network support is disabled", ∅)
  ∧ TError.to_bool (fst (fst (fst (nl_run ref_kernel
      (TTclass_GetStat false tclass_ex 0%N ∅) kernel_ex)))) = true.
Proof. split; reflexivity. Qed.

(** C5. With networking enabled, [TTclass::Remove] leaves the function at
    the first link on which the class does not exist: it returns success
    after that one [Exists] call, and no later link is examined. *)
Theorem tclass_Remove_stops_at_missing_link
    {K} (h : NlKernel K) (k : K) (t : TTclass) (link : TNlLink) (later : list TNlLink) :
  TTclass_GetLink t = link :: later →
  fst (h _ (NlClass_Exists link (TTclass_GetParent true t) (TTclass_Handle t)) k) = false →
  nl_run h (TTclass_Remove true t) k
  = (TError.Success,
     snd (h _ (NlClass_Exists link (TTclass_GetParent true t) (TTclass_Handle t)) k),
     [Issued (NlClass_Exists link (TTclass_GetParent true t) (TTclass_Handle t))]).
Proof.
  intros Hlinks Hmissing. unfold TTclass_Remove. rewrite Hlinks. simpl.
  destruct (h _ _ k) as [b k1]. simpl in Hmissing. subst b. reflexivity.
Qed.

Lemma tclass_Remove_stops_at_missing_link_witness :
  TTclass_GetLink tclass_ex = eth0 :: [eth1]
  ∧ nl_run ref_kernel (TTclass_Remove true tclass_ex) kernel_ex
    = (TError.Success, kernel_ex, [Issued (NlClass_Exists eth0 65536 65539)]).
Proof.
  split; [reflexivity|].
  apply (tclass_Remove_stops_at_missing_link ref_kernel kernel_ex tclass_ex eth0 [eth1]);
    reflexivity.
Defined.

(** On the reference kernel, where the removal of an installed class
    succeeds, [Remove] returns success in every kernel state: a second call
    after a first one succeeds as well. *)
Lemma tclass_Remove_succeeds_on_ref_kernel t links : ∀ k,
  fst (fst (nl_run ref_kernel (TTclass_Remove_loop true t links) k)) = TError.Success.
Proof.
  induction links as [|link links IH]; intros k; [reflexivity|].
  cbn [TTclass_Remove_loop]. unfold TTclass_Exists, nl_call. cbn [nl_bind nl_run ref_kernel].
  case_bool_decide as Hin; cbn [negb nl_bind nl_run ref_kernel]; [|reflexivity].
  case_bool_decide; [|done].
  change (TError.to_bool TError.Success) with false. cbv iota.
  specialize (IH (mkTcKernel
    (k_classes k ∖ {[ (GetName link, TTclass_GetParent true t, TTclass_Handle t) ]})
    (k_qdiscs k) (k_filters k))).
  destruct (nl_run ref_kernel (TTclass_Remove_loop true t links) _) as [[e k2] evs].
  exact IH.
Qed.

Lemma tclass_Remove_twice_on_ref_kernel t k :
  fst (fst (nl_run ref_kernel (TTclass_Remove true t) k)) = TError.Success
  ∧ fst (fst (nl_run ref_kernel (TTclass_Remove true t)
                (snd (fst (nl_run ref_kernel (TTclass_Remove true t) k)))))
    = TError.Success.
Proof. split; apply tclass_Remove_succeeds_on_ref_kernel. Qed.

(** The class installed on the second link survives the removal. *)
Lemma tclass_Remove_leaves_class :
  ("eth1", 65536, 65539) ∈ k_classes kernel_ex
  ∧ ("eth1", 65536, 65539)
    ∈ k_classes (snd (fst (nl_run ref_kernel (TTclass_Remove true tclass_ex) kernel_ex))).
Proof. split; vm_compute; set_solver. Qed.

(** ** The typed accessors *)

(** Induction on a container along its parents. *)
Lemma TContainer_parent_ind (P : TContainer → Prop) :
  (∀ name vs, P (mkTContainer name None vs)) →
  (∀ name parent vs, P parent → P (mkTContainer name (Some parent) vs)) →
  ∀ c, P c.
Proof.
  intros Hroot Hchild. fix IH 1.
  intros [name [parent|] vs]; [apply Hchild, IH | apply Hroot].
Qed.

Section AccessorFacts.
Variable propertySet : TValueSet.
Variable StringToBool : string → TError + bool.
Variable StringToInt : string → TError + Z.
Variable StringToUint64 : string → TError + Z.

Local Abbreviation IsDefault := TPropertyHolder.VariantSet_IsDefault.
Local Abbreviation HasFlags := (TPropertyHolder.HasFlags propertySet).
Local Abbreviation GetRaw := (TPropertyHolder.VariantSet_GetRaw propertySet).

Lemma SYNTHESIZE_ACCESSOR_law {TYPE} (zero : TYPE) (parse : string → TError + TYPE) :
  get_typed_law propertySet zero parse
    (TPropertyHolder.SYNTHESIZE_ACCESSOR propertySet zero
       (TPropertyHolder.VariantSet_Get propertySet parse)).
Proof.
  assert (Hown : ∀ vs property,
    match TPropertyHolder.VariantSet_Get propertySet parse vs property with
    | inl error => Some (zero, [LogError error ("Can't get property " +:+ property)])
    | inr value => Some (value, [])
    end = Some (typed_answer zero parse property (GetRaw vs property))).
  { intros vs property. unfold TPropertyHolder.VariantSet_Get, typed_answer.
    destruct (GetRaw vs property) as [error|s]; [done|]. by destruct (parse s). }
  intros [name [parent|] vs] property; simpl; unfold TPropertyHolder.ParentDefault; simpl.
  - rewrite andb_true_r.
    destruct (IsDefault vs property && HasFlags property PARENT_DEF_PROPERTY); [done|].
    apply Hown.
  - rewrite !andb_false_r.
    destruct (IsDefault vs property && HasFlags property PARENT_DEF_PROPERTY); apply Hown.
Qed.

(** The delegation ends at the nearest container with an explicit value,
    or at the root: the accessor always answers, with the value of the
    retrieval rule. *)
Lemma SYNTHESIZE_ACCESSOR_nearest {TYPE} (zero : TYPE) (parse : string → TError + TYPE) :
  reads_nearest propertySet zero parse
    (TPropertyHolder.SYNTHESIZE_ACCESSOR propertySet zero
       (TPropertyHolder.VariantSet_Get propertySet parse)).
Proof.
  intros c property.
  assert (Hraw : ∀ c, negb (IsDefault (VariantSet c) property
                             && HasFlags property PARENT_DEF_PROPERTY) = true
                      ∨ GetParent c = None →
                      GetRaw (VariantSet c) property = retrieve propertySet c property).
  { intros [name parent vs]. unfold GetRaw, retrieve, HasFlags, IsDefault, ancestors. simpl.
    destruct (TValueSet_.Get propertySet property) as [d|]; [|done].
    destruct (vs !! property) as [s|] eqn:E; simpl; [done|].
    destruct (Z.land (Flags d) PARENT_DEF_PROPERTY =? 0); simpl; [done|].
    intros [?| ->]; done. }
  induction c as [name vs|name parent vs IH] using TContainer_parent_ind.
  - pose proof (SYNTHESIZE_ACCESSOR_law zero parse (mkTContainer name None vs) property) as H.
    cbn [GetParent VariantSet] in H.
    rewrite <- (Hraw (mkTContainer name None vs)) by (by right). cbn [VariantSet].
    by destruct (IsDefault vs property && HasFlags property PARENT_DEF_PROPERTY).
  - pose proof (SYNTHESIZE_ACCESSOR_law zero parse (mkTContainer name (Some parent) vs)
                  property) as H.
    cbn [GetParent VariantSet] in H.
    destruct (IsDefault vs property && HasFlags property PARENT_DEF_PROPERTY) eqn:E.
    + rewrite H, IH. do 2 f_equal.
      apply andb_true_iff in E as [Hd Hf]. unfold IsDefault in Hd.
      apply bool_decide_eq_true_1 in Hd. unfold HasFlags in Hf.
      destruct parent as [pname pparent pvs].
      unfold retrieve, ancestors. simpl.
      destruct (TValueSet_.Get propertySet property) as [d|]; [|done].
      rewrite Hd, Hf. destruct (pvs !! property) as [s|]; reflexivity.
    + rewrite H, <- (Hraw (mkTContainer name (Some parent) vs)); [done|].
      left. cbn [VariantSet]. by rewrite E.
Qed.

(** C6. Each typed accessor always answers. It reads a default slot of a
    parent-default descriptor from the parent container, and so on up the
    lineage: the answer is that of the nearest ancestor with an explicit
    value, and when there is none that of the descriptor's static default.
    Otherwise it answers the stored string or the static default. What it
    answers is the parsed form, and when the lookup or the parsing fails it
    logs the error and answers the zero value of the type. *)
Theorem typed_accessors_law :
  (get_typed_law propertySet "" (λ s, inr s) (TPropertyHolder.GetString propertySet)
   ∧ reads_nearest propertySet "" (λ s, inr s) (TPropertyHolder.GetString propertySet))
  ∧ (get_typed_law propertySet false StringToBool
       (TPropertyHolder.GetBool propertySet StringToBool)
     ∧ reads_nearest propertySet false StringToBool
         (TPropertyHolder.GetBool propertySet StringToBool))
  ∧ (get_typed_law propertySet 0 StringToInt
       (TPropertyHolder.GetInt propertySet StringToInt)
     ∧ reads_nearest propertySet 0 StringToInt
         (TPropertyHolder.GetInt propertySet StringToInt))
  ∧ (get_typed_law propertySet 0 StringToUint64
       (TPropertyHolder.GetUint propertySet StringToUint64)
     ∧ reads_nearest propertySet 0 StringToUint64
         (TPropertyHolder.GetUint propertySet StringToUint64)).
Proof.
  repeat split; first [apply SYNTHESIZE_ACCESSOR_law | apply SYNTHESIZE_ACCESSOR_nearest].
Qed.

End AccessorFacts.

(** On the example tree: the child inherits the limit of its parent, and the
    malformed boolean of the parent is answered with false and one line in
    the log. *)
Example GetUint_inherits :
  TPropertyHolder.GetUint props_ex StringToInt_ex pc_ex "memory_limit" = Some (1024, []).
Proof. vm_compute. reflexivity. Qed.

(** A fresh child of the root has no ancestor with an explicit limit: the
    accessor answers the static default, as [GetRaw] does. *)
Example GetString_static_default :
  TPropertyHolder.GetString props_ex (mkTContainer "q" (Some root_ex) ∅) "memory_limit"
  = Some ("0", [])
  ∧ TPropertyHolder.GetString props_ex root_ex "memory_limit" = Some ("0", [])
  ∧ TPropertyHolder.GetString props_ex pc_ex "nope"
    = Some ("", [LogError (mkTError EError.NotFound "nope") "Can't get property nope"]).
Proof. vm_compute. done. Qed.

Example GetBool_swallows_parse_error :
  TPropertyHolder.GetBool props_ex StringToBool_ex p_ex "isolate"
  = Some (false, [LogError (mkTError EError.InvalidValue "Bad bool value maybe")
                    "Can't get property isolate"]).
Proof. vm_compute. reflexivity. Qed.

(** ** The dispatcher: which handler runs *)

Lemma HandleRpcRequest_try_dispatch ctx req cred :
  HandleRpcRequest_try ctx req cred
  = match set_variants req with
    | [] => m_ret (mkTError EError.InvalidMethod "invalid RPC method", true)
    | m :: _ => handler_of ctx m req cred
    end.
Proof.
  unfold HandleRpcRequest_try, set_variants, chain. cbn [List.filter is_set].
  repeat (match goal with |- context [has ?f] => destruct (has f) end; [reflexivity|]).
  reflexivity.
Qed.

(** The dispatcher is what it does around the [try] block, applied to the
    handler of the first variant set. *)
Lemma HandleRpcRequest_first_set ctx req cred :
  HandleRpcRequest ctx req cred
  = around_try ctx req
      match set_variants req with
      | [] => m_ret (mkTError EError.InvalidMethod "invalid RPC method", true)
      | m :: _ => handler_of ctx m req cred
      end.
Proof.
  unfold HandleRpcRequest, around_try. by rewrite HandleRpcRequest_try_dispatch.
Qed.

(** With no variant set the reply is [InvalidMethod], and the daemon is
    untouched. *)
Lemma HandleRpcRequest_no_variant ctx req cred s :
  set_variants req = [] →
  HandleRpcRequest ctx req cred s
  = Returns true
      (mkRpcState (world s)
         (final_response (mkTError EError.InvalidMethod "invalid RPC method")
            (set_error EError.Unknown (rsp s)))
         (rpclog s ++ [LogRequest req] ++
          [LogResponse (final_response (mkTError EError.InvalidMethod "invalid RPC method")
                          (set_error EError.Unknown (rsp s)))])).
Proof.
  intros H. rewrite HandleRpcRequest_first_set, H. unfold around_try, final_response.
  cbv [m_bind TLogger_LogRequest TLogger_LogResponse on_rsp m_modify try_catch m_ret
       world rsp rpclog GetError GetMsg].
  by rewrite <- app_assoc.
Qed.

(** With exactly one variant set, its handler runs. *)
Lemma HandleRpcRequest_one_variant ctx req cred m :
  set_variants req = [m] →
  HandleRpcRequest ctx req cred = around_try ctx req (handler_of ctx m req cred).
Proof. intros H. by rewrite HandleRpcRequest_first_set, H. Qed.

(** C1, as the code has it. The dispatcher runs exactly one handler whenever
    at least one variant is set: that of the first variant set, in the order
    create, destroy, list, getproperty, setproperty, getdata, start, stop,
    pause, resume, propertylist, datalist, kill, version, createvolume,
    destroyvolume, listvolumes, whatever other variants are set as well.
    When no variant is set it runs no handler: it leaves the daemon as it is
    and answers [InvalidMethod] with the message "invalid RPC method". *)
Theorem HandleRpcRequest_dispatch ctx req cred :
  match set_variants req with
  | [] =>
      ∀ s, HandleRpcRequest ctx req cred s
           = Returns true
               (mkRpcState (world s)
                  (final_response (mkTError EError.InvalidMethod "invalid RPC method")
                     (set_error EError.Unknown (rsp s)))
                  (rpclog s ++ [LogRequest req] ++
                   [LogResponse
                      (final_response (mkTError EError.InvalidMethod "invalid RPC method")
                         (set_error EError.Unknown (rsp s)))]))
  | m :: _ =>
      HandleRpcRequest ctx req cred = around_try ctx req (handler_of ctx m req cred)
  end.
Proof.
  destruct (set_variants req) as [|m rest] eqn:E.
  - intros s. by apply HandleRpcRequest_no_variant.
  - by rewrite HandleRpcRequest_first_set, E.
Qed.

(** C1 as stated fails with two variants set: the request that sets create
    and destroy is dispatched to the create handler and answered with its
    result, not with [InvalidMethod]. *)
Lemma two_variants_not_InvalidMethod :
  set_variants req_create_and_destroy = [m_create; m_destroy]
  ∧ ∃ s', HandleRpcRequest toy req_create_and_destroy root_cred toy_init = Returns true s'
          ∧ world s' = ["a"; "b"]
          ∧ rsp_error (rsp s') = Some EError.Success
          ∧ rsp_error (rsp s') ≠ Some EError.InvalidMethod.
Proof.
  split; [reflexivity|]. eexists. split; [vm_compute; reflexivity|].
  repeat split. discriminate.
Qed.

(** On the small daemon: no variant, one variant. *)
Example no_variant_on_toy :
  rsp (toy_reply req_none)
  = mkResponse (Some EError.InvalidMethod) (Some "invalid RPC method")
      None None None None None None None
  ∧ world (toy_reply req_none) = ["a"].
Proof. split; reflexivity. Qed.

Example create_on_toy :
  set_variants req_create_b = [m_create]
  ∧ rsp_error (rsp (toy_reply req_create_b)) = Some EError.Success
  ∧ world (toy_reply req_create_b) = ["a"; "b"].
Proof. repeat split. Qed.

(** ** The dispatcher: faults *)

(** Unfolding what the dispatcher does around the [try] block. *)
Ltac unfold_around :=
  unfold around_try, m_bind, try_catch, TLogger_LogRequest, on_rsp, m_modify; simpl.

Lemma around_try_Throws ctx req (body : Rpc ctx (TError * bool)) s e s1 :
  body (at_try req s) = Throws e s1 →
  around_try ctx req body s
  = Returns true (mkRpcState (world s1) (fault_response e)
                    (rpclog s1 ++ [LogResponse (fault_response e)])).
Proof.
  intros H. unfold at_try in H. unfold_around. rewrite H. reflexivity.
Qed.

Lemma around_try_never_Throws ctx req (body : Rpc ctx (TError * bool)) s e s' :
  around_try ctx req body s ≠ Throws e s'.
Proof.
  unfold_around. destruct (body _) as [[error [|]] s1|e1 s1|]; simpl; discriminate.
Qed.

(** C7. Whatever a handler throws, the dispatcher returns, and no exception
    leaves it. The reply is sent, and the response returned and logged is
    the cleared one, with no payload, the error kind [Unknown] and the
    message of the fault: "memory allocation failure" for [std::bad_alloc],
    the string for a thrown string, [what()] for another [std::exception],
    and "unknown error" for anything else. *)
Theorem HandleRpcRequest_fault ctx req cred s :
  (∀ e s', HandleRpcRequest ctx req cred s ≠ Throws e s')
  ∧ (∀ e s1,
       HandleRpcRequest_try ctx req cred (at_try req s) = Throws e s1 →
       let message :=
         match e with
         | bad_alloc => "memory allocation failure"
         | thrown_string exc => exc
         | std_exception what => what
         | other_exception => "unknown error"
         end in
       let reply :=
         mkResponse (Some EError.Unknown) (Some message) None None None None None None None in
       HandleRpcRequest ctx req cred s
       = Returns true (mkRpcState (world s1) reply (rpclog s1 ++ [LogResponse reply]))).
Proof.
  split.
  - intros e s'. rewrite HandleRpcRequest_first_set. apply around_try_never_Throws.
  - intros e s1 H. cbv zeta.
    rewrite HandleRpcRequest_first_set.
    rewrite (around_try_Throws ctx req _ s e s1)
      by (by rewrite <- HandleRpcRequest_try_dispatch).
    by destruct e.
Qed.

Lemma HandleRpcRequest_fault_witness :
  HandleRpcRequest_try toy (req_kill "a" (-1)) root_cred (at_try (req_kill "a" (-1)) toy_init)
  = Throws (thrown_string "bad signal") (at_try (req_kill "a" (-1)) toy_init)
  ∧ HandleRpcRequest toy (req_kill "a" (-1)) root_cred toy_init
    = Returns true
        (mkRpcState (["a"] : World toy)
           (mkResponse (Some EError.Unknown) (Some "bad signal")
              None None None None None None None)
           [LogRequest (req_kill "a" (-1));
            LogResponse (mkResponse (Some EError.Unknown) (Some "bad signal")
                           None None None None None None None)]).
Proof.
  split; [reflexivity|].
  apply (proj2 (HandleRpcRequest_fault toy (req_kill "a" (-1)) root_cred toy_init)
           (thrown_string "bad signal") (at_try (req_kill "a" (-1)) toy_init)).
  reflexivity.
Defined.

(** ** The dispatcher: destroyvolume on an absent volume *)

(** The branch of the absent volume dereferences the null pointer. *)
Lemma DestroyVolume_null_deref ctx req cred s w :
  Vholder_Get ctx (req_name req) (world s) = Returns None w →
  DestroyVolume ctx req cred s = Undefined.
Proof. intros H. unfold DestroyVolume, m_bind, call. by rewrite H. Qed.

(** C9. When the volume holder has no volume of the requested name, the
    branch of [DestroyVolume] that builds the [VolumeDoesNotExist] error
    takes the name from the null volume pointer: the handler has no defined
    result, and in particular does not return that error. *)
Theorem DestroyVolume_absent ctx req cred s w :
  Vholder_Get ctx (req_name req) (world s) = Returns None w →
  DestroyVolume ctx req cred s = Undefined
  ∧ (∀ error s', GetError error = EError.VolumeDoesNotExist →
       DestroyVolume ctx req cred s ≠ Returns error s')
  ∧ (∀ e s', DestroyVolume ctx req cred s ≠ Throws e s').
Proof.
  intros H. rewrite (DestroyVolume_null_deref ctx req cred s w H).
  repeat split; intros; discriminate.
Qed.

Lemma DestroyVolume_absent_witness :
  Vholder_Get toy "v" (world toy_init) = Returns None (world toy_init)
  ∧ DestroyVolume toy (mkNameReq "v") root_cred toy_init = Undefined.
Proof.
  split; [reflexivity|].
  apply (DestroyVolume_absent toy (mkNameReq "v") root_cred toy_init (world toy_init)).
  reflexivity.
Defined.

(** The dispatcher has no defined result either: a null dereference is not
    an exception a catch clause sees. *)
Lemma HandleRpcRequest_destroyvolume_absent ctx req cred s w rest :
  set_variants req = m_destroyvolume :: rest →
  Vholder_Get ctx (req_name (default default_name_req (rpc.destroyvolume req))) (world s)
  = Returns None w →
  HandleRpcRequest ctx req cred s = Undefined.
Proof.
  intros Hset H. rewrite HandleRpcRequest_first_set, Hset.
  unfold_around. unfold deferring, m_bind.
  match goal with |- context [DestroyVolume ctx ?r cred ?s1] =>
    rewrite (DestroyVolume_null_deref ctx r cred s1 w H) end.
  reflexivity.
Qed.

Example destroyvolume_on_toy :
  HandleRpcRequest toy (req_destroyvolume "v") root_cred toy_init = Undefined.
Proof. reflexivity. Qed.

(** ** The dispatcher: the payload of getproperty and getdata *)

Lemma around_try_replying ctx req (h : Rpc ctx TError) s :
  around_try ctx req (replying ctx h) s
  = match h (at_try req s) with
    | Returns error s1 =>
        Returns true (mkRpcState (world s1) (final_response error (rsp s1))
                        (rpclog s1 ++ [LogResponse (final_response error (rsp s1))]))
    | Throws e s1 =>
        Returns true (mkRpcState (world s1) (fault_response e)
                        (rpclog s1 ++ [LogResponse (fault_response e)]))
    | Undefined => Undefined
    end.
Proof.
  unfold replying. unfold_around. fold (at_try req s). by destruct (h (at_try req s)).
Qed.

(** The handlers write the value only next to a success, and touch nothing
    else of the response. *)
Lemma GetContainerProperty_rsp ctx req cred s error s' :
  GetContainerProperty ctx req cred s = Returns error s' →
  if TError.to_bool error then rsp s' = rsp s
  else ∃ value, rsp s' = getproperty_set_value value (rsp s).
Proof.
  unfold GetContainerProperty, m_bind, call, on_rsp, m_modify, m_ret.
  destruct (Cholder_Get ctx _ _) as [[c|] w| |]; simpl; try discriminate.
  - destruct (GetProperty ctx c _ w) as [[err value] w'| |]; try discriminate.
    destruct (TError.to_bool err) eqn:E; simpl; intros [= <- <-]; rewrite E; simpl; eauto.
  - intros [= <- <-]. reflexivity.
Qed.

Lemma GetContainerData_rsp ctx req cred s error s' :
  GetContainerData ctx req cred s = Returns error s' →
  if TError.to_bool error then rsp s' = rsp s
  else ∃ value, rsp s' = getdata_set_value value (rsp s).
Proof.
  unfold GetContainerData, m_bind, call, on_rsp, m_modify, m_ret.
  destruct (Cholder_Get ctx _ _) as [[c|] w| |]; simpl; try discriminate.
  - destruct (GetData ctx c _ w) as [[err value] w'| |]; try discriminate.
    destruct (TError.to_bool err) eqn:E; simpl; intros [= <- <-]; rewrite E; simpl; eauto.
  - intros [= <- <-]. reflexivity.
Qed.

(** A container that does not exist is answered with that error. *)
Lemma GetContainerProperty_no_container ctx req cred s w :
  Cholder_Get ctx (getp_name req) (world s) = Returns None w →
  GetContainerProperty ctx req cred s
  = Returns (mkTError EError.ContainerDoesNotExist "invalid name")
      (mkRpcState w (rsp s) (rpclog s)).
Proof. intros H. unfold GetContainerProperty, m_bind, call. by rewrite H. Qed.

Lemma GetContainerData_no_container ctx req cred s w :
  Cholder_Get ctx (getd_name req) (world s) = Returns None w →
  GetContainerData ctx req cred s
  = Returns (mkTError EError.ContainerDoesNotExist "invalid name")
      (mkRpcState w (rsp s) (rpclog s)).
Proof. intros H. unfold GetContainerData, m_bind, call. by rewrite H. Qed.

(** C10. For a getproperty (resp. getdata) request whose response starts
    without a value payload, the reply is decided by what the daemon
    answers. When the holder has no container of that name, the reply is
    [ContainerDoesNotExist] "invalid name" and the response holds no value.
    When the container exists, the reply carries the error kind and message
    that [GetProperty] (resp. [GetData]) returned; the response holds the
    value it returned, as the getproperty (resp. getdata) payload, exactly
    when that error is a success, and no value at all otherwise. The other
    payload is never written. *)
Theorem getters_payload_only_on_success ctx req cred s rest :
  rsp_getproperty (rsp s) = None →
  rsp_getdata (rsp s) = None →
  (set_variants req = m_getproperty :: rest →
   (∀ w1,
      Cholder_Get ctx (getp_name (default default_getp_req (rpc.getproperty req))) (world s)
      = Returns None w1 →
      HandleRpcRequest ctx req cred s
      = getter_reply req s w1 (mkTError EError.ContainerDoesNotExist "invalid name") None None)
   ∧ (∀ c w1 error value w2,
        Cholder_Get ctx (getp_name (default default_getp_req (rpc.getproperty req))) (world s)
        = Returns (Some c) w1 →
        GetProperty ctx c (getp_property (default default_getp_req (rpc.getproperty req))) w1
        = Returns (error, value) w2 →
        HandleRpcRequest ctx req cred s
        = getter_reply req s w2 error
            (if TError.to_bool error then None else Some value) None))
  ∧ (set_variants req = m_getdata :: rest →
     (∀ w1,
        Cholder_Get ctx (getd_name (default default_getd_req (rpc.getdata req))) (world s)
        = Returns None w1 →
        HandleRpcRequest ctx req cred s
        = getter_reply req s w1 (mkTError EError.ContainerDoesNotExist "invalid name")
            None None)
     ∧ (∀ c w1 error value w2,
          Cholder_Get ctx (getd_name (default default_getd_req (rpc.getdata req))) (world s)
          = Returns (Some c) w1 →
          GetData ctx c (getd_data (default default_getd_req (rpc.getdata req))) w1
          = Returns (error, value) w2 →
          HandleRpcRequest ctx req cred s
          = getter_reply req s w2 error
              None (if TError.to_bool error then None else Some value))).
Proof.
  intros Hp Hd.
  destruct s as [w0 [re rm rl rgp rgd rpl rdl rv rvl] lg]. simpl in Hp, Hd. subst rgp rgd.
  split; intros Hset; rewrite HandleRpcRequest_first_set, Hset; cbn [handler_of];
    rewrite around_try_replying; (split; [intros w1 H|intros c w1 error value w2 H1 H2]).
  - rewrite GetContainerProperty_no_container with (w := w1) by done.
    unfold getter_reply. simpl. by rewrite <- app_assoc.
  - unfold GetContainerProperty, m_bind, call, at_try. simpl in *.
    rewrite H1. simpl. rewrite H2.
    unfold getter_reply, on_rsp, m_modify, m_ret.
    destruct (TError.to_bool error); simpl; by rewrite <- app_assoc.
  - rewrite GetContainerData_no_container with (w := w1) by done.
    unfold getter_reply. simpl. by rewrite <- app_assoc.
  - unfold GetContainerData, m_bind, call, at_try. simpl in *.
    rewrite H1. simpl. rewrite H2.
    unfold getter_reply, on_rsp, m_modify, m_ret.
    destruct (TError.to_bool error); simpl; by rewrite <- app_assoc.
Qed.

Lemma getters_payload_only_on_success_witness :
  HandleRpcRequest toy (req_getproperty "a" "command") root_cred toy_init
  = getter_reply (req_getproperty "a" "command") toy_init (["a"] : World toy)
      TError.Success (Some "sleep 1") None
  ∧ HandleRpcRequest toy (req_getdata "a" "nope") root_cred toy_init
    = getter_reply (req_getdata "a" "nope") toy_init (["a"] : World toy)
        (mkTError EError.InvalidValue "invalid data") None None
  ∧ HandleRpcRequest toy (req_getproperty "zz" "command") root_cred toy_init
    = getter_reply (req_getproperty "zz" "command") toy_init (["a"] : World toy)
        (mkTError EError.ContainerDoesNotExist "invalid name") None None.
Proof.
  split; [|split].
  - exact (proj2 (proj1 (getters_payload_only_on_success toy (req_getproperty "a" "command")
                           root_cred toy_init [] eq_refl eq_refl) eq_refl)
             "a" ["a"] TError.Success "sleep 1" ["a"] eq_refl eq_refl).
  - exact (proj2 (proj2 (getters_payload_only_on_success toy (req_getdata "a" "nope")
                           root_cred toy_init [] eq_refl eq_refl) eq_refl)
             "a" ["a"] (mkTError EError.InvalidValue "invalid data") "" ["a"] eq_refl eq_refl).
  - exact (proj1 (proj1 (getters_payload_only_on_success toy (req_getproperty "zz" "command")
                           root_cred toy_init [] eq_refl eq_refl) eq_refl)
             ["a"] eq_refl).
Defined.

(** On the small daemon: a property that exists is answered with its value,
    one that does not with the error and no value. *)
Example getproperty_success :
  rsp (toy_reply (req_getproperty "a" "command"))
  = mkResponse (Some EError.Success) (Some "") None (Some "sleep 1") None None None None None.
Proof. reflexivity. Qed.

Example getproperty_error :
  rsp (toy_reply (req_getproperty "a" "nope"))
  = mkResponse (Some EError.InvalidValue) (Some "invalid property")
      None None None None None None None.
Proof. reflexivity. Qed.

Example getdata_success :
  rsp (toy_reply (req_getdata "a" "state"))
  = mkResponse (Some EError.Success) (Some "") None None (Some "stopped") None None None None.
Proof. reflexivity. Qed.

Example getdata_no_container :
  rsp (toy_reply (req_getdata "zz" "state"))
  = mkResponse (Some EError.ContainerDoesNotExist) (Some "invalid name")
      None None None None None None None.
Proof. reflexivity. Qed.

(** ** The dispatcher: propertylist and datalist *)

(** In a registry keyed by name, the lookup of the name of a descriptor
    gives that descriptor. *)
Lemma TValueSet_Get_member (vs : TValueSet) d :
  NoDup (TValueSet_.GetNames vs) → d ∈ vs → TValueSet_.Get vs (VName d) = Some d.
Proof.
  unfold TValueSet_.Get, TValueSet_.GetNames.
  induction vs as [|d' vs IH]; intros Hnd Hin; [by apply elem_of_nil in Hin|].
  rewrite fmap_cons in Hnd. apply NoDup_cons in Hnd as [Hfresh Hnd]. simpl.
  apply elem_of_cons in Hin as [->|Hin]; [by rewrite String.eqb_refl|].
  destruct (String.eqb (VName d') (VName d)) eqn:E; [|by apply IH].
  apply String.eqb_eq in E. exfalso. apply Hfresh. rewrite E.
  by apply list_elem_of_fmap_2.
Qed.

(** A registration keeps the names distinct. *)
Lemma Register_NoDup (vs vs' : TValueSet) d :
  NoDup (TValueSet_.GetNames vs) → TValueSet_.Register vs d = Some vs' →
  NoDup (TValueSet_.GetNames vs').
Proof.
  unfold TValueSet_.Register, TValueSet_.IsValid, TValueSet_.GetNames.
  intros Hnd. case_bool_decide as Hvalid; [done|]. intros [= <-].
  rewrite fmap_app. apply NoDup_app. split; [done|]. split; [|apply NoDup_singleton].
  intros name Hin Hd. apply list_elem_of_fmap in Hin as (d0 & -> & Hin).
  apply Hvalid. simpl in Hd. apply list_elem_of_singleton in Hd. rewrite <- Hd.
  rewrite (TValueSet_Get_member vs d0) by done. by eexists.
Qed.

Lemma ListProperty_loop_spec ctx (ds : list TValueDef) : ∀ s,
  (∀ d, d ∈ ds → TValueSet_.Get (propertySet ctx) (VName d) = Some d) →
  ListProperty_loop ctx (VName <$> ds) s
  = Returns tt (mkRpcState (world s)
                  (foldl (λ r e, propertylist_add e r) (rsp s) (visible_entries ctx ds))
                  (rpclog s)).
Proof.
  induction ds as [|d ds IH]; intros s Hget.
  - by destruct s.
  - rewrite fmap_cons. cbn [ListProperty_loop]. unfold m_bind at 1.
    rewrite (Hget d) by apply list_elem_of_here. cbn [m_deref].
    unfold visible_entries. cbn [List.filter].
    destruct (hidden ctx d); cbn [negb].
    + apply IH. intros d' Hd'. apply Hget. by apply list_elem_of_further.
    + unfold m_bind, on_rsp, m_modify. rewrite IH.
      * reflexivity.
      * intros d' Hd'. apply Hget. by apply list_elem_of_further.
Qed.

Lemma ListData_loop_spec ctx (ds : list TValueDef) : ∀ s,
  (∀ d, d ∈ ds → TValueSet_.Get (dataSet ctx) (VName d) = Some d) →
  ListData_loop ctx (VName <$> ds) s
  = Returns tt (mkRpcState (world s)
                  (foldl (λ r e, datalist_add e r) (rsp s) (visible_entries ctx ds))
                  (rpclog s)).
Proof.
  induction ds as [|d ds IH]; intros s Hget.
  - by destruct s.
  - rewrite fmap_cons. cbn [ListData_loop]. unfold m_bind at 1.
    rewrite (Hget d) by apply list_elem_of_here. cbn [m_deref].
    unfold visible_entries. cbn [List.filter].
    destruct (hidden ctx d); cbn [negb].
    + apply IH. intros d' Hd'. apply Hget. by apply list_elem_of_further.
    + unfold m_bind, on_rsp, m_modify. rewrite IH.
      * reflexivity.
      * intros d' Hd'. apply Hget. by apply list_elem_of_further.
Qed.

Lemma foldl_propertylist_add es : ∀ r,
  foldl (λ r e, propertylist_add e r) (mutable_propertylist r) es
  = with_propertylist (default [] (rsp_propertylist r) ++ es) r.
Proof.
  induction es as [|e es IH] using rev_ind; intros r.
  - simpl. by rewrite app_nil_r.
  - rewrite foldl_app. simpl. rewrite IH. unfold propertylist_add, with_propertylist.
    simpl. by rewrite app_assoc.
Qed.

Lemma foldl_datalist_add es : ∀ r,
  foldl (λ r e, datalist_add e r) (mutable_datalist r) es
  = with_datalist (default [] (rsp_datalist r) ++ es) r.
Proof.
  induction es as [|e es IH] using rev_ind; intros r.
  - simpl. by rewrite app_nil_r.
  - rewrite foldl_app. simpl. rewrite IH. unfold datalist_add, with_datalist.
    simpl. by rewrite app_assoc.
Qed.

(** C8. The propertylist handler answers the entries (name and
    description) of the descriptors of the property registry that do not
    carry the hidden flag, in the order of the registry, and no entry for a
    hidden one; the datalist handler does the same over the data
    registry. *)
Theorem lists_omit_hidden ctx s :
  NoDup (TValueSet_.GetNames (propertySet ctx)) →
  NoDup (TValueSet_.GetNames (dataSet ctx)) →
  ListProperty ctx s
  = Returns TError.Success
      (mkRpcState (world s)
         (with_propertylist
            (default [] (rsp_propertylist (rsp s)) ++ visible_entries ctx (propertySet ctx))
            (rsp s))
         (rpclog s))
  ∧ ListData ctx s
    = Returns TError.Success
        (mkRpcState (world s)
           (with_datalist
              (default [] (rsp_datalist (rsp s)) ++ visible_entries ctx (dataSet ctx))
              (rsp s))
           (rpclog s)).
Proof.
  intros Hp Hd. split.
  - unfold ListProperty, TValueSet_.GetNames, m_bind at 1 2, on_rsp, m_modify.
    rewrite ListProperty_loop_spec by (intros d; by apply TValueSet_Get_member).
    cbn [world rsp rpclog]. by rewrite foldl_propertylist_add.
  - unfold ListData, TValueSet_.GetNames, m_bind at 1 2, on_rsp, m_modify.
    rewrite ListData_loop_spec by (intros d; by apply TValueSet_Get_member).
    cbn [world rsp rpclog]. by rewrite foldl_datalist_add.
Qed.

Lemma lists_omit_hidden_witness :
  ListProperty toy toy_init
  = Returns TError.Success
      (mkRpcState (["a"] : World toy)
         (with_propertylist
            [ mkEntry "command" "command executed upon container start";
              mkEntry "memory_limit" "memory hard limit";
              mkEntry "isolate" "isolate container from parent" ] cleared) [])
  ∧ ListData toy toy_init
    = Returns TError.Success
        (mkRpcState (["a"] : World toy)
           (with_datalist
              [ mkEntry "state" "container state";
                mkEntry "exit_status" "container exit status" ] cleared) []).
Proof.
  apply (lists_omit_hidden toy toy_init); vm_compute; repeat constructor;
    rewrite ?list_elem_of_In; simpl; intuition discriminate.
Defined.

(** A descriptor that carries the hidden flag has no entry. *)
Lemma hidden_has_no_entry ctx (vs : TValueSet) d :
  NoDup (TValueSet_.GetNames vs) → d ∈ vs → hidden ctx d = true →
  VName d ∉ entry_name <$> visible_entries ctx vs.
Proof.
  intros Hnd Hin Hhidden Hentry. unfold visible_entries in Hentry.
  rewrite <- list_fmap_compose in Hentry.
  apply list_elem_of_fmap in Hentry as (d' & Hname & Hin').
  apply list_elem_of_In, filter_In in Hin' as [Hin' Hvis].
  apply list_elem_of_In in Hin'. simpl in Hname.
  assert (d' = d) as ->.
  { pose proof (TValueSet_Get_member vs d Hnd Hin) as H1.
    pose proof (TValueSet_Get_member vs d' Hnd Hin') as H2.
    rewrite <- Hname in H2. congruence. }
  by rewrite Hhidden in Hvis.
Qed.

(** Through the dispatcher, on the small daemon: the hidden property
    "raw_root_pid" is not listed. *)
Example propertylist_on_toy :
  rsp_propertylist (rsp (toy_reply req_propertylist))
  = Some [ mkEntry "command" "command executed upon container start";
           mkEntry "memory_limit" "memory hard limit";
           mkEntry "isolate" "isolate container from parent" ].
Proof. reflexivity. Qed.

(* ===================================================================== *)
(** * Part III: further properties of the embedded code                   *)
(* ===================================================================== *)

Set Warnings "-clear-no-such-hyp".

(** ** The subsystem registry: one adapter per name, for good *)

Lemma reachable_bounded s : reachable s → registry_bounded s.
Proof.
  intros Hr name p H. destruct (reachable_ok s Hr name p H) as (a & -> & Ha).
  exists a. split; [done|]. by apply lookup_lt_Some in Ha.
Qed.

Lemma Get_preserves_injective name s :
  registry_bounded s → registry_injective s →
  registry_injective (snd (TSubsystem.Get name s)).
Proof.
  intros Hb Hi n1 n2 p. rewrite Get_eq.
  destruct (subsystems s !! name) eqn:E; simpl; [apply Hi|].
  destruct (decide (name = n1)) as [<-|H1], (decide (name = n2)) as [<-|H2];
    rewrite ?lookup_insert_eq, ?lookup_insert_ne by done; try done.
  - intros [= <-] H. destruct (Hb _ _ H) as (a & [= <-] & Hlt). lia.
  - intros H [= <-]. destruct (Hb _ _ H) as (a & [= <-] & Hlt). lia.
  - apply Hi.
Qed.

Lemma reachable_injective s : reachable s → registry_injective s.
Proof.
  induction 1 as [|name s Hr IH].
  - intros n1 n2 p H. cbn in H. by rewrite lookup_empty in H.
  - apply Get_preserves_injective; [by apply reachable_bounded | done].
Qed.

Lemma after_Gets_keeps names : ∀ s name p,
  subsystems s !! name = Some p → subsystems (after_Gets names s) !! name = Some p.
Proof.
  induction names as [|n names IH]; intros s name p H; [done|].
  simpl. apply IH. by apply Get_keeps.
Qed.

Lemma after_Gets_heap names : ∀ s a o,
  heap s !! a = Some o → heap (after_Gets names s) !! a = Some o.
Proof.
  induction names as [|n names IH]; intros s a o H; [done|].
  simpl. apply IH. by apply Get_heap_grows.
Qed.

(** Once [Get] has returned an adapter for a name, every later call with
    that name, after any calls with any names in between, returns the same
    pointer, changes nothing, and the object behind the pointer is the one
    of the first call. *)
Theorem Get_same_adapter_forever name (between : list string) s :
  let p := fst (TSubsystem.Get name s) in
  let s1 := after_Gets between (snd (TSubsystem.Get name s)) in
  TSubsystem.Get name s1 = (p, s1)
  ∧ ∀ o, TSubsystem.deref (snd (TSubsystem.Get name s)) p = Some o →
         TSubsystem.deref s1 p = Some o.
Proof.
  cbv zeta. split.
  - rewrite Get_eq.
    by rewrite (after_Gets_keeps between _ name _ (Get_registers name s)).
  - intros o. unfold TSubsystem.deref.
    destruct (fst (TSubsystem.Get name s)) as [a|]; simpl; [|done].
    apply after_Gets_heap.
Qed.

(** In every state a run can reach, [Get] never returns the null pointer,
    and two different names never get the same adapter. *)
Theorem Get_distinct_adapters s name other :
  reachable s → name ≠ other →
  fst (TSubsystem.Get name s) ≠ nullptr
  ∧ fst (TSubsystem.Get other (snd (TSubsystem.Get name s)))
    ≠ fst (TSubsystem.Get name s).
Proof.
  intros Hr Hne.
  pose proof (reach_Get name s Hr) as Hr1.
  pose proof (reach_Get other _ Hr1) as Hr2.
  pose proof (Get_registers name s) as H1.
  split.
  - destruct (reachable_ok _ Hr1 _ _ H1) as (a & -> & _). done.
  - intros Heq. apply Hne.
    apply (reachable_injective _ Hr2 name other (fst (TSubsystem.Get name s))).
    + by apply Get_keeps.
    + rewrite <- Heq. apply Get_registers.
Qed.

Lemma Get_distinct_adapters_witness :
  fst (TSubsystem.Get "memory" subsys_init) ≠ nullptr
  ∧ fst (TSubsystem.Get "cpu" (snd (TSubsystem.Get "memory" subsys_init)))
    ≠ fst (TSubsystem.Get "memory" subsys_init).
Proof.
  apply (Get_distinct_adapters subsys_init "memory" "cpu"); [apply reach_init | done].
Defined.

(** ** The freezer: bounds, soundness and the log *)

Lemma freezer_op_eq T freeze cg s :
  freezer_op T freeze cg s
  = (let* error := TCgroup_.SetKnobValue cg "freezer.state" (freezer_word freeze) in
     if TError.to_bool error then st_ret error
     else TFreezerSubsystem.WaitState T cg (freezer_word freeze +:+ LF))%st s.
Proof. by destruct freeze. Qed.

Lemma RetryFailed_loop_errlog cg state n : ∀ s ret0,
  let r := RetryFailed_loop n 100 (TFreezerSubsystem.WaitState_handler cg state) ret0 s in
  (reads s ≤ reads (snd r))%nat
  ∧ errlog (snd r) = errlog s ++ failed_reads cg (reads s) (reads (snd r) - reads s).
Proof.
  induction n as [|n IH]; intros s ret0; cbv zeta.
  - simpl. unfold st_ret; simpl. rewrite Nat.sub_diag. simpl. by rewrite app_nil_r.
  - rewrite RetryFailed_loop_step, handler_spec. cbn [fst snd].
    case_bool_decide as Hm; cbn [Z.eqb fst snd reads writes slept_ms errlog].
    + split; [lia|]. replace (S (reads s) - reads s)%nat with 1%nat by lia.
      simpl. by rewrite app_nil_r.
    + match goal with |- context [RetryFailed_loop n 100 _ 1 ?s1] => specialize (IH s1 1) end.
      cbv zeta in IH. cbn [reads errlog] in IH. destruct IH as [Hle ->].
      split; [lia|].
      replace (reads _ - reads s)%nat
        with (S (reads (RetryFailed_loop n 100
                (TFreezerSubsystem.WaitState_handler cg state) 1
                (mkCgState (S (reads s)) (writes s) (slept_ms s + 100)
                   (errlog s ++
                    (if TError.to_bool (read_result cg (reads s) "freezer.state").1
                     then [LogError (read_result cg (reads s) "freezer.state").1
                             "Can't freeze cgroup"]
                     else [])))).2 - S (reads s)))%nat by lia.
      simpl. by rewrite <- app_assoc.
Qed.

Lemma WaitState_errlog T cg state s :
  let r := TFreezerSubsystem.WaitState T cg state s in
  (reads s ≤ reads (snd r))%nat
  ∧ errlog (snd r)
    = errlog s ++ failed_reads cg (reads s) (reads (snd r) - reads s)
      ++ (if TError.to_bool (fst r) then [LogError (fst r) (Relpath cg)] else []).
Proof.
  cbv zeta. unfold TFreezerSubsystem.WaitState, RetryFailed, st_bind.
  pose proof (RetryFailed_loop_errlog cg state (Z.to_nat (T * 10)) s 0) as H.
  cbv zeta in H. destruct (RetryFailed_loop _ _ _ _ s) as [ret s1]. simpl in H.
  destruct H as [Hle He]. destruct (ret =? 0); simpl; unfold st_ret; simpl.
  - split; [done|]. by rewrite app_nil_r.
  - split; [done|]. rewrite He. by rewrite <- app_assoc.
Qed.

(** Freeze and Unfreeze are bounded: they write the knob once, read it at
    most [FREEZER_WAIT_TIMEOUT_S * 10] times and sleep at most
    [FREEZER_WAIT_TIMEOUT_S] seconds in all, whatever the kernel does. *)
Theorem freezer_is_bounded T cg freeze s :
  0 < T →
  let r := freezer_op T freeze cg s in
  writes (snd r) = writes s ++ [("freezer.state", freezer_word freeze)]
  ∧ (reads s ≤ reads (snd r) ≤ reads s + Z.to_nat (T * 10))%nat
  ∧ slept_ms s ≤ slept_ms (snd r) ≤ slept_ms s + 1000 * T.
Proof.
  intros HT. cbv zeta. rewrite freezer_op_eq.
  unfold st_bind, TCgroup_.SetKnobValue.
  destruct (TError.to_bool (write_result cg _ _)).
  - unfold st_ret. simpl. repeat split; lia.
  - match goal with |- context [TFreezerSubsystem.WaitState T cg ?st ?s1] =>
      pose proof (WaitState_spec T cg st s1 HT) as H end.
    cbv zeta in H. simpl in H. destruct H as [Hw H]. split; [exact Hw|].
    destruct (first_match cg _ (reads s) _) as [k|] eqn:E.
    + apply first_match_Some in E as (Hk & _). destruct H as (_ & -> & ->).
      repeat split; lia.
    + destruct H as (_ & -> & ->). repeat split; lia.
Qed.

Lemma freezer_is_bounded_witness :
  0 < 1 ∧
  (reads (snd (freezer_op 1 true stuck_cgroup cg_init))
   ≤ reads cg_init + Z.to_nat (1 * 10))%nat
  ∧ slept_ms (snd (freezer_op 1 true stuck_cgroup cg_init)) ≤ slept_ms cg_init + 1000 * 1.
Proof.
  assert (H1 : 0 < 1) by lia. split; [exact H1|].
  pose proof (freezer_is_bounded 1 stuck_cgroup true cg_init H1) as H.
  cbv zeta in H. destruct H as (_ & [_ Hr] & [_ Hs]). split; [exact Hr | exact Hs].
Defined.

(** After a successful write, Freeze (resp. Unfreeze) succeeds exactly when
    one of the first [FREEZER_WAIT_TIMEOUT_S * 10] reads observes FROZEN
    (resp. THAWED) followed by a line feed, whether or not the reads report
    an error; and when it succeeds, the last read it made observed it. *)
Theorem freezer_success_iff_observed T cg freeze s :
  0 < T →
  TError.to_bool (write_result cg "freezer.state" (freezer_word freeze)) = false →
  let r := freezer_op T freeze cg s in
  (fst r = TError.Success ↔
   ∃ k, (k < Z.to_nat (T * 10))%nat
        ∧ observed cg (reads s + k) = freezer_word freeze +:+ LF)
  ∧ (fst r = TError.Success →
     (reads s < reads (snd r))%nat
     ∧ observed cg (reads (snd r) - 1) = freezer_word freeze +:+ LF).
Proof.
  intros HT Hw. cbv zeta. rewrite freezer_op_eq.
  unfold st_bind, TCgroup_.SetKnobValue. rewrite Hw.
  match goal with |- context [TFreezerSubsystem.WaitState T cg ?st ?s1] =>
    pose proof (WaitState_spec T cg st s1 HT) as H end.
  cbv zeta in H. simpl in H. destruct H as [_ H].
  destruct (first_match cg _ (reads s) _) as [k|] eqn:E.
  - pose proof (first_match_Some _ _ _ _ _ E) as (Hk & Hobs & _).
    destruct H as (-> & -> & _). split.
    + split; [eauto|done].
    + intros _. split; [lia|].
      replace (reads s + S k - 1)%nat with (reads s + k)%nat by lia. done.
  - pose proof (first_match_None _ _ _ _ E) as Hnone.
    destruct H as (-> & _ & _). split.
    + split; [discriminate|]. intros (k & Hk & Hobs). by destruct (Hnone k Hk).
    + discriminate.
Qed.

Lemma freezer_success_iff_observed_witness :
  0 < 60
  ∧ fst (TFreezerSubsystem.Freeze 60 slow_cgroup cg_init) = TError.Success
  ∧ observed slow_cgroup (reads (snd (TFreezerSubsystem.Freeze 60 slow_cgroup cg_init)) - 1)
    = "FROZEN" +:+ LF.
Proof.
  assert (H60 : 0 < 60) by lia. split; [exact H60|]. split; [reflexivity|].
  assert (Hw : TError.to_bool (write_result slow_cgroup "freezer.state" (freezer_word true))
               = false) by reflexivity.
  apply (proj2 (freezer_success_iff_observed 60 slow_cgroup true cg_init H60 Hw)).
  reflexivity.
Defined.

(** The log of Freeze and Unfreeze: nothing when the write fails; otherwise
    one line "Can't freeze cgroup" for each read that reported an error, in
    order, and on a timeout one more line with the error returned and the
    path of the cgroup. *)
Theorem freezer_log T cg freeze s :
  let r := freezer_op T freeze cg s in
  errlog (snd r)
  = errlog s
    ++ failed_reads cg (reads s) (reads (snd r) - reads s)
    ++ (if TError.to_bool (write_result cg "freezer.state" (freezer_word freeze)) then []
        else if TError.to_bool (fst r) then [LogError (fst r) (Relpath cg)] else []).
Proof.
  cbv zeta. rewrite freezer_op_eq. unfold st_bind, TCgroup_.SetKnobValue.
  destruct (TError.to_bool (write_result cg _ _)).
  - unfold st_ret. simpl. rewrite Nat.sub_diag. simpl. by rewrite app_nil_r.
  - match goal with |- context [TFreezerSubsystem.WaitState T cg ?st ?s1] =>
      pose proof (WaitState_errlog T cg st s1) as H end.
    cbv zeta in H. simpl in H. by destruct H as [_ ->].
Qed.

(** ** The traffic-control adapter: the loops over the links *)

Lemma for_each_link_stops_at_first_failure {K} (h : NlKernel K)
    (c : TNlLink → NlCall TError) (links : list TNlLink) : ∀ k,
  stops_at_first_failure h c links k
    (nl_run h (for_each_link links (λ link, nl_call (c link))) k).
Proof.
  induction links as [|link links IH]; intros k.
  { right. split; [|reflexivity]. intros i l H. by rewrite lookup_nil in H. }
  cbn [for_each_link nl_call nl_bind nl_run].
  destruct (h _ (c link) k) as [error k1] eqn:Eh.
  assert (Hk : ∀ before, kernel_after h c (link :: before) k = kernel_after h c before k1).
  { intros before. unfold kernel_after. simpl. by rewrite Eh. }
  assert (Ha : ∀ before l, answer_after h c (link :: before) l k = answer_after h c before l k1).
  { intros before l. unfold answer_after. by rewrite Hk. }
  assert (H0 : answer_after h c [] link k = error).
  { unfold answer_after, kernel_after. simpl. by rewrite Eh. }
  destruct (TError.to_bool error) eqn:E.
  - left. exists [], link, links. cbn [nl_run]. split; [done|]. split.
    { intros i l H. by rewrite lookup_nil in H. }
    rewrite H0. split; [done|]. cbn [app]. rewrite (Hk []). done.
  - destruct (IH k1) as [(before & l & after & -> & Hbefore & Hfail & Hr)|[Hall Hr]];
      rewrite Hr.
    + left. exists (link :: before), l, after. split; [done|]. split.
      { intros [|i] l' H; simpl in H.
        - injection H as <-. simpl. by rewrite H0.
        - simpl. rewrite Ha. by apply Hbefore. }
      rewrite Ha. split; [done|]. cbn [app]. by rewrite (Hk (before ++ [l])).
    + right. split.
      { intros [|i] l' H; simpl in H.
        - injection H as <-. simpl. by rewrite H0.
        - simpl. rewrite Ha. by apply Hall. }
      by rewrite Hk.
Qed.

(** With networking enabled, on any kernel: tclass create, qdisc create,
    qdisc remove and filter create make their netlink call on the links in
    order and stop at the first link on which the call answers an error.
    Then the result is that error, the calls on the links before it all
    succeeded, and no later link has been touched: the calls issued and the
    state of the kernel are those of the links up to the failing one. When
    no call answers an error the result is success and the call was made on
    every link. *)
Theorem tc_loops_cover_or_stop {K} (h : NlKernel K) (k : K) (root : Z)
    (q : TQdisc) (t : TTclass) (f : TFilter) (prio rate ceil : Z) :
  stops_at_first_failure h
    (λ link, NlClass_Create link (TTclass_GetParent true t) (TTclass_Handle t) prio rate ceil)
    (TTclass_GetLink t) k (nl_run h (TTclass_Create true t prio rate ceil) k)
  ∧ stops_at_first_failure h (λ link, NlHtb_Create link root (QHandle q) (DefClass q))
      (Link q) k (nl_run h (TQdisc_Create true root q) k)
  ∧ stops_at_first_failure h (λ link, NlHtb_Remove link root (QHandle q))
      (Link q) k (nl_run h (TQdisc_Remove true root q) k)
  ∧ stops_at_first_failure h (λ link, NlCgFilter_Create link (QHandle (Parent f)) 1)
      (Link (Parent f)) k (nl_run h (TFilter_Create true f) k).
Proof. repeat split; apply for_each_link_stops_at_first_failure. Qed.

(** On the reference kernel, with the qdisc installed on the second link
    only: the removal fails on the first link, and the second link keeps
    its qdisc. *)
Example qdisc_Remove_stops_at_first_failure :
  nl_run ref_kernel (TQdisc_Remove true 1 qdisc_ex) (mkTcKernel ∅ {[ ("eth1", 1, 65536) ]} ∅)
  = (no_such, mkTcKernel ∅ {[ ("eth1", 1, 65536) ]} ∅, [Issued (NlHtb_Remove eth0 1 65536)]).
Proof. vm_compute. reflexivity. Qed.

(** [TFilter::Remove] has the early return of [TTclass::Remove]: at the
    first link on which the filter does not exist it returns success, and
    no later link is examined. *)
Theorem filter_Remove_stops_at_missing_link
    {K} (h : NlKernel K) (k : K) (f : TFilter) (link : TNlLink) (later : list TNlLink) :
  Link (Parent f) = link :: later →
  fst (h _ (NlCgFilter_Exists link (QHandle (Parent f)) 1) k) = false →
  nl_run h (TFilter_Remove true f) k
  = (TError.Success,
     snd (h _ (NlCgFilter_Exists link (QHandle (Parent f)) 1) k),
     [Issued (NlCgFilter_Exists link (QHandle (Parent f)) 1)]).
Proof.
  intros Hlinks Hmissing. unfold TFilter_Remove, TFilter_GetLink, TQdisc_GetLink.
  rewrite Hlinks. simpl.
  destruct (h _ _ k) as [b k1]. simpl in Hmissing. subst b. reflexivity.
Qed.

Lemma filter_Remove_stops_at_missing_link_witness :
  Link (Parent (mkTFilter qdisc_ex)) = eth0 :: [eth1]
  ∧ nl_run ref_kernel (TFilter_Remove true (mkTFilter qdisc_ex))
      (mkTcKernel ∅ ∅ {[ ("eth1", 65536, 1) ]})
    = (TError.Success, mkTcKernel ∅ ∅ {[ ("eth1", 65536, 1) ]},
       [Issued (NlCgFilter_Exists eth0 65536 1)]).
Proof.
  split; [reflexivity|].
  apply (filter_Remove_stops_at_missing_link ref_kernel
           (mkTcKernel ∅ ∅ {[ ("eth1", 65536, 1) ]}) (mkTFilter qdisc_ex) eth0 [eth1]);
    reflexivity.
Defined.

(** ** The traffic-control adapter: the map of [GetStat] *)

Lemma GetStat_loop_keys {K} (h : NlKernel K) t stat links : ∀ k m,
  let r := nl_run h (TTclass_GetStat_loop true t stat links m) k in
  dom m ⊆ dom (snd (fst (fst r)))
  ∧ dom (snd (fst (fst r))) ⊆ dom m ∪ link_names links
  ∧ (∀ key, key ∉ link_names links → snd (fst (fst r)) !! key = m !! key)
  ∧ (TError.to_bool (fst (fst (fst r))) = false →
     link_names links ⊆ dom (snd (fst (fst r)))).
Proof.
  unfold link_names.
  induction links as [|link links IH]; intros k m; cbv zeta.
  - simpl. set_solver.
  - cbn [TTclass_GetStat_loop nl_call nl_bind nl_run].
    destruct (h _ _ k) as [[error val] k1]. destruct (TError.to_bool error) eqn:E.
    + cbn [nl_run fst snd]. rewrite E. repeat split; try done; set_solver.
    + specialize (IH k1 (<[GetName link := val]> m)). cbv zeta in IH.
      destruct (nl_run h (TTclass_GetStat_loop true t stat links _) k1) as [[[e m'] k2] evs].
      cbn [fst snd] in *. destruct IH as (H1 & H2 & H3 & H4).
      rewrite dom_insert_L in H1, H2. rewrite fmap_cons, list_to_set_cons.
      repeat split.
      * set_solver.
      * set_solver.
      * intros key Hkey. rewrite H3 by set_solver.
        apply lookup_insert_ne. set_solver.
      * intros He. specialize (H4 He). set_solver.
Qed.

(** With networking enabled, on any kernel, [TTclass::GetStat] only adds or
    overwrites the entries named by the links of the class: every other
    entry of the map is kept, also when it fails half-way; and when it
    succeeds the map has an entry for every link. *)
Theorem tclass_GetStat_keys {K} (h : NlKernel K) (k : K) (t : TTclass)
    (stat : ETclassStat) (m : gmap string Z) :
  let r := nl_run h (TTclass_GetStat true t stat m) k in
  dom m ⊆ dom (snd (fst (fst r)))
  ∧ dom (snd (fst (fst r))) ⊆ dom m ∪ link_names (TTclass_GetLink t)
  ∧ (∀ key, key ∉ link_names (TTclass_GetLink t) → snd (fst (fst r)) !! key = m !! key)
  ∧ (TError.to_bool (fst (fst (fst r))) = false →
     link_names (TTclass_GetLink t) ⊆ dom (snd (fst (fst r)))).
Proof. apply GetStat_loop_keys. Qed.

(** ** The traffic-control adapter: create, then remove *)

Lemma ref_kernel_Create_loop t prio rate ceil links : ∀ k,
  let r := nl_run ref_kernel
             (for_each_link links (λ link,
                nl_call (NlClass_Create link (TTclass_GetParent true t) (TTclass_Handle t)
                           prio rate ceil))) k in
  fst (fst r) = TError.Success
  ∧ k_classes (snd (fst r)) = class_entries t links ∪ k_classes k
  ∧ k_qdiscs (snd (fst r)) = k_qdiscs k
  ∧ k_filters (snd (fst r)) = k_filters k.
Proof.
  unfold class_entries.
  induction links as [|link links IH]; intros k; cbv zeta.
  - simpl. repeat split. set_solver.
  - cbn [for_each_link nl_call nl_bind nl_run ref_kernel].
    change (TError.to_bool TError.Success) with false. cbv iota.
    match goal with |- context [nl_run ref_kernel _ ?k1] => specialize (IH k1) end.
    cbv zeta in IH.
    destruct (nl_run ref_kernel (for_each_link links _) _) as [[e k2] evs].
    cbn [fst snd k_classes k_qdiscs k_filters] in *.
    destruct IH as (-> & -> & -> & ->). repeat split.
    rewrite fmap_cons, list_to_set_cons. set_solver.
Qed.

Lemma ref_kernel_Remove_loop t links : ∀ k,
  NoDup (GetName <$> links) →
  class_entries t links ⊆ k_classes k →
  let r := nl_run ref_kernel (TTclass_Remove_loop true t links) k in
  fst (fst r) = TError.Success
  ∧ k_classes (snd (fst r)) = k_classes k ∖ class_entries t links
  ∧ k_qdiscs (snd (fst r)) = k_qdiscs k
  ∧ k_filters (snd (fst r)) = k_filters k.
Proof.
  unfold class_entries.
  induction links as [|link links IH]; intros k Hnd Hin; cbv zeta.
  - simpl. repeat split. set_solver.
  - rewrite fmap_cons in Hnd. apply NoDup_cons in Hnd as [Hfresh Hnd].
    rewrite fmap_cons, list_to_set_cons in Hin.
    cbn [TTclass_Remove_loop]. unfold TTclass_Exists, nl_call.
    cbn [nl_bind nl_run ref_kernel].
    rewrite bool_decide_eq_true_2 by set_solver. cbn [negb nl_bind nl_run ref_kernel].
    rewrite bool_decide_eq_true_2 by set_solver.
    change (TError.to_bool TError.Success) with false. cbv iota.
    assert (Hout : (GetName link, TTclass_GetParent true t, TTclass_Handle t)
                   ∉ (list_to_set ((λ l, (GetName l, TTclass_GetParent true t,
                                          TTclass_Handle t)) <$> links)
                      : gset (string * Z * Z))).
    { rewrite elem_of_list_to_set. intros H.
      apply list_elem_of_fmap in H as (l & [= Hname] & Hl).
      apply Hfresh. rewrite Hname. by apply list_elem_of_fmap_2. }
    match goal with |- context [nl_run ref_kernel _ ?k1] => specialize (IH k1 Hnd) end.
    cbv zeta in IH. cbn [k_classes k_qdiscs k_filters] in IH.
    destruct (nl_run ref_kernel (TTclass_Remove_loop true t links) _) as [[e k2] evs].
    cbn [fst snd] in *.
    destruct IH as (-> & -> & -> & ->); [set_solver|]. repeat split.
    rewrite fmap_cons, list_to_set_cons. set_solver.
Qed.

(** On the reference kernel, for a class over links of distinct names that
    is installed on none of them: [Create] installs it on every link, and
    [Remove] after it removes it from every link again; both succeed and the
    kernel is back in the state it started from. *)
Theorem tclass_Create_Remove_round_trip t prio rate ceil k :
  NoDup (GetName <$> TTclass_GetLink t) →
  class_entries t (TTclass_GetLink t) ## k_classes k →
  let c := nl_run ref_kernel (TTclass_Create true t prio rate ceil) k in
  let r := nl_run ref_kernel (TTclass_Remove true t) (snd (fst c)) in
  fst (fst c) = TError.Success
  ∧ class_entries t (TTclass_GetLink t) ⊆ k_classes (snd (fst c))
  ∧ fst (fst r) = TError.Success
  ∧ snd (fst r) = k.
Proof.
  intros Hnd Hdisj. cbv zeta. unfold TTclass_Create, TTclass_Remove. cbn [negb].
  pose proof (ref_kernel_Create_loop t prio rate ceil (TTclass_GetLink t) k) as Hc.
  cbv zeta in Hc.
  destruct (nl_run ref_kernel (for_each_link _ _) k) as [[e1 k1] evs1].
  cbn [fst snd] in *. destruct Hc as (-> & Hc1 & Hq1 & Hf1).
  assert (Hsub : class_entries t (TTclass_GetLink t) ⊆ k_classes k1) by set_solver.
  pose proof (ref_kernel_Remove_loop t (TTclass_GetLink t) k1 Hnd Hsub) as Hr.
  cbv zeta in Hr.
  destruct (nl_run ref_kernel (TTclass_Remove_loop true t _) k1) as [[e2 k2] evs2].
  cbn [fst snd] in *. destruct Hr as (-> & Hc2 & Hq2 & Hf2).
  repeat split; [done|].
  destruct k as [kc kq kf], k2 as [kc2 kq2 kf2]. cbn [k_classes k_qdiscs k_filters] in *.
  f_equal; [|congruence|congruence].
  rewrite Hc2, Hc1. set_solver.
Qed.

Lemma tclass_Create_Remove_round_trip_witness :
  NoDup (GetName <$> TTclass_GetLink tclass_ex)
  ∧ snd (fst (nl_run ref_kernel (TTclass_Remove true tclass_ex)
                (snd (fst (nl_run ref_kernel (TTclass_Create true tclass_ex 3 1000 2000)
                             (mkTcKernel ∅ ∅ ∅))))))
    = mkTcKernel ∅ ∅ ∅.
Proof.
  assert (Hnd : NoDup (GetName <$> TTclass_GetLink tclass_ex)).
  { repeat constructor; rewrite ?list_elem_of_In; simpl; intuition discriminate. }
  split; [exact Hnd|].
  assert (Hdisj : class_entries tclass_ex (TTclass_GetLink tclass_ex)
                  ## k_classes (mkTcKernel ∅ ∅ ∅)) by (simpl; set_solver).
  exact (proj2 (proj2 (proj2
    (tclass_Create_Remove_round_trip tclass_ex 3 1000 2000 (mkTcKernel ∅ ∅ ∅) Hnd Hdisj)))).
Defined.

(** The links need distinct names: over [eth0; eth0; eth1], the removal
    stops at the second eth0 and leaves the class on eth1. *)
Example tclass_round_trip_needs_distinct_links :
  ("eth1", 65536, 65539)
  ∈ k_classes (snd (fst (nl_run ref_kernel (TTclass_Remove true tclass_dup)
                 (snd (fst (nl_run ref_kernel (TTclass_Create true tclass_dup 3 1000 2000)
                              (mkTcKernel ∅ ∅ ∅))))))).
Proof. vm_compute. set_solver. Qed.

(** ** The handlers: what they keep *)

Section Keeps.
Context {ctx : TContext}.
Variable P : RpcState ctx → RpcState ctx → Prop.
Hypothesis P_refl : ∀ s, P s s.
Hypothesis P_trans : ∀ s1 s2 s3, P s1 s2 → P s2 s3 → P s1 s3.

Lemma keeps_ret {A} (a : A) : keeps P (m_ret a : Rpc ctx A).
Proof. intros s. apply P_refl. Qed.

Lemma keeps_deref {A} (p : option A) : keeps P (m_deref p : Rpc ctx A).
Proof. intros s. destruct p; simpl; [apply P_refl|done]. Qed.

Lemma keeps_bind {A B} (m : Rpc ctx A) (f : A → Rpc ctx B) :
  keeps P m → (∀ a, keeps P (f a)) → keeps P (m_bind m f).
Proof.
  intros Hm Hf s. unfold m_bind. specialize (Hm s).
  destruct (m s) as [a s1|e s1|]; [|done|done].
  specialize (Hf a s1). destruct (f a s1); eauto.
Qed.
End Keeps.

Lemma same_log_trans {ctx} (s1 s2 s3 : RpcState ctx) :
  same_log s1 s2 → same_log s2 s3 → same_log s1 s3.
Proof. unfold same_log. congruence. Qed.
Lemma same_world_trans {ctx} (s1 s2 s3 : RpcState ctx) :
  same_world s1 s2 → same_world s2 s3 → same_world s1 s3.
Proof. unfold same_world. congruence. Qed.
Lemma same_rsp_trans {ctx} (s1 s2 s3 : RpcState ctx) :
  same_rsp s1 s2 → same_rsp s2 s3 → same_rsp s1 s3.
Proof. unfold same_rsp. congruence. Qed.

Lemma call_same_log {ctx A} (op : M (World ctx) A) : keeps same_log (call ctx op).
Proof. intros s. unfold call. by destruct (op (world s)). Qed.
Lemma call_same_rsp {ctx A} (op : M (World ctx) A) : keeps same_rsp (call ctx op).
Proof. intros s. unfold call. by destruct (op (world s)). Qed.
Lemma on_rsp_same_log {ctx} f : keeps same_log (on_rsp ctx f).
Proof. by intros s. Qed.
Lemma on_rsp_same_world {ctx} f : keeps same_world (on_rsp ctx f).
Proof. by intros s. Qed.

Lemma same_log_refl {ctx} (s : RpcState ctx) : same_log s s.
Proof. reflexivity. Qed.
Lemma same_world_refl {ctx} (s : RpcState ctx) : same_world s s.
Proof. reflexivity. Qed.
Lemma same_rsp_refl {ctx} (s : RpcState ctx) : same_rsp s s.
Proof. reflexivity. Qed.

(** One step of a proof that a handler keeps a relation. *)
Ltac keeps_step refl trans :=
  first
    [ match goal with H : _ |- _ => solve [apply H] end
    | apply keeps_ret; exact (refl _)
    | apply keeps_deref; exact (refl _)
    | apply call_same_log | apply call_same_rsp
    | apply on_rsp_same_log | apply on_rsp_same_world
    | apply keeps_bind; [exact (trans _) | | intros ?]
    | match goal with
      | |- keeps _ (match ?x with _ => _ end) => destruct x
      | |- keeps _ (if ?b then _ else _) => destruct b
      end ].
Ltac keeps_log := repeat keeps_step constr:(@same_log_refl) constr:(@same_log_trans).
Ltac keeps_world := repeat keeps_step constr:(@same_world_refl) constr:(@same_world_trans).
Ltac keeps_rsp := repeat keeps_step constr:(@same_rsp_refl) constr:(@same_rsp_trans).

Lemma ListProperty_loop_same_log ctx names : keeps same_log (ListProperty_loop ctx names).
Proof. induction names; simpl; keeps_log. Qed.
Lemma ListData_loop_same_log ctx names : keeps same_log (ListData_loop ctx names).
Proof. induction names; simpl; keeps_log. Qed.
Lemma ListVolumes_loop_same_log ctx names : keeps same_log (ListVolumes_loop ctx names).
Proof. induction names; simpl; keeps_log. Qed.

(** No handler writes to the log. *)
Lemma handler_of_same_log ctx m req cred : keeps same_log (handler_of ctx m req cred).
Proof.
  pose proof (ListProperty_loop_same_log ctx).
  pose proof (ListData_loop_same_log ctx).
  pose proof (ListVolumes_loop_same_log ctx).
  destruct m; cbn [handler_of];
    unfold replying, deferring, CreateContainer, DestroyContainer, StartContainer,
      StopContainer, PauseContainer, ResumeContainer, Kill, SetContainerProperty,
      on_container, ListContainers, GetContainerProperty, GetContainerData,
      ListProperty, ListData, Version, CreateVolume, DestroyVolume, ListVolumes;
    keeps_log.
Qed.

(** ** The dispatcher: the shape of every reply *)

Lemma around_try_shape ctx req (body : Rpc ctx (TError * bool)) s b s' :
  keeps same_log body →
  around_try ctx req body s = Returns b s' →
  rpclog s' = rpclog s ++ [LogRequest req] ++ (if b then [LogResponse (rsp s')] else [])
  ∧ is_Some (rsp_error (rsp s')) ∧ is_Some (rsp_errormsg (rsp s'))
  ∧ (b = false →
     ∃ error s1, body (at_try req s) = Returns (error, false) s1
                 ∧ rsp_error (rsp s') = Some (GetError error)).
Proof.
  intros Hlog. specialize (Hlog (at_try req s)). unfold_around. fold (at_try req s).
  destruct (body (at_try req s)) as [[error [|]] s1|e s1|]; simpl;
    [| | |discriminate]; intros [= <- <-]; simpl; unfold same_log in Hlog;
    rewrite Hlog; simpl; rewrite <- ?app_assoc; repeat split; eauto; try discriminate.
Qed.

Lemma dispatched_same_log ctx req cred :
  keeps same_log
    match set_variants req with
    | [] => m_ret (mkTError EError.InvalidMethod "invalid RPC method", true)
    | m :: _ => handler_of ctx m req cred
    end.
Proof.
  destruct (set_variants req); [by intros s | apply handler_of_same_log].
Qed.

Lemma replying_not_false ctx (h : Rpc ctx TError) s error s1 :
  replying ctx h s ≠ Returns (error, false) s1.
Proof. unfold replying, m_bind. destruct (h s); simpl; unfold m_ret; congruence. Qed.

Lemma deferring_false ctx (h : Rpc ctx TError) s error s1 :
  deferring ctx h s = Returns (error, false) s1 → GetError error = EError.Success.
Proof.
  unfold deferring, m_bind. destruct (h s) as [e s2| |]; simpl; [|done|done].
  unfold m_ret. destruct (TError.to_bool e) eqn:E; simpl; intros [= <- _].
  unfold TError.to_bool in E. apply bool_decide_eq_false in E.
  by destruct (decide (GetError e = EError.Success)).
Qed.

(** Whenever the dispatcher returns, the response carries an error kind and
    a message, and the log has gained the request and, exactly when the
    reply is to be sent, the response as it is returned. The reply is
    withheld only for a createvolume or destroyvolume request whose handler
    succeeded. *)
Theorem dispatcher_reply_shape ctx req cred s b s' :
  HandleRpcRequest ctx req cred s = Returns b s' →
  rpclog s' = rpclog s ++ [LogRequest req] ++ (if b then [LogResponse (rsp s')] else [])
  ∧ is_Some (rsp_error (rsp s')) ∧ is_Some (rsp_errormsg (rsp s'))
  ∧ (b = false →
     rsp_error (rsp s') = Some EError.Success
     ∧ (head (set_variants req) = Some m_createvolume
        ∨ head (set_variants req) = Some m_destroyvolume)).
Proof.
  rewrite HandleRpcRequest_first_set. intros H.
  apply around_try_shape in H as (Hlog & He & Hm & Hb); [|apply dispatched_same_log].
  repeat split; try done; specialize (Hb H) as (error & s1 & Hbody & Herr).
  - rewrite Herr. f_equal.
    destruct (set_variants req) as [|[] rest]; cbn [handler_of] in Hbody;
      try (by apply replying_not_false in Hbody);
      try (by apply deferring_false in Hbody).
    discriminate.
  - destruct (set_variants req) as [|[] rest]; cbn [handler_of] in Hbody;
      try (by apply replying_not_false in Hbody); simpl; eauto.
    discriminate.
Qed.

Lemma dispatcher_reply_shape_witness :
  rpclog (toy_reply (req_getproperty "a" "command"))
  = rpclog toy_init ++ [LogRequest (req_getproperty "a" "command")]
    ++ (if true then [LogResponse (rsp (toy_reply (req_getproperty "a" "command")))] else []).
Proof.
  apply (dispatcher_reply_shape toy (req_getproperty "a" "command") root_cred toy_init true
           (toy_reply (req_getproperty "a" "command"))).
  reflexivity.
Defined.

(** ** The dispatcher: existence and permission checks *)

Lemma around_try_plain_reply ctx req (h : Rpc ctx TError) s error w :
  h (at_try req s) = Returns error (mkRpcState w (rsp (at_try req s)) (rpclog (at_try req s))) →
  around_try ctx req (replying ctx h) s = Returns true (plain_reply req s w error).
Proof.
  intros H. rewrite around_try_replying, H. unfold plain_reply. simpl.
  by rewrite <- app_assoc.
Qed.

Lemma on_container_missing ctx name cred op (s : RpcState ctx) w1 :
  Cholder_Get ctx name (world s) = Returns None w1 →
  on_container ctx name cred op s
  = Returns (mkTError EError.ContainerDoesNotExist "invalid name")
      (mkRpcState w1 (rsp s) (rpclog s)).
Proof. intros H. unfold on_container, m_bind, call. by rewrite H. Qed.

Lemma on_container_denied ctx name cred op (s : RpcState ctx) c w1 error w2 :
  Cholder_Get ctx name (world s) = Returns (Some c) w1 →
  CheckPermission ctx c cred w1 = Returns error w2 →
  TError.to_bool error = true →
  on_container ctx name cred op s = Returns error (mkRpcState w2 (rsp s) (rpclog s)).
Proof.
  intros H1 H2 H3. unfold on_container, m_bind, call. rewrite H1. simpl.
  rewrite H2. simpl. by rewrite H3.
Qed.

(** For destroy, setproperty, start, stop, pause, resume and kill: when the
    container exists and the permission check answers an error, the reply
    is that error, and the operation is not performed: the daemon is in the
    state the check left it in. *)
Theorem permission_error_stops_operation ctx req cred s m rest c w1 error w2 :
  set_variants req = m :: rest →
  m ∈ owner_checked →
  Cholder_Get ctx (target_name m req) (world s) = Returns (Some c) w1 →
  CheckPermission ctx c cred w1 = Returns error w2 →
  TError.to_bool error = true →
  HandleRpcRequest ctx req cred s = Returns true (plain_reply req s w2 error).
Proof.
  intros Hset Hm Hget Hperm Herr. rewrite HandleRpcRequest_first_set, Hset.
  unfold owner_checked in Hm.
  repeat (apply elem_of_cons in Hm as [->|Hm]); try (by apply elem_of_nil in Hm);
    cbn [handler_of target_name] in *; apply around_try_plain_reply;
    try (by apply (on_container_denied ctx _ cred _ _ c w1 error w2)).
  unfold DestroyContainer, m_bind, call. cbn [world at_try]. rewrite Hget. simpl.
  rewrite Hperm. simpl. by rewrite Herr.
Qed.

Lemma permission_error_stops_operation_witness :
  HandleRpcRequest toy (req_kill "a" 9) (mkTCred 1000 1000) toy_init
  = Returns true
      (plain_reply (req_kill "a" 9) toy_init (["a"] : World toy)
         (mkTError EError.PermissionDenied "Permission error")).
Proof.
  apply (permission_error_stops_operation toy (req_kill "a" 9) (mkTCred 1000 1000) toy_init
           m_kill [] "a" (["a"] : World toy)
           (mkTError EError.PermissionDenied "Permission error") (["a"] : World toy));
    try reflexivity.
  unfold owner_checked. set_solver.
Defined.

(** For getproperty, setproperty, getdata, start, stop, pause, resume and
    kill: when the holder has no container of the requested name, the reply
    is [ContainerDoesNotExist] with the message "invalid name", nothing is
    asked of any container, and the response gets no payload. *)
Theorem missing_container_refused ctx req cred s m rest w1 :
  set_variants req = m :: rest →
  m ∈ need_container →
  Cholder_Get ctx (target_name m req) (world s) = Returns None w1 →
  HandleRpcRequest ctx req cred s
  = Returns true
      (plain_reply req s w1 (mkTError EError.ContainerDoesNotExist "invalid name")).
Proof.
  intros Hset Hm Hget. rewrite HandleRpcRequest_first_set, Hset.
  unfold need_container in Hm.
  repeat (apply elem_of_cons in Hm as [->|Hm]); try (by apply elem_of_nil in Hm);
    cbn [handler_of target_name] in *; apply around_try_plain_reply;
    try (by apply on_container_missing).
  - by apply GetContainerProperty_no_container.
  - by apply GetContainerData_no_container.
Qed.

Lemma missing_container_refused_witness :
  HandleRpcRequest toy (req_getdata "zz" "state") root_cred toy_init
  = Returns true
      (plain_reply (req_getdata "zz" "state") toy_init (["a"] : World toy)
         (mkTError EError.ContainerDoesNotExist "invalid name")).
Proof.
  apply (missing_container_refused toy (req_getdata "zz" "state") root_cred toy_init
           m_getdata [] (["a"] : World toy)); try reflexivity.
  unfold need_container. set_solver.
Defined.

(** Create and destroy look the name up first. Create on a name that exists
    is refused with [ContainerAlreadyExists] and the holder is not asked to
    create. Destroy on a name that does not exist makes no permission check
    and is answered by the holder's own [Destroy]. *)
Theorem create_destroy_existence ctx req cred s rest :
  (∀ c w1,
     set_variants req = m_create :: rest →
     Cholder_Get ctx (target_name m_create req) (world s) = Returns (Some c) w1 →
     HandleRpcRequest ctx req cred s
     = Returns true
         (plain_reply req s w1 (mkTError EError.ContainerAlreadyExists "invalid name")))
  ∧ (∀ w1 error w2,
       set_variants req = m_destroy :: rest →
       Cholder_Get ctx (target_name m_destroy req) (world s) = Returns None w1 →
       Cholder_Destroy ctx (target_name m_destroy req) w1 = Returns error w2 →
       HandleRpcRequest ctx req cred s = Returns true (plain_reply req s w2 error)).
Proof.
  split.
  - intros c w1 Hset Hget. rewrite HandleRpcRequest_first_set, Hset.
    cbn [handler_of target_name] in *. apply around_try_plain_reply.
    unfold CreateContainer, m_bind, call. cbn [world at_try]. by rewrite Hget.
  - intros w1 error w2 Hset Hget Hdestroy. rewrite HandleRpcRequest_first_set, Hset.
    cbn [handler_of target_name] in *. apply around_try_plain_reply.
    unfold DestroyContainer, m_bind, call. cbn [world at_try]. rewrite Hget. simpl.
    by rewrite Hdestroy.
Qed.

Lemma create_destroy_existence_witness :
  HandleRpcRequest toy
    (rpc.mkRequest (Some (mkNameReq "a")) None None None None None None None None None None
       None None None None None None) root_cred toy_init
  = Returns true
      (plain_reply
         (rpc.mkRequest (Some (mkNameReq "a")) None None None None None None None None None
            None None None None None None None) toy_init (["a"] : World toy)
         (mkTError EError.ContainerAlreadyExists "invalid name")).
Proof.
  apply (proj1 (create_destroy_existence toy
           (rpc.mkRequest (Some (mkNameReq "a")) None None None None None None None None None
              None None None None None None None) root_cred toy_init []) "a"
           (["a"] : World toy)); reflexivity.
Defined.

(** ** The dispatcher: the methods that answer without a payload *)

Lemma payload_free_same_rsp ctx m req cred :
  m ∈ payload_free → keeps same_rsp (handler_of ctx m req cred).
Proof.
  unfold payload_free. intros Hm.
  repeat (apply elem_of_cons in Hm as [->|Hm]); try (by apply elem_of_nil in Hm);
    cbn [handler_of];
    unfold replying, deferring, CreateContainer, DestroyContainer, StartContainer,
      StopContainer, PauseContainer, ResumeContainer, Kill, SetContainerProperty,
      on_container, CreateVolume, DestroyVolume;
    keeps_rsp.
Qed.

(** For create, destroy, setproperty, start, stop, pause, resume, kill,
    createvolume and destroyvolume the response returned is the incoming
    one with only the error kind and message set, or the cleared response
    of a fault: these handlers never write a payload. *)
Theorem payload_free_reply ctx req cred s m rest b s' :
  set_variants req = m :: rest →
  m ∈ payload_free →
  HandleRpcRequest ctx req cred s = Returns b s' →
  (∃ error, rsp s' = final_response error (set_error EError.Unknown (rsp s)))
  ∨ (∃ e, rsp s' = fault_response e).
Proof.
  intros Hset Hm. rewrite HandleRpcRequest_first_set, Hset.
  pose proof (payload_free_same_rsp ctx m req cred Hm (at_try req s)) as Hk.
  unfold_around. fold (at_try req s).
  destruct (handler_of ctx m req cred (at_try req s)) as [[error b1] s1|e s1|];
    simpl; [| |discriminate].
  - unfold same_rsp in Hk. simpl in Hk.
    destruct b1; simpl; intros [= <- <-]; left; exists error; simpl;
      unfold final_response; by rewrite Hk.
  - intros [= <- <-]. right. by exists e.
Qed.

Lemma payload_free_reply_witness :
  (∃ error, rsp (toy_reply req_create_b)
            = final_response error (set_error EError.Unknown (rsp toy_init)))
  ∨ (∃ e, rsp (toy_reply req_create_b) = fault_response e).
Proof.
  apply (payload_free_reply toy req_create_b root_cred toy_init m_create [] true
           (toy_reply req_create_b)); [reflexivity | | reflexivity].
  unfold payload_free. set_solver.
Defined.

(** ** The list handlers *)

Lemma foldl_list_add_name names : ∀ r,
  foldl (λ r name, list_add_name name r) r names
  = match names with
    | [] => r
    | _ => with_list (default [] (rsp_list r) ++ names) r
    end.
Proof.
  induction names as [|name names IH] using rev_ind; intros r; [done|].
  rewrite foldl_app. simpl. rewrite IH.
  destruct names as [|n names]; simpl; [done|].
  unfold list_add_name, with_list. simpl. by rewrite <- app_assoc.
Qed.

(** The list handler answers the names of the holder, in the holder's
    order, after the names the response already held; when the holder has
    no container, the list field of the response is left as it was (unset
    in a fresh response). *)
Theorem ListContainers_names ctx (s : RpcState ctx) names w :
  Cholder_List ctx (world s) = Returns names w →
  ListContainers ctx s
  = Returns TError.Success
      (mkRpcState w
         match names with
         | [] => rsp s
         | _ => with_list (default [] (rsp_list (rsp s)) ++ names) (rsp s)
         end
         (rpclog s)).
Proof.
  intros H. unfold ListContainers, m_bind, call, on_rsp, m_modify. rewrite H. simpl.
  by rewrite foldl_list_add_name.
Qed.

Lemma ListContainers_names_witness :
  ListContainers toy toy_init
  = Returns TError.Success (mkRpcState (["a"] : World toy) (with_list ["a"] cleared) []).
Proof.
  apply (ListContainers_names toy toy_init ["a"] (["a"] : World toy)). reflexivity.
Defined.

Lemma volumelist_fill_add d r :
  volumelist_fill d (volumelist_add r)
  = with_volumelist (default [] (rsp_volumelist r) ++ [d]) r.
Proof.
  unfold volumelist_fill, volumelist_add, with_volumelist. simpl.
  by rewrite removelast_last.
Qed.

Lemma foldl_volumelist ds : ∀ r,
  foldl (λ r d, volumelist_fill d (volumelist_add r)) r ds
  = match ds with
    | [] => r
    | _ => with_volumelist (default [] (rsp_volumelist r) ++ ds) r
    end.
Proof.
  induction ds as [|d ds IH] using rev_ind; intros r; [done|].
  rewrite foldl_app. simpl. rewrite IH, volumelist_fill_add.
  destruct ds as [|d0 ds]; simpl; [done|].
  unfold with_volumelist. simpl. by rewrite <- app_assoc.
Qed.

Lemma ListVolumes_loop_resolved ctx (vol : string → Volume ctx) w names : ∀ r l,
  (∀ n, n ∈ names → Vholder_Get ctx n w = Returns (Some (vol n)) w) →
  ListVolumes_loop ctx names (mkRpcState w r l)
  = Returns tt
      (mkRpcState w
         (foldl (λ r d, volumelist_fill d (volumelist_add r)) r (describe ctx ∘ vol <$> names))
         l).
Proof.
  induction names as [|n names IH]; intros r l Hget; [done|].
  cbn [ListVolumes_loop]. unfold m_bind at 1 2, on_rsp, m_modify, call at 1.
  cbn [world rsp rpclog]. rewrite (Hget n) by apply list_elem_of_here.
  unfold m_deref, m_bind. cbn [world rsp rpclog].
  rewrite IH by (intros n' Hn'; apply Hget; by apply list_elem_of_further).
  reflexivity.
Qed.

(** When every name the volume holder lists resolves to a volume, and the
    lookups leave the daemon as it is, the listvolumes handler answers one
    description per name, in the holder's order, with the name, source,
    quota and flags of the volume; with no volume the field is left as it
    was. *)
Theorem ListVolumes_descriptions ctx (s : RpcState ctx) names w (vol : string → Volume ctx) :
  Vholder_List ctx (world s) = Returns names w →
  (∀ n, n ∈ names → Vholder_Get ctx n w = Returns (Some (vol n)) w) →
  ListVolumes ctx s
  = Returns TError.Success
      (mkRpcState w
         match names with
         | [] => rsp s
         | _ => with_volumelist
                  (default [] (rsp_volumelist (rsp s)) ++ (describe ctx ∘ vol <$> names))
                  (rsp s)
         end
         (rpclog s)).
Proof.
  intros Hlist Hget. unfold ListVolumes, m_bind at 1, call. rewrite Hlist.
  cbv beta iota. unfold m_bind. rewrite (ListVolumes_loop_resolved ctx vol w names) by done.
  simpl. rewrite foldl_volumelist. by destruct names.
Qed.

Lemma ListVolumes_loop_unresolved ctx (vol : string → Volume ctx) w w' n after before :
  Vholder_Get ctx n w = Returns None w' →
  (∀ n', n' ∈ before → Vholder_Get ctx n' w = Returns (Some (vol n')) w) →
  ∀ r l, ListVolumes_loop ctx (before ++ n :: after) (mkRpcState w r l) = Undefined.
Proof.
  intros Hnone. induction before as [|b before IH]; intros Hget r l.
  - cbn [app ListVolumes_loop]. unfold m_bind at 1 2, on_rsp, m_modify, call at 1.
    cbn [world rsp rpclog]. by rewrite Hnone.
  - cbn [app ListVolumes_loop]. unfold m_bind at 1 2, on_rsp, m_modify, call at 1.
    cbn [world rsp rpclog]. rewrite (Hget b) by apply list_elem_of_here.
    unfold m_deref, m_bind. cbn [world rsp rpclog].
    apply IH. intros n' Hn'. apply Hget. by apply list_elem_of_further.
Qed.

(** A name the holder lists but does not resolve is fatal: the handler
    dereferences the null volume, after the descriptions of the names
    before it. *)
Theorem ListVolumes_unresolved ctx (s : RpcState ctx) before n after w w'
    (vol : string → Volume ctx) :
  Vholder_List ctx (world s) = Returns (before ++ n :: after) w →
  (∀ n', n' ∈ before → Vholder_Get ctx n' w = Returns (Some (vol n')) w) →
  Vholder_Get ctx n w = Returns None w' →
  ListVolumes ctx s = Undefined.
Proof.
  intros Hlist Hget Hnone. unfold ListVolumes, m_bind at 1, call. rewrite Hlist.
  cbv beta iota. unfold m_bind at 1.
  by rewrite (ListVolumes_loop_unresolved ctx vol w w' n after before Hnone Hget).
Qed.

(** ** The volume handlers: when the reply is withheld *)

(** Createvolume builds the volume and creates it; destroyvolume, on a
    volume that exists and passes the permission check, destroys it. In
    both, an error is replied as usual, and a success is not replied: the
    dispatcher returns false, with the response set to success and no
    response line in the log. *)
Theorem volume_success_withholds_reply ctx req cred s rest :
  (∀ v w1 err w2,
     set_variants req = m_createvolume :: rest →
     TVolume_make ctx (vol_name (default default_vol_req (rpc.createvolume req)))
       (vol_source (default default_vol_req (rpc.createvolume req)))
       (vol_quota (default default_vol_req (rpc.createvolume req)))
       (vol_flags (default default_vol_req (rpc.createvolume req))) cred (world s)
     = Returns v w1 →
     Volume_Create ctx v w1 = Returns err w2 →
     HandleRpcRequest ctx req cred s
     = if TError.to_bool err then Returns true (plain_reply req s w2 err)
       else Returns false (withheld_reply req s w2))
  ∧ (∀ v w1 perm w2 err w3,
       set_variants req = m_destroyvolume :: rest →
       Vholder_Get ctx (target_name m_destroyvolume req) (world s) = Returns (Some v) w1 →
       Volume_CheckPermission ctx v cred w1 = Returns perm w2 →
       TError.to_bool perm = false →
       Volume_Destroy ctx v w2 = Returns err w3 →
       HandleRpcRequest ctx req cred s
       = if TError.to_bool err then Returns true (plain_reply req s w3 err)
         else Returns false
                (mkRpcState w3 (final_response err (set_error EError.Unknown (rsp s)))
                   (rpclog s ++ [LogRequest req]))).
Proof.
  split.
  - intros v w1 err w2 Hset Hmake Hcreate. rewrite HandleRpcRequest_first_set, Hset.
    cbn [handler_of]. unfold_around. unfold deferring, CreateVolume, m_bind, call.
    cbn [world]. rewrite Hmake. simpl. rewrite Hcreate. simpl.
    destruct (TError.to_bool err) eqn:E; simpl.
    + rewrite E. simpl. unfold plain_reply. simpl. by rewrite <- app_assoc.
    + reflexivity.
  - intros v w1 perm w2 err w3 Hset Hget Hperm Hok Hdestroy.
    rewrite HandleRpcRequest_first_set, Hset.
    cbn [handler_of target_name] in *. unfold_around.
    unfold deferring, DestroyVolume, m_bind, call.
    cbn [world]. rewrite Hget. simpl. rewrite Hperm. simpl. rewrite Hok.
    simpl. rewrite Hdestroy. simpl.
    destruct (TError.to_bool err) eqn:E; simpl.
    + unfold plain_reply. simpl. by rewrite <- app_assoc.
    + reflexivity.
Qed.

Lemma volume_success_withholds_reply_witness :
  HandleRpcRequest toy
    (rpc.mkRequest None None None None None None None None None None None None None None
       (Some (mkVolumeCreateReq "v" "/src" "1G" "")) None None) root_cred toy_init
  = Returns false
      (withheld_reply
         (rpc.mkRequest None None None None None None None None None None None None None None
            (Some (mkVolumeCreateReq "v" "/src" "1G" "")) None None)
         toy_init (["a"] : World toy)).
Proof.
  apply (proj1 (volume_success_withholds_reply toy
           (rpc.mkRequest None None None None None None None None None None None None None
              None (Some (mkVolumeCreateReq "v" "/src" "1G" "")) None None)
           root_cred toy_init []) "v" (["a"] : World toy) TError.Success (["a"] : World toy));
    reflexivity.
Defined.

Lemma ListVolumes_descriptions_witness :
  ListVolumes (toy_volumes ["v1"; "v2"] ["v1"; "v2"]) (toy_volumes_init ["v1"; "v2"] ["v1"; "v2"])
  = Returns TError.Success
      (mkRpcState (["a"] : World (toy_volumes ["v1"; "v2"] ["v1"; "v2"]))
         (with_volumelist
            [ mkVolumeDescription "v1" "/place/v1" "1G" "";
              mkVolumeDescription "v2" "/place/v2" "1G" "" ] cleared) []).
Proof.
  apply (ListVolumes_descriptions (toy_volumes ["v1"; "v2"] ["v1"; "v2"])
           (toy_volumes_init ["v1"; "v2"] ["v1"; "v2"]) ["v1"; "v2"]
           (["a"] : World (toy_volumes ["v1"; "v2"] ["v1"; "v2"])) (λ n, n)).
  - reflexivity.
  - intros n Hn. simpl. by rewrite bool_decide_eq_true_2.
Defined.

Lemma ListVolumes_unresolved_witness :
  ListVolumes (toy_volumes ["v1"; "gone"] ["v1"]) (toy_volumes_init ["v1"; "gone"] ["v1"])
  = Undefined.
Proof.
  apply (ListVolumes_unresolved (toy_volumes ["v1"; "gone"] ["v1"])
           (toy_volumes_init ["v1"; "gone"] ["v1"]) ["v1"] "gone" []
           (["a"] : World (toy_volumes ["v1"; "gone"] ["v1"]))
           (["a"] : World (toy_volumes ["v1"; "gone"] ["v1"])) (λ n, n)).
  - reflexivity.
  - intros n Hn. simpl. by rewrite bool_decide_eq_true_2.
  - reflexivity.
Defined.

(** ** The logger *)

Section LoggerFacts.
Variable env : LogEnv.

Lemma OpenLog_ok (s : LogState env) :
  logFile_open s && kmsgFile_open s = false →
  logFile_open (TLogger_.OpenLog env s) && kmsgFile_open (TLogger_.OpenLog env s) = false
  ∧ openlog (TLogger_.OpenLog env s) = openlog s
  ∧ written (TLogger_.OpenLog env s) = written s
  ∧ stat_warns (TLogger_.OpenLog env s) = stat_warns s
  ∧ stat_errors (TLogger_.OpenLog env s) = stat_errors s
  ∧ logPath (TLogger_.OpenLog env s) = logPath s
  ∧ stdlog (TLogger_.OpenLog env s) = stdlog s
  ∧ verbose (TLogger_.OpenLog env s) = verbose s.
Proof.
  destruct s as [lf kf lp lm sl vb ol f sw se wr]. unfold TLogger_.OpenLog. simpl.
  intros H. destruct lf; [done|].
  destruct (negb (DirAccessOk env lp f)).
  - destruct kf; simpl; [done|].
    destruct (open_kmsg env f) as [opened f']. done.
  - destruct (if PathExists env lp f then _ else _) as [needCreate f1].
    destruct (open_app env lp _) as [opened f3]. simpl.
    destruct opened, kf; done.
Qed.

Lemma StatInc_fields level (s : LogState env) :
  logFile_open (TLogger_.StatInc env level s) = logFile_open s
  ∧ kmsgFile_open (TLogger_.StatInc env level s) = kmsgFile_open s
  ∧ openlog (TLogger_.StatInc env level s) = openlog s
  ∧ fs (TLogger_.StatInc env level s) = fs s
  ∧ written (TLogger_.StatInc env level s) = written s
  ∧ stdlog (TLogger_.StatInc env level s) = stdlog s
  ∧ logPath (TLogger_.StatInc env level s) = logPath s
  ∧ verbose (TLogger_.StatInc env level s) = verbose s
  ∧ stat_warns (TLogger_.StatInc env level s) = (stat_warns s + counts_warn env level)%nat
  ∧ stat_errors (TLogger_.StatInc env level s) = (stat_errors s + counts_error env level)%nat.
Proof.
  unfold TLogger_.StatInc, counts_warn, counts_error.
  destruct (PORTOD env), level; simpl; repeat split; lia.
Qed.

Lemma put_line_ok level text (s : LogState env) :
  log_ok s →
  log_ok (TLogger_.put_line env level text s)
  ∧ (∃ sink head,
       written (TLogger_.put_line env level text s) = written s ++ [(sink, head +:+ text)])
  ∧ stat_warns (TLogger_.put_line env level text s)
    = (stat_warns s + counts_warn env level)%nat
  ∧ stat_errors (TLogger_.put_line env level text s)
    = (stat_errors s + counts_error env level)%nat
  ∧ verbose (TLogger_.put_line env level text s) = verbose s
  ∧ stdlog (TLogger_.put_line env level text s) = stdlog s.
Proof.
  intros [Hopen Hfiles]. unfold log_ok, TLogger_.put_line, TLogger_.Log.
  destruct (StatInc_fields level s) as (F1 & F2 & F3 & F4 & F5 & F6 & F7 & F8 & F9 & F10).
  set (s0 := TLogger_.StatInc env level s) in *.
  destruct (stdlog s0) eqn:Estd.
  - simpl. rewrite F1, F2, F3, F5, F9, F10, F8. repeat split; eauto; congruence.
  - rewrite F3, Hopen. simpl.
    pose proof (OpenLog_ok (TLogger_.set_openlog env (0 + 1) s0)) as Ho.
    simpl in Ho. rewrite F1, F2 in Ho. specialize (Ho Hfiles).
    destruct Ho as (O1 & O2 & O3 & O4 & O5 & O6 & O7 & O8).
    set (s1 := TLogger_.OpenLog env _) in *.
    destruct (logFile_open s1) eqn:E1; [|destruct (kmsgFile_open s1) eqn:E2]; simpl;
      rewrite ?E1, ?E2, ?O2, ?O3, ?O4, ?O5, ?O7, ?O8, ?F5, ?F9, ?F10, ?F8; simpl;
      repeat split; eauto; congruence.
Qed.

(** The logger keeps itself at rest: after [InitLog], [LogToStd],
    [OpenLog], [CloseLog] and after every line written by [LogAction],
    [LogRequest] and [LogResponse], it is outside [Log] again and the log
    file and /dev/kmsg are not both open. *)
Theorem logger_stays_ok (s : LogState env) path mode verb action error errcode message :
  log_ok s →
  log_ok (TLogger_.InitLog env path mode verb s)
  ∧ log_ok (TLogger_.LogToStd env s)
  ∧ log_ok (TLogger_.OpenLog env s)
  ∧ log_ok (TLogger_.CloseLog env s)
  ∧ log_ok (TLogger_.LogAction env action error errcode s)
  ∧ log_ok (TLogger_.LogRequest env message s)
  ∧ log_ok (TLogger_.LogResponse env message s).
Proof.
  intros Hok. pose proof Hok as [Hopen Hfiles].
  repeat split; try done.
  - destruct (OpenLog_ok s Hfiles) as (_ & -> & _). done.
  - by destruct (OpenLog_ok s Hfiles) as (-> & _).
  - unfold TLogger_.LogAction.
    destruct (negb error && verbose s); [by apply put_line_ok|].
    destruct error; [by apply put_line_ok | done].
  - unfold TLogger_.LogAction.
    destruct (negb error && verbose s); [by apply put_line_ok|].
    destruct error; [by apply put_line_ok | done].
  - by apply put_line_ok.
  - by apply put_line_ok.
  - by apply put_line_ok.
  - by apply put_line_ok.
Qed.

(** [LogAction] writes nothing and changes nothing for a success when the
    logger is not verbose; otherwise it writes exactly one line, that ends
    with the action for a success and with the action, a colon and
    [strerror] of the code for an error. It never counts in the statistics
    of warnings and errors, also when it reports an error. *)
Theorem LogAction_lines (s : LogState env) action error errcode :
  log_ok s →
  (error = false → verbose s = false → TLogger_.LogAction env action error errcode s = s)
  ∧ (error = false → verbose s = true →
     ∃ sink head,
       written (TLogger_.LogAction env action error errcode s)
       = written s ++ [(sink, head +:+ " Ok: " +:+ action)])
  ∧ (error = true →
     ∃ sink head,
       written (TLogger_.LogAction env action error errcode s)
       = written s ++ [(sink, head +:+ " Error: " +:+ action +:+ ": "
                                +:+ strerror env errcode)])
  ∧ stat_warns (TLogger_.LogAction env action error errcode s) = stat_warns s
  ∧ stat_errors (TLogger_.LogAction env action error errcode s) = stat_errors s.
Proof.
  intros Hok. unfold TLogger_.LogAction.
  assert (Hw : counts_warn env LOG_NOTICE = 0%nat) by (unfold counts_warn; by destruct (PORTOD env)).
  assert (He : counts_error env LOG_NOTICE = 0%nat) by (unfold counts_error; by destruct (PORTOD env)).
  destruct error, (verbose s) eqn:Ev; simpl; repeat split; try done;
    try (intros _; try intros _);
    match goal with
    | |- context [TLogger_.put_line env LOG_NOTICE ?t s] =>
        destruct (put_line_ok LOG_NOTICE t s Hok) as (_ & Hl & H1 & H2 & _)
    end; rewrite ?H1, ?H2, ?Hw, ?He; try lia; done.
Qed.

End LoggerFacts.

Lemma logger_stays_ok_witness :
  log_ok (TLogger_.LogRequest log_env_ex "list { }" (log_init_ex "/var/log/portod.log")).
Proof.
  assert (H : log_ok (log_init_ex "/var/log/portod.log")) by (split; reflexivity).
  exact (proj1 (proj2 (proj2 (proj2 (proj2 (proj2
    (logger_stays_ok log_env_ex (log_init_ex "/var/log/portod.log") "" 0 false "" false 0
       "list { }" H))))))).
Defined.

Lemma LogAction_lines_witness :
  stat_errors (TLogger_.LogAction log_env_ex "mount" true 2 (log_init_ex "/var/log/portod.log"))
  = stat_errors (log_init_ex "/var/log/portod.log").
Proof.
  assert (H : log_ok (log_init_ex "/var/log/portod.log")) by (split; reflexivity).
  exact (proj2 (proj2 (proj2 (proj2
    (LogAction_lines log_env_ex (log_init_ex "/var/log/portod.log") "mount" true 2 H))))).
Defined.

Example LogAction_error_line :
  written (TLogger_.LogAction log_env_ex "mount" true 2 (log_init_ex "/var/log/portod.log"))
  = [(ToLogFile "/var/log/portod.log",
      "Thu Jan  1 00:00:00 1970  Error: mount: No such file or directory")].
Proof. reflexivity. Qed.

Example Log_falls_back_to_kmsg :
  written (TLogger_.put_line log_env_ex LOG_WARN "low memory" (log_init_ex "/nowhere/portod.log"))
  = [(ToKmsg, " portod: Warning! low memory")].
Proof. reflexivity. Qed.

Lemma OpenLog_fs {env} (s : LogState env) :
  logFile_open s = true → TLogger_.OpenLog env s = s.
Proof. intros H. unfold TLogger_.OpenLog. by rewrite H. Qed.

(** Where [Log] sends a line. The stream is the log file only when the
    logger does not log to the standard error and the file is open after
    the call, and then /dev/kmsg is closed; it is /dev/kmsg only when the
    log file is not open; it is the standard error when [LogToStd] was
    called or when neither file is open. After [LogToStd], and when the log
    file is already open, the call opens nothing and leaves the file system
    alone. *)
Theorem Log_stream {env} (s : LogState env) level :
  log_ok s →
  match (TLogger_.Log env level s).2.1 with
  | ToCerr =>
      stdlog s = true
      ∨ (logFile_open (TLogger_.Log env level s).1 = false
         ∧ kmsgFile_open (TLogger_.Log env level s).1 = false)
  | ToLogFile p =>
      stdlog s = false ∧ p = logPath s
      ∧ logFile_open (TLogger_.Log env level s).1 = true
      ∧ kmsgFile_open (TLogger_.Log env level s).1 = false
  | ToKmsg =>
      stdlog s = false
      ∧ logFile_open (TLogger_.Log env level s).1 = false
      ∧ kmsgFile_open (TLogger_.Log env level s).1 = true
  end
  ∧ (stdlog s = true ∨ logFile_open s = true →
     fs (TLogger_.Log env level s).1 = fs s
     ∧ logFile_open (TLogger_.Log env level s).1 = logFile_open s
     ∧ kmsgFile_open (TLogger_.Log env level s).1 = kmsgFile_open s).
Proof.
  intros [Hopen Hfiles]. unfold TLogger_.Log.
  destruct (StatInc_fields env level s) as (F1 & F2 & F3 & F4 & F5 & F6 & F7 & F8 & F9 & F10).
  set (s0 := TLogger_.StatInc env level s) in *.
  rewrite F6. destruct (stdlog s) eqn:Estd.
  - simpl. split; [by left|]. by rewrite F1, F2, F4.
  - rewrite F3, Hopen. simpl.
    pose proof (OpenLog_ok env (TLogger_.set_openlog env (0 + 1) s0)) as Ho.
    simpl in Ho. rewrite F1, F2 in Ho. specialize (Ho Hfiles).
    destruct Ho as (O1 & O2 & O3 & O4 & O5 & O6 & O7 & O8).
    split.
    + set (s1 := TLogger_.OpenLog env _) in *.
      destruct (logFile_open s1) eqn:E1; [|destruct (kmsgFile_open s1) eqn:E2]; simpl;
        rewrite ?E1, ?E2; simpl in *; repeat split; try done; try congruence.
      by right.
    + intros [?|Hlf]; [done|].
      rewrite (OpenLog_fs (TLogger_.set_openlog env (0 + 1) s0)) by (simpl; congruence).
      simpl. rewrite F1, Hlf. simpl. rewrite F4, F1, F2. done.
Qed.

Lemma Log_stream_witness :
  (TLogger_.Log log_env_ex LOG_ERROR (log_init_ex "/var/log/portod.log")).2.1
  = ToLogFile "/var/log/portod.log"
  ∧ match (TLogger_.Log log_env_ex LOG_ERROR (log_init_ex "/var/log/portod.log")).2.1 with
    | ToCerr =>
        stdlog (log_init_ex "/var/log/portod.log") = true
        ∨ (logFile_open
             (TLogger_.Log log_env_ex LOG_ERROR (log_init_ex "/var/log/portod.log")).1 = false
           ∧ kmsgFile_open
               (TLogger_.Log log_env_ex LOG_ERROR (log_init_ex "/var/log/portod.log")).1 = false)
    | ToLogFile p =>
        stdlog (log_init_ex "/var/log/portod.log") = false
        ∧ p = logPath (log_init_ex "/var/log/portod.log")
        ∧ logFile_open
            (TLogger_.Log log_env_ex LOG_ERROR (log_init_ex "/var/log/portod.log")).1 = true
        ∧ kmsgFile_open
            (TLogger_.Log log_env_ex LOG_ERROR (log_init_ex "/var/log/portod.log")).1 = false
    | ToKmsg =>
        stdlog (log_init_ex "/var/log/portod.log") = false
        ∧ logFile_open
            (TLogger_.Log log_env_ex LOG_ERROR (log_init_ex "/var/log/portod.log")).1 = false
        ∧ kmsgFile_open
            (TLogger_.Log log_env_ex LOG_ERROR (log_init_ex "/var/log/portod.log")).1 = true
    end.
Proof.
  assert (H : log_ok (log_init_ex "/var/log/portod.log")) by (split; reflexivity).
  split; [reflexivity|].
  exact (proj1 (Log_stream (log_init_ex "/var/log/portod.log") LOG_ERROR H)).
Defined.

(** ** The client library *)

Section ClientFacts.
Context {Body Payload : Type}.
Variable Body_Clear : Body.
Variables Success Unknown : Z.
Variable strerror : Z → string.

Lemma open_sockets_app (a b : list (Porto.Syscall Body Payload)) :
  open_sockets (a ++ b) = open_sockets a + open_sockets b.
Proof. unfold open_sockets. induction a as [|e a IH]; simpl; lia. Qed.

Lemma sent_frames_app (a b : list (Porto.Syscall Body Payload)) :
  sent_frames (a ++ b) = sent_frames a ++ sent_frames b.
Proof. apply omap_app. Qed.

Lemma callbacks_app (a b : list (Porto.Syscall Body Payload)) :
  callbacks (a ++ b) = callbacks a ++ callbacks b.
Proof. apply omap_app. Qed.

Lemma wire_app (a b : list (Porto.Syscall Body Payload)) :
  wire (a ++ b) = wire a ++ wire b.
Proof. apply omap_app. Qed.

(** The requests written are those of the wire. *)
Lemma sent_frames_wire (evs : list (Porto.Syscall Body Payload)) :
  sent_frames evs
  = omap (λ x, match x with Sent q _ => Some q | _ => None end) (wire evs).
Proof.
  induction evs as [|e evs IH]; [done|].
  unfold sent_frames, wire, omap in *. simpl.
  destruct e as [? ?|? ? ? ? ?|? ? ? ?|?|? ? ?|fd res|?]; simpl; rewrite ?IH; try done.
  destruct res as [?|? ?|r]; simpl; rewrite ?IH; try done.
  by destruct (Porto.rsp_asyncwait r).
Qed.

Lemma Error_spec err prefix (c : Porto.ConnectionImpl Body Payload) w :
  ∃ c' w' evs,
    Porto.Error Unknown strerror err prefix (c, w) = (Unknown, (c', w'))
    ∧ Porto.trace w' = Porto.trace w ++ evs
    ∧ open_sockets evs = - Z.b2z (0 <=? Porto.Fd c)
    ∧ sent_frames evs = [] ∧ callbacks evs = []
    ∧ Porto.Fd c' = -1 ∧ Porto.LastError c' = Unknown
    ∧ same_settings c c' ∧ Porto.Req c' = Porto.Req c ∧ Porto.Rsp c' = Porto.Rsp c
    ∧ Porto.recv_tape w' = Porto.recv_tape w
    ∧ wire evs = [].
Proof.
  unfold Porto.Error, Porto.Close. simpl.
  destruct (0 <=? Porto.Fd c) eqn:E.
  - eexists _, _, [_]. repeat split.
  - eexists _, _, []. simpl. rewrite app_nil_r. repeat split.
Qed.

Lemma Error_transport err prefix (s s0 : Porto.Conn Body Payload) evs0 :
  Porto.trace s.2 = Porto.trace s0.2 ++ evs0 →
  open_sockets evs0 = 0 →
  Porto.Fd s.1 = Porto.Fd s0.1 →
  same_settings s0.1 s.1 →
  Porto.Req s.1 = Porto.Req s0.1 →
  ∃ s' evs,
    Porto.Error Unknown strerror err prefix s = (Unknown, s')
    ∧ (∀ Qok Qerr : Prop, Qerr →
         transport_step Success Unknown s0 Unknown s' (evs0 ++ evs) Qok Qerr)
    ∧ sent_frames evs = [] ∧ callbacks evs = [] ∧ Porto.Rsp s'.1 = Porto.Rsp s.1
    ∧ Porto.recv_tape s'.2 = Porto.recv_tape s.2 ∧ Porto.Fd s'.1 = -1
    ∧ wire evs = [].
Proof.
  destruct s as [c w]. cbn [fst snd]. intros Htr Hop Hfd Hset Hreq.
  destruct (Error_spec err prefix c w)
    as (c' & w' & evs & He & Ht & Ho & Hs & Hcb & Hf & Hl & Hs' & Hr & Hrsp & Htape & Hw).
  exists (c', w'), evs. split; [done|]. split; [|done].
  intros Qok Qerr HQ. unfold transport_step. cbn [fst snd]. rewrite Ht, Htr, <- app_assoc.
  split; [done|]. split.
  { unfold same_settings in *. intuition congruence. }
  split; [congruence|]. right. rewrite open_sockets_app, Hop, Ho, Hfd. done.
Qed.

Lemma Send_spec (s : Porto.Conn Body Payload) :
  ∃ ret s' evs,
    Porto.Send Success Unknown strerror s = (ret, s')
    ∧ transport_step Success Unknown s ret s' evs
        (wire evs = [Sent (Porto.Req s.1) true]) (wire evs = [Sent (Porto.Req s.1) false])
    ∧ sent_frames evs = [Porto.Req s.1] ∧ Porto.Rsp s'.1 = Porto.Rsp s.1.
Proof.
  destruct s as [c w]. unfold Porto.Send, Porto.write_frame.
  destruct (match Porto.send_tape w with [] => _ | _ => _ end) as [err t].
  cbv zeta. set (w1 := Porto.emit _ _).
  destruct (err =? 0) eqn:E; cbn [negb].
  - exists Success, (c, w1), [Porto.ev_send (Porto.Fd c) (Porto.Req c) err].
    split; [done|]. split; [|done].
    unfold transport_step, same_settings. simpl.
    split; [reflexivity|]. split; [done|]. split; [done|]. left.
    unfold wire. simpl. by rewrite E.
  - destruct (Error_transport err "send" (c, w1) (c, w)
                [Porto.ev_send (Porto.Fd c) (Porto.Req c) err])
      as (s' & evs & He & Hstep & Hs & _ & Hrsp & _ & _ & Hw); try done.
    exists Unknown, s', ([Porto.ev_send (Porto.Fd c) (Porto.Req c) err] ++ evs).
    split; [done|]. split.
    { apply Hstep. rewrite wire_app, Hw. unfold wire. simpl. by rewrite E. }
    split; [|done]. rewrite sent_frames_app, Hs. done.
Qed.

Lemma SetTimeout_spec direction timeout (s : Porto.Conn Body Payload) :
  ∃ ret s' evs,
    Porto.SetTimeout Success Unknown strerror direction timeout s = (ret, s')
    ∧ transport_step Success Unknown s ret s' evs (wire evs = []) (wire evs = [])
    ∧ sent_frames evs = [] ∧ Porto.Rsp s'.1 = Porto.Rsp s.1.
Proof.
  destruct s as [c w]. unfold Porto.SetTimeout.
  assert (Hopt : ∀ (b : bool) opt w0 evs0,
    Porto.trace w0 = Porto.trace w ++ evs0 → open_sockets evs0 = 0 → sent_frames evs0 = [] →
    wire evs0 = [] →
    ∃ ret errno w1 evs1,
      (if b then Porto.setsockopt (Porto.Fd c) opt timeout w0 else ((0, 0), w0))
      = ((ret, errno), w1)
      ∧ Porto.trace w1 = Porto.trace w ++ evs1 ∧ open_sockets evs1 = 0
      ∧ sent_frames evs1 = [] ∧ wire evs1 = []).
  { intros b opt w0 evs0 Ht Ho Hs Hw. destruct b.
    - unfold Porto.setsockopt.
      destruct (match Porto.setsockopt_tape w0 with [] => _ | _ => _ end) as [[ret errno] t].
      eexists ret, errno, _, (evs0 ++ [_]). split; [done|]. simpl.
      rewrite Ht, <- app_assoc, open_sockets_app, sent_frames_app, wire_app, Ho, Hs, Hw. done.
    - by exists 0, 0, w0, evs0. }
  destruct (Hopt (negb (Z.land direction 1 =? 0)) Porto.SO_SNDTIMEO w [])
    as (ret1 & errno1 & w1 & evs1 & -> & Ht1 & Ho1 & Hs1 & Hw1);
    [by rewrite app_nil_r|done|done|done|].
  destruct (ret1 =? 0) eqn:E1; cbn [negb].
  - destruct (Hopt (negb (Z.land direction 2 =? 0)) Porto.SO_RCVTIMEO w1 evs1)
      as (ret2 & errno2 & w2 & evs2 & -> & Ht2 & Ho2 & Hs2 & Hw2); [done..|].
    destruct (ret2 =? 0) eqn:E2; cbn [negb].
    + exists Success, (c, w2), evs2. split; [done|]. split; [|done].
      unfold transport_step, same_settings. simpl. repeat split; try done. left. done.
    + destruct (Error_transport errno2 "set recv timeout" (c, w2) (c, w) evs2)
        as (s' & evs & He & Hstep & Hs & _ & Hrsp & _ & _ & Hw); try done.
      exists Unknown, s', (evs2 ++ evs). split; [done|]. split.
      { apply Hstep. by rewrite wire_app, Hw, Hw2. }
      split; [|done]. rewrite sent_frames_app, Hs, Hs2. done.
  - destruct (Error_transport errno1 "set send timeout" (c, w1) (c, w) evs1)
      as (s' & evs & He & Hstep & Hs & _ & Hrsp & _ & _ & Hw); try done.
    exists Unknown, s', (evs1 ++ evs). split; [done|]. split.
    { apply Hstep. by rewrite wire_app, Hw, Hw1. }
    split; [|done]. rewrite sent_frames_app, Hs, Hs1. done.
Qed.

Lemma transport_step_prepend (s s1 s' : Porto.Conn Body Payload) ret evs0 evs
    (Qok Qerr Qok' Qerr' : Prop) :
  Porto.trace s1.2 = Porto.trace s.2 ++ evs0 →
  open_sockets evs0 = 0 →
  Porto.Fd s1.1 = Porto.Fd s.1 →
  Porto.LastError s1.1 = Porto.LastError s.1 →
  same_settings s.1 s1.1 →
  Porto.Req s1.1 = Porto.Req s.1 →
  (Qok → Qok') → (Qerr → Qerr') →
  transport_step Success Unknown s1 ret s' evs Qok Qerr →
  transport_step Success Unknown s ret s' (evs0 ++ evs) Qok' Qerr'.
Proof.
  intros Ht Ho Hf Hl Hs Hr Hok Herr (Ht' & Hs' & Hr' & H).
  unfold transport_step, same_settings in *.
  rewrite Ht', Ht, <- app_assoc, open_sockets_app, Ho.
  split; [done|]. split; [intuition congruence|]. split; [congruence|].
  destruct H as [(? & ? & ? & ? & ?)|(? & ? & ? & ? & ?)]; [left|right]; rewrite <- ?Hf;
    repeat split; try done; try congruence; try lia; auto.
Qed.

Lemma Recv_loop_spec frames : ∀ (c : Porto.ConnectionImpl Body Payload) w,
  ∃ ret s' evs,
    Porto.Recv_loop Success Unknown strerror frames c w = (ret, s')
    ∧ transport_step Success Unknown (c, w) ret s' evs
        (Porto.rsp_asyncwait (Porto.Rsp s'.1) = None ∧ wire evs = [Replied (Porto.Rsp s'.1)])
        (wire evs = [])
    ∧ sent_frames evs = []
    ∧ callbacks evs = (if Porto.AsyncWaitCallback c then leading_events frames else [])
    ∧ Porto.recv_tape s'.2 = drop 1 (after_events frames)
    ∧ match after_events frames with
      | Porto.Frame r :: _ => ret = Success ∧ Porto.Rsp s'.1 = r ∧ Porto.Fd s'.1 = Porto.Fd c
      | Porto.BadFrame partial _ :: _ =>
          ret = Unknown ∧ Porto.Rsp s'.1 = partial ∧ Porto.Fd s'.1 = -1
      | _ => ret = Unknown ∧ Porto.Fd s'.1 = -1
      end.
Proof.
  assert (Hfail : ∀ err (c c1 : Porto.ConnectionImpl Body Payload) w res rest,
    Porto.Fd c1 = Porto.Fd c → same_settings c c1 → Porto.Req c1 = Porto.Req c →
    wire ([Porto.ev_recv (Porto.Fd c) res] : list (Porto.Syscall Body Payload)) = [] →
    ∃ s' evs,
      Porto.Error Unknown strerror err "recv" (c1, Porto.read_frame (Porto.Fd c) res rest w)
      = (Unknown, s')
      ∧ transport_step Success Unknown (c, w) Unknown s' evs
          (Porto.rsp_asyncwait (Porto.Rsp s'.1) = None
           ∧ wire evs = [Replied (Porto.Rsp s'.1)])
          (wire evs = [])
      ∧ sent_frames evs = [] ∧ callbacks evs = []
      ∧ Porto.recv_tape s'.2 = rest ∧ Porto.Rsp s'.1 = Porto.Rsp c1 ∧ Porto.Fd s'.1 = -1).
  { intros err c c1 w res rest Hfd Hset Hreq Hres.
    destruct (Error_transport err "recv" (c1, Porto.read_frame (Porto.Fd c) res rest w) (c, w)
                [Porto.ev_recv (Porto.Fd c) res])
      as (s' & evs & He & Hstep & Hs & Hcb & Hrsp & Htape & Hfd' & Hw); try done.
    exists s', ([Porto.ev_recv (Porto.Fd c) res] ++ evs).
    split; [done|]. split.
    { apply Hstep. by rewrite wire_app, Hw, Hres. }
    rewrite sent_frames_app, callbacks_app, Hs, Hcb. done. }
  induction frames as [|f rest IH]; intros c w.
  - destruct (Hfail (Porto.errno_or_EIO 0) c c w (Porto.NoSize 0) []) as (s' & evs & H);
      [done..|].
    exists Unknown, s', evs. cbn [Porto.Recv_loop].
    destruct H as (-> & Hstep & Hs & Hcb & Htape & _ & Hfd).
    rewrite Hs, Hcb, Htape. by destruct (Porto.AsyncWaitCallback c).
  - destruct f as [errno|partial errno|r].
    + destruct (Hfail (Porto.errno_or_EIO errno) c c w (Porto.NoSize errno) rest)
        as (s' & evs & H); [done..|].
      exists Unknown, s', evs. cbn [Porto.Recv_loop].
      destruct H as (-> & Hstep & Hs & Hcb & Htape & _ & Hfd).
      rewrite Hs, Hcb, Htape. by destruct (Porto.AsyncWaitCallback c).
    + destruct (Hfail (Porto.errno_or_EIO errno) c (Porto.set_Rsp partial c) w
                  (Porto.BadFrame partial errno) rest)
        as (s' & evs & H); [done..|].
      exists Unknown, s', evs. cbn [Porto.Recv_loop].
      destruct H as (-> & Hstep & Hs & Hcb & Htape & Hrsp & Hfd).
      rewrite Hs, Hcb, Htape. by destruct (Porto.AsyncWaitCallback c).
    + cbn [Porto.Recv_loop]. unfold after_events. cbn [leading_events]. cbv zeta.
      replace (Porto.Rsp (Porto.set_Rsp r c)) with r by done.
      replace (Porto.AsyncWaitCallback (Porto.set_Rsp r c))
        with (Porto.AsyncWaitCallback c) by done.
      destruct (Porto.rsp_asyncwait r) as [event|] eqn:Er.
      * set (w1 := if Porto.AsyncWaitCallback c then _ else _).
        destruct (IH (Porto.set_Rsp r c) w1)
          as (ret & s' & evs & -> & Hstep & Hs & Hcb & Htape & Hres).
        exists ret, s',
          ((Porto.ev_recv (Porto.Fd c) (Porto.Frame r)
            :: if Porto.AsyncWaitCallback c then [Porto.ev_callback event] else []) ++ evs).
        assert (Hw0 : wire ((Porto.ev_recv (Porto.Fd c) (Porto.Frame r)
                               :: if Porto.AsyncWaitCallback c
                                  then [Porto.ev_callback event] else [])
                             : list (Porto.Syscall Body Payload)) = []).
        { unfold wire. simpl. rewrite Er. by destruct (Porto.AsyncWaitCallback c). }
        split; [done|]. split.
        { eapply (transport_step_prepend (c, w) (Porto.set_Rsp r c, w1)); [| | | | | | | |exact Hstep];
            try done.
          - subst w1. simpl. destruct (Porto.AsyncWaitCallback c); simpl; by rewrite <- ?app_assoc.
          - by destruct (Porto.AsyncWaitCallback c).
          - intros [? ?]. split; [done|]. by rewrite wire_app, Hw0.
          - intros ?. by rewrite wire_app, Hw0. }
        rewrite sent_frames_app, callbacks_app, Hs, Hcb. simpl.
        split; [by destruct (Porto.AsyncWaitCallback c)|].
        split; [by destruct (Porto.AsyncWaitCallback c)|]. done.
      * exists Success, (Porto.set_Rsp r c, Porto.read_frame (Porto.Fd c) (Porto.Frame r) rest w),
          [Porto.ev_recv (Porto.Fd c) (Porto.Frame r)].
        split; [done|]. split.
        { unfold transport_step, same_settings. simpl.
          split; [reflexivity|]. split; [done|]. split; [done|]. left.
          unfold wire. simpl. by rewrite Er. }
        simpl. by destruct (Porto.AsyncWaitCallback c).
Qed.

Hypothesis Success_is_0 : Success = 0.
Hypothesis Unknown_is_not_0 : Unknown ≠ 0.

Lemma Rpc_body_connected connect (s : Porto.Conn Body Payload) :
  0 ≤ Porto.Fd s.1 →
  ∃ ret s' evs,
    Porto.Rpc_body Body_Clear Success Unknown strerror connect s = Some (ret, s')
    ∧ rpc_post Body_Clear Unknown s ret s' evs
    ∧ sent_frames evs = [Porto.Req s.1]
    ∧ exchange Unknown (Porto.Req s.1) ret s' (wire evs).
Proof.
  intros Hfd. unfold Porto.Rpc_body.
  replace (Porto.Fd s.1 <? 0) with false by lia. cbn [Z.eqb].
  destruct (Send_spec s) as (ret1 & [c1 w1] & evs1 & -> & (Ht1 & Hset1 & Hr1 & H1) & Hs1 & Hrsp1).
  cbn [fst snd] in *.
  destruct H1 as [(-> & Hf1 & Hl1 & Ho1 & Hw1)|(-> & Hf1 & Hl1 & Ho1 & Hw1)].
  - replace (Success =? 0) with true by lia.
    destruct (Recv_loop_spec (Porto.recv_tape w1) (Porto.set_Req (Porto.Req_Clear Body_Clear) c1) w1)
      as (ret2 & [c2 w2] & evs2 & He2 & (Ht2 & Hset2 & Hr2 & H2) & Hs2 & _).
    unfold Porto.Recv. rewrite He2. cbn [fst snd] in *.
    destruct H2 as [(-> & Hf2 & Hl2 & Ho2 & Hq2 & Hw2)|(-> & Hf2 & Hl2 & Ho2 & Hw2)].
    + replace (Success =? 0) with true by lia.
      eexists _, _, (evs1 ++ evs2). split; [reflexivity|].
      assert (Hex : exchange Unknown (Porto.Req s.1) (Porto.error (Porto.Rsp c2))
                      (Porto.set_LastError (Porto.error (Porto.Rsp c2))
                         (Porto.errormsg (Porto.Rsp c2)) c2, w2) (wire (evs1 ++ evs2))).
      { right. exists (Porto.Rsp c2). rewrite wire_app, Hw1, Hw2. simpl in *.
        repeat split; try done. lia. }
      split; [|split; [|exact Hex]].
      * unfold rpc_post, rpc_result, same_settings in *. simpl in *.
        rewrite Ht2, Ht1, <- app_assoc, open_sockets_app, Ho1, Ho2.
        rewrite Hf2, Hf1. repeat split; try done; try lia; try (intuition congruence).
      * by rewrite sent_frames_app, Hs1, Hs2.
    + destruct (Unknown =? 0) eqn:E; [lia|].
      eexists _, _, (evs1 ++ evs2). split; [reflexivity|].
      assert (Hex : exchange Unknown (Porto.Req s.1) Unknown (c2, w2) (wire (evs1 ++ evs2))).
      { left. rewrite wire_app, Hw1, Hw2. simpl. split; [by right|done]. }
      split; [|split; [|exact Hex]].
      * unfold rpc_post, rpc_result, same_settings in *. simpl in *.
        rewrite Ht2, Ht1, <- app_assoc, open_sockets_app, Ho1, Ho2.
        rewrite Hf2, Hf1. replace (0 <=? Porto.Fd s.1) with true by lia.
        repeat split; try done; try (intuition congruence).
      * by rewrite sent_frames_app, Hs1, Hs2.
  - destruct (Unknown =? 0) eqn:E; [lia|]. cbv beta iota zeta. rewrite E.
    eexists _, _, evs1. split; [reflexivity|].
    assert (Hex : exchange Unknown (Porto.Req s.1) Unknown
                    (Porto.set_Req (Porto.Req_Clear Body_Clear) c1, w1) (wire evs1)).
    { left. rewrite Hw1. split; [by left|done]. }
    split; [|split; [done|exact Hex]].
    unfold rpc_post, rpc_result, same_settings in *. simpl in *.
    rewrite Ht1, Ho1, Hf1. replace (0 <=? Porto.Fd s.1) with true by lia.
    repeat split; try done; try (intuition congruence).
Qed.

Lemma restore_asyncwait_eq (c c' : Porto.ConnectionImpl Body Payload) :
  Porto.Req c' = Porto.Req c → same_settings c c' →
  Porto.restore_asyncwait c' = Porto.restore_asyncwait c.
Proof.
  intros Hr (_ & Hn & Ht & _). unfold Porto.restore_asyncwait. by rewrite Hr, Hn, Ht.
Qed.

Lemma Connect_body_spec rpc (s : Porto.Conn Body Payload) :
  (∀ s1, 0 ≤ Porto.Fd s1.1 →
     ∃ ret s' evs, rpc s1 = Some (ret, s') ∧ rpc_post Body_Clear Unknown s1 ret s' evs
                   ∧ sent_frames evs = [Porto.Req s1.1]
                   ∧ exchange Unknown (Porto.Req s1.1) ret s' (wire evs)) →
  ∃ ret s' evs,
    Porto.Connect_body Success Unknown strerror rpc s = Some (ret, s')
    ∧ connect_post Body_Clear Success Unknown s ret s' evs.
Proof.
  intros Hrpc. destruct s as [c w]. unfold Porto.Connect_body. cbn [fst snd].
  assert (∃ c0 w0 e0,
    (if 0 <=? Porto.Fd c then Porto.Close (c, w) else (c, w)) = (c0, w0)
    ∧ Porto.trace w0 = Porto.trace w ++ e0
    ∧ open_sockets e0 = - Z.b2z (0 <=? Porto.Fd c) ∧ wire e0 = []
    ∧ same_settings c c0 ∧ Porto.Req c0 = Porto.Req c)
    as (c0 & w0 & e0 & -> & Ht0 & Ho0 & Hs0 & Hset0 & Hr0).
  { destruct (0 <=? Porto.Fd c) eqn:E.
    - unfold Porto.Close. rewrite E. eexists _, _, [_]. split; [reflexivity|]. done.
    - exists c, w, []. rewrite app_nil_r. done. }
  unfold Porto.socket.
  destruct (match Porto.socket_tape w0 with [] => _ | _ => _ end) as [[fd errno] t].
  cbv zeta. cbn [fst snd]. set (w1 := Porto.emit _ _).
  assert (Ht1 : Porto.trace w1 = Porto.trace w ++ e0 ++ [Porto.ev_socket fd errno]).
  { subst w1. simpl. by rewrite Ht0, <- app_assoc. }
  set (c1 := Porto.set_Fd fd c0).
  assert (Hfd1 : Porto.Fd c1 = fd) by done.
  assert (Hset1 : same_settings c c1) by done.
  assert (Hr1 : Porto.Req c1 = Porto.Req c) by done.
  clearbody w1 c1. rewrite Hfd1.
  assert (Ho1 : open_sockets (e0 ++ [Porto.ev_socket fd errno])
                = Z.b2z (0 <=? fd) - Z.b2z (0 <=? Porto.Fd c)).
  { rewrite open_sockets_app, Ho0. simpl. destruct (0 <=? fd); simpl; lia. }
  assert (Hs1 : wire (e0 ++ [Porto.ev_socket fd errno]) = []).
  { by rewrite wire_app, Hs0. }
  revert Ht1 Ho1 Hs1.
  generalize (e0 ++ [Porto.ev_socket fd errno]). clear e0 Ht0 Ho0 Hs0 Hset0 Hr0 c0 w0 t.
  intros e1 Ht1 Ho1 Hs1.
  destruct (fd <? 0) eqn:Efd.
  { (* socket fails *)
    destruct (Error_spec errno "socket" c1 w1)
      as (c' & w' & evs & -> & Ht & Ho & _ & _ & Hf & Hl & Hset & Hr & _ & _ & Hs).
    eexists _, _, (e1 ++ evs). split; [reflexivity|].
    unfold connect_post. cbn [fst snd].
    rewrite Ht, Ht1, !app_assoc. split; [done|].
    split; [unfold same_settings in *; intuition congruence|].
    rewrite !open_sockets_app, !wire_app, Ho1, Hs1, Ho, Hs, Hf, Hfd1.
    split; [simpl; lia|]. right; left. repeat split; try done. by left. }
  (* the timeouts *)
  assert (∃ ret2 c2 w2 e2,
    (if negb (Porto.Timeout c1 =? 0)
     then Porto.SetTimeout Success Unknown strerror 3 (Porto.Timeout c1) (c1, w1)
     else (0, (c1, w1))) = (ret2, (c2, w2))
    ∧ transport_step Success Unknown (c1, w1) ret2 (c2, w2) e2 (wire e2 = []) (wire e2 = []))
    as (ret2 & c2 & w2 & e2 & -> & (Ht2 & Hset2 & Hr2 & H2)).
  { destruct (negb (Porto.Timeout c1 =? 0)).
    - destruct (SetTimeout_spec 3 (Porto.Timeout c1) (c1, w1))
        as (ret2 & [c2 w2] & e2 & -> & Hstep & Hs & _).
      by exists ret2, c2, w2, e2.
    - exists 0, c1, w1, []. split; [done|].
      unfold transport_step. cbn [fst snd]. rewrite app_nil_r.
      repeat split; try done. left. done. }
  cbn [fst snd] in *.
  destruct H2 as [(-> & Hf2 & Hl2 & Ho2 & Hs2)|(-> & Hf2 & Hl2 & Ho2 & Hs2)].
  2: { (* a timeout cannot be set *)
    destruct (Unknown =? 0) eqn:E; [lia|]. cbn [negb].
    eexists _, _, (e1 ++ e2). split; [reflexivity|].
    unfold connect_post. cbn [fst snd].
    rewrite Ht2, Ht1, !app_assoc. split; [done|].
    split; [unfold same_settings in *; intuition congruence|].
    rewrite !open_sockets_app, !wire_app, Ho1, Hs1, Ho2, Hs2, Hf2, Hfd1.
    split; [simpl; lia|]. right; left. repeat split; try done. by left. }
  replace (Success =? 0) with true by lia. cbn [negb].
  unfold Porto.connect.
  destruct (match Porto.connect_tape w2 with [] => _ | _ => _ end) as [[ret3 errno3] t3].
  cbv zeta. cbn [fst snd]. set (w3 := Porto.emit _ _).
  assert (Ht3 : Porto.trace w3
                = Porto.trace w ++ (e1 ++ e2)
                  ++ [Porto.ev_connect (Porto.Fd c2) Porto.PortoSocket ret3 errno3]).
  { subst w3. simpl. by rewrite Ht2, Ht1, <- !app_assoc. }
  clearbody w3.
  assert (Ho3 : open_sockets ((e1 ++ e2)
                  ++ [Porto.ev_connect (Porto.Fd c2) Porto.PortoSocket ret3 errno3])
                = 1 - Z.b2z (0 <=? Porto.Fd c)).
  { rewrite !open_sockets_app, Ho1, Ho2. simpl. replace (0 <=? fd) with true by lia. simpl. lia. }
  assert (Hs3 : wire ((e1 ++ e2)
                  ++ [Porto.ev_connect (Porto.Fd c2) Porto.PortoSocket ret3 errno3])
                = [Connected (0 <=? ret3)]).
  { by rewrite !wire_app, Hs1, Hs2. }
  revert Ht3 Ho3 Hs3.
  generalize ((e1 ++ e2) ++ [Porto.ev_connect (Porto.Fd c2) Porto.PortoSocket ret3 errno3]).
  intros e3 Ht3 Ho3 Hs3.
  assert (Hfd2 : 0 ≤ Porto.Fd c2) by lia.
  assert (Hset : same_settings c c2) by (unfold same_settings in *; intuition congruence).
  assert (Hreq : Porto.Req c2 = Porto.Req c) by congruence.
  destruct (ret3 <? 0) eqn:E3.
  { (* connect fails *)
    destruct (Error_spec errno3 "connect" c2 w3)
      as (c' & w' & evs & -> & Ht & Ho & _ & _ & Hf & Hl & Hset' & Hr & _ & _ & Hs).
    eexists _, _, (e3 ++ evs). split; [reflexivity|].
    unfold connect_post. cbn [fst snd].
    rewrite Ht, Ht3, !app_assoc. split; [done|].
    split; [unfold same_settings in *; intuition congruence|].
    rewrite !open_sockets_app, !wire_app, Ho3, Hs3, Ho, Hs, Hf.
    replace (0 <=? Porto.Fd c2) with true by lia.
    replace (0 <=? ret3) with false by lia.
    split; [simpl; lia|]. right; left. repeat split; try done. by right. }
  replace (0 <=? ret3) with true in Hs3 by lia.
  destruct (Porto.AsyncWaitContainers c2) as [|name names] eqn:Eaw.
  - (* connected *)
    eexists _, _, e3. split; [reflexivity|].
    unfold connect_post. cbn [fst snd]. split; [done|]. split; [done|].
    replace (0 <=? Porto.Fd c2) with true by lia.
    split; [simpl; lia|]. left. destruct Hset as (_ & <- & _). done.
  - (* the subscription is restored *)
    destruct (Hrpc (Porto.set_Req (Porto.restore_asyncwait c2) c2, w3))
      as (ret & [c' w'] & evs & -> & (Ht & Hset' & Hr & Hl & Ho & Hres) & _ & Hex); [done|].
    cbn [fst snd] in *.
    eexists _, _, (e3 ++ evs). split; [reflexivity|].
    unfold connect_post. cbn [fst snd].
    rewrite Ht. simpl. rewrite Ht3, !app_assoc. split; [done|].
    split; [unfold same_settings in *; simpl in *; intuition congruence|].
    rewrite !open_sockets_app, !wire_app, Ho3, Hs3, Ho. simpl.
    replace (0 <=? Porto.Fd c2) with true by lia.
    split; [simpl; lia|]. right; right.
    rewrite (restore_asyncwait_eq c c2) in Hex by done.
    destruct Hset as (_ & <- & _). rewrite Eaw.
    split; [done|]. split; [by exists (wire evs)|done].
Qed.

Lemma rpc_post_after (s s0 s' : Porto.Conn Body Payload) ret e0 evs :
  Porto.trace s0.2 = Porto.trace s.2 ++ e0 →
  same_settings s.1 s0.1 →
  open_sockets e0 = Z.b2z (0 <=? Porto.Fd s0.1) - Z.b2z (0 <=? Porto.Fd s.1) →
  rpc_post Body_Clear Unknown s0 ret s' evs →
  rpc_post Body_Clear Unknown s ret s' (e0 ++ evs).
Proof.
  intros Ht0 Hset0 Ho0 (Ht & Hset & Hr & Hl & Ho & Hres).
  unfold rpc_post, same_settings in *. rewrite Ht, Ht0, <- app_assoc, open_sockets_app, Ho0, Ho.
  repeat split; try done; try lia; intuition congruence.
Qed.

Lemma Rpc_body_resume connect (s s0 : Porto.Conn Body Payload) :
  Porto.Fd s.1 < 0 → connect s = Some (0, s0) → 0 ≤ Porto.Fd s0.1 →
  Porto.Rpc_body Body_Clear Success Unknown strerror connect s
  = Porto.Rpc_body Body_Clear Success Unknown strerror connect s0.
Proof.
  intros H He H0. unfold Porto.Rpc_body.
  replace (Porto.Fd s.1 <? 0) with true by lia.
  replace (Porto.Fd s0.1 <? 0) with false by lia. by rewrite He.
Qed.

Lemma Rpc_body_skip connect (s : Porto.Conn Body Payload) ret0 c0 w0 :
  Porto.Fd s.1 < 0 → connect s = Some (ret0, (c0, w0)) → ret0 ≠ 0 →
  Porto.Rpc_body Body_Clear Success Unknown strerror connect s
  = Some (ret0, (Porto.set_Req (Porto.Req_Clear Body_Clear) c0, w0)).
Proof.
  intros H He H0. unfold Porto.Rpc_body.
  replace (Porto.Fd s.1 <? 0) with true by lia. rewrite He.
  replace (ret0 =? 0) with false by lia. cbv beta iota zeta.
  replace (ret0 =? 0) with false by lia. cbv beta iota zeta.
  by replace (ret0 =? 0) with false by lia.
Qed.

Lemma exchange_same (q : Porto.TContainerRequest Body) ret (s' s'' : Porto.Conn Body Payload) l :
  Porto.Fd s''.1 = Porto.Fd s'.1 → Porto.Rsp s''.1 = Porto.Rsp s'.1 →
  exchange Unknown q ret s' l → exchange Unknown q ret s'' l.
Proof.
  intros Hf Hr [(? & ? & ?)|(r & ? & ? & ? & ?)]; [left|right; exists r];
    rewrite ?Hf, ?Hr; done.
Qed.

Lemma Rpc_body_spec connect (s : Porto.Conn Body Payload) :
  (∀ s, ∃ ret s' evs, connect s = Some (ret, s')
                      ∧ connect_post Body_Clear Success Unknown s ret s' evs) →
  ∃ ret s' evs,
    Porto.Rpc_body Body_Clear Success Unknown strerror connect s = Some (ret, s')
    ∧ rpc_post Body_Clear Unknown s ret s' evs
    ∧ rpc_wire Body_Clear Unknown s.1 ret s' (wire evs).
Proof.
  intros Hconnect. destruct (Z.ltb_spec (Porto.Fd s.1) 0) as [Hfd|Hfd].
  2: { destruct (Rpc_body_connected connect s Hfd) as (ret & s' & evs & He & Hpost & _ & Hex).
       exists ret, s', evs. split; [done|]. split; [done|].
       unfold rpc_wire. by replace (0 <=? Porto.Fd s.1) with true by lia. }
  destruct (Hconnect s) as (ret0 & [c0 w0] & e0 & He0 & Ht0 & Hset0 & Ho0 & Hcases).
  cbn [fst snd] in *.
  assert (Hskip : ret0 ≠ 0 → Porto.LastError c0 = ret0 → rpc_result Unknown ret0 (c0, w0) →
    ∃ s',
      Porto.Rpc_body Body_Clear Success Unknown strerror connect s = Some (ret0, s')
      ∧ rpc_post Body_Clear Unknown s ret0 s' e0
      ∧ Porto.Fd s'.1 = Porto.Fd c0 ∧ Porto.Rsp s'.1 = Porto.Rsp c0).
  { intros Hret Hl Hres. rewrite (Rpc_body_skip connect s ret0 c0 w0) by done.
    eexists. split; [reflexivity|]. split; [|done].
    unfold rpc_post, rpc_result, same_settings in *. destruct s as [c w]. simpl in *.
    repeat split; try done; intuition congruence. }
  unfold rpc_wire. replace (0 <=? Porto.Fd s.1) with false by lia.
  destruct Hcases as [(Hret & Hfd0 & Haw & Hs0 & Hr0)|[(Hret & Hfd0 & Hl0 & Hs0)|
                      (Haw & (l & Hs0 & Hex0) & Hr0 & Hl0 & Hres)]].
  - (* connected, nothing sent yet *)
    assert (ret0 = 0) as -> by lia.
    rewrite (Rpc_body_resume connect s (c0, w0)) by done.
    destruct (Rpc_body_connected connect (c0, w0) Hfd0)
      as (ret & s' & evs & -> & Hpost & _ & Hex).
    exists ret, s', (e0 ++ evs). split; [done|].
    split; [by apply (rpc_post_after s (c0, w0))|].
    rewrite wire_app, Hs0, Haw. simpl in *. right. exists (wire evs). by rewrite <- Hr0.
  - (* no connection *)
    destruct Hskip as (s' & -> & Hpost & Hf & _); [lia|congruence|by left|].
    exists ret0, s', e0. split; [done|]. split; [done|].
    left. split; [done|]. split; [done|congruence].
  - (* the subscription was restored first *)
    destruct (Porto.AsyncWaitContainers s.1) as [|name names] eqn:Eaw; [done|].
    destruct (decide (ret0 = 0)) as [->|Hret].
    + destruct Hex0 as [(_ & ? & _)|(r1 & -> & Her & Hrsp & Hfd0)]; [congruence|].
      cbn [fst snd] in *.
      rewrite (Rpc_body_resume connect s (c0, w0)) by done.
      destruct (Rpc_body_connected connect (c0, w0) Hfd0)
        as (ret & s' & evs & -> & Hpost & _ & Hex).
      exists ret, s', (e0 ++ evs). split; [done|].
      split; [by apply (rpc_post_after s (c0, w0))|].
      rewrite wire_app, Hs0. simpl in *. right. eexists. split; [reflexivity|].
      right. exists r1, (wire evs). split; [done|]. split; [done|]. by rewrite <- Hr0.
    + destruct Hskip as (s' & -> & Hpost & Hf & Hr); [done..|].
      exists ret0, s', e0. split; [done|]. split; [done|].
      right. exists l. split; [done|]. left. split; [done|].
      by apply (exchange_same _ _ (c0, w0)).
Qed.

Lemma Rpc_connected_depth n (s : Porto.Conn Body Payload) :
  0 ≤ Porto.Fd s.1 →
  Porto.Rpc Body_Clear Success Unknown strerror (S n) s
  = Porto.Rpc Body_Clear Success Unknown strerror 1 s.
Proof.
  intros H. cbn [Porto.Rpc]. unfold Porto.Rpc_body.
  by replace (Porto.Fd s.1 <? 0) with false by lia.
Qed.

Lemma Connect_body_ext f g (s : Porto.Conn Body Payload) :
  (∀ s1, 0 ≤ Porto.Fd s1.1 → f s1 = g s1) →
  Porto.Connect_body Success Unknown strerror f s
  = Porto.Connect_body Success Unknown strerror g s.
Proof.
  intros Hfg. unfold Porto.Connect_body.
  destruct (if 0 <=? Porto.Fd s.1 then _ else _) as [c0 w0].
  destruct (Porto.socket w0) as [[fd errno] w1]. cbv zeta.
  destruct (Porto.Fd (Porto.set_Fd fd c0) <? 0) eqn:Efd; [done|].
  assert (∃ ret2 c2 w2,
    (if negb (Porto.Timeout (Porto.set_Fd fd c0) =? 0)
     then Porto.SetTimeout Success Unknown strerror 3 (Porto.Timeout (Porto.set_Fd fd c0))
            (Porto.set_Fd fd c0, w1)
     else (0, (Porto.set_Fd fd c0, w1))) = (ret2, (c2, w2))
    ∧ (ret2 = 0 → 0 ≤ Porto.Fd c2)) as (ret2 & c2 & w2 & -> & Hfd2).
  { destruct (negb _).
    - destruct (SetTimeout_spec 3 (Porto.Timeout (Porto.set_Fd fd c0)) (Porto.set_Fd fd c0, w1))
        as (ret2 & [c2 w2] & e2 & -> & (_ & _ & _ & H) & _).
      exists ret2, c2, w2. split; [done|]. cbn [fst snd] in *.
      destruct H as [(_ & -> & _)|(-> & _)]; [lia|done].
    - eexists _, _, _. split; [done|]. lia. }
  destruct (negb (ret2 =? 0)) eqn:E2; [done|].
  destruct (Porto.connect _ _ w2) as [[ret3 errno3] w3].
  destruct (ret3 <? 0); [done|].
  destruct (Porto.AsyncWaitContainers c2); [done|]. apply Hfg. simpl. apply Hfd2.
  destruct (Z.eqb_spec ret2 0); done.
Qed.

Lemma Rpc_body_ext f g (s : Porto.Conn Body Payload) :
  f s = g s →
  Porto.Rpc_body Body_Clear Success Unknown strerror f s
  = Porto.Rpc_body Body_Clear Success Unknown strerror g s.
Proof. intros H. unfold Porto.Rpc_body. by rewrite H. Qed.

Lemma Rpc_depth n (s : Porto.Conn Body Payload) :
  Porto.Rpc Body_Clear Success Unknown strerror (S (S n)) s
  = Porto.Rpc Body_Clear Success Unknown strerror 2 s.
Proof.
  change (Porto.Rpc_body Body_Clear Success Unknown strerror
            (Porto.Connect_body Success Unknown strerror
               (Porto.Rpc Body_Clear Success Unknown strerror (S n))) s
          = Porto.Rpc_body Body_Clear Success Unknown strerror
              (Porto.Connect_body Success Unknown strerror
                 (Porto.Rpc Body_Clear Success Unknown strerror 1)) s).
  apply Rpc_body_ext, Connect_body_ext. intros s1 H. by apply Rpc_connected_depth.
Qed.

Lemma Connect_spec n (s : Porto.Conn Body Payload) :
  ∃ ret s' evs,
    Porto.Connect Body_Clear Success Unknown strerror (S n) s = Some (ret, s')
    ∧ connect_post Body_Clear Success Unknown s ret s' evs.
Proof.
  apply Connect_body_spec. intros s1 H. cbn [Porto.Rpc]. by apply Rpc_body_connected.
Qed.

Lemma Rpc_spec n (s : Porto.Conn Body Payload) :
  ∃ ret s' evs,
    Porto.Rpc Body_Clear Success Unknown strerror (S (S n)) s = Some (ret, s')
    ∧ rpc_post Body_Clear Unknown s ret s' evs
    ∧ rpc_wire Body_Clear Unknown s.1 ret s' (wire evs).
Proof.
  cbn [Porto.Rpc]. apply Rpc_body_spec. intros s1. apply Connect_body_spec.
  intros s2 H. by apply Rpc_body_connected.
Qed.

End ClientFacts.

Lemma transport_step_balanced {Body Payload : Type} Success Unknown
    (s s' : Porto.Conn Body Payload) ret evs Qok Qerr :
  transport_step Success Unknown s ret s' evs Qok Qerr → balanced s → balanced s'.
Proof.
  intros (Ht & _ & _ & H) Hb. unfold balanced in *. rewrite Ht, open_sockets_app, Hb.
  destruct H as [(_ & -> & _ & -> & _)|(_ & -> & _ & -> & _)]; simpl; lia.
Qed.

Lemma rpc_post_balanced {Body Payload : Type} (Body_Clear : Body) Unknown
    (s s' : Porto.Conn Body Payload) ret evs :
  rpc_post Body_Clear Unknown s ret s' evs → balanced s → balanced s'.
Proof.
  intros (Ht & _ & _ & _ & Ho & _) Hb. unfold balanced in *.
  rewrite Ht, open_sockets_app, Hb, Ho. lia.
Qed.

(** Two levels of calls are all [Rpc] makes: [Rpc] calls [Connect] when it
    has no socket, and [Connect] calls [Rpc] only on the socket it has just
    connected, where [Rpc] does not call [Connect]; a greater depth changes
    nothing. Whenever [Rpc] returns, the request is cleared, also after a
    failure; the result is [LastError]; the settings of the connection are
    untouched; and either the socket is closed and the result is [Unknown],
    or the socket is open and the result is the code of the response, which
    is no event. *)
Theorem client_Rpc_two_levels {Body Payload : Type} (Body_Clear : Body) (Success Unknown : Z)
    (strerror : Z → string) (depth : nat) (s : Porto.Conn Body Payload) :
  Success = 0 → Unknown ≠ 0 →
  Porto.Rpc Body_Clear Success Unknown strerror (2 + depth) s
  = Porto.Rpc Body_Clear Success Unknown strerror 2 s
  ∧ ∀ ret s',
      Porto.Rpc Body_Clear Success Unknown strerror 2 s = Some (ret, s') →
      Porto.Req s'.1 = Porto.Req_Clear Body_Clear
      ∧ Porto.LastError s'.1 = ret
      ∧ same_settings s.1 s'.1
      ∧ rpc_result Unknown ret s'.
Proof.
  intros HS HU. split.
  - change (2 + depth)%nat with (S (S depth)).
    apply (Rpc_depth Body_Clear Success Unknown strerror HU depth s).
  - intros ret s' He.
    destruct (Rpc_spec Body_Clear Success Unknown strerror HS HU 0 s)
      as (ret0 & s0 & evs & He0 & (_ & Hset & Hr & Hl & _ & Hres) & _).
    rewrite He0 in He. by injection He as <- <-.
Qed.

Lemma client_Rpc_two_levels_witness :
  Porto.Rpc [] 0 1 strerror_ex (2 + 3) (conn_ex, world_ex)
  = Porto.Rpc [] 0 1 strerror_ex 2 (conn_ex, world_ex)
  ∧ ∃ ret s',
      Porto.Rpc [] 0 1 strerror_ex 2 (conn_ex, world_ex) = Some (ret, s')
      ∧ Porto.Req s'.1 = Porto.Req_Clear []
      ∧ Porto.LastError s'.1 = ret
      ∧ same_settings (conn_ex, world_ex).1 s'.1
      ∧ rpc_result 1 ret s'.
Proof.
  destruct (client_Rpc_two_levels [] 0 1 strerror_ex 3 (conn_ex, world_ex) eq_refl ltac:(lia))
    as [Hdepth Hret].
  split; [exact Hdepth|]. eexists _, _. split; [reflexivity|]. apply Hret. reflexivity.
Defined.



Example client_reconnect_wire :
  wire (Porto.trace (default (0, (conn_ex, world_ex))
                       (Porto.Rpc [] 0 1 strerror_ex 2 (conn_ex, world_ex))).2.2)
  = [Connected true;
     Sent (Porto.mkTContainerRequest ["list"]
             (Some (Porto.mkTAsyncWaitRequest ["a"] [] (Some 5000)))) true;
     Replied (rsp_ex 0 "subscribed");
     Sent (Porto.mkTContainerRequest [] None) true;
     Replied (rsp_ex 0 "nothing")].
Proof. reflexivity. Qed.

(** [Recv] gives the events at the head of the stream to the callback, in
    the order they come and only when a callback is set, and stops at the
    first frame that is not an event: a response makes it succeed with
    that response and the socket as it was; the end of the stream or a
    frame that cannot be read makes it fail with the socket closed. *)
Theorem client_Recv_events {Body Payload : Type} (Success Unknown : Z)
    (strerror : Z → string) (s : Porto.Conn Body Payload) :
  callbacks (Porto.trace (Porto.Recv Success Unknown strerror s).2.2)
  = callbacks (Porto.trace s.2)
    ++ (if Porto.AsyncWaitCallback s.1 then leading_events (Porto.recv_tape s.2) else [])
  ∧ Porto.recv_tape (Porto.Recv Success Unknown strerror s).2.2
    = drop 1 (after_events (Porto.recv_tape s.2))
  ∧ match after_events (Porto.recv_tape s.2) with
    | Porto.Frame r :: _ =>
        (Porto.Recv Success Unknown strerror s).1 = Success
        ∧ Porto.Rsp (Porto.Recv Success Unknown strerror s).2.1 = r
        ∧ Porto.Fd (Porto.Recv Success Unknown strerror s).2.1 = Porto.Fd s.1
    | Porto.BadFrame partial _ :: _ =>
        (Porto.Recv Success Unknown strerror s).1 = Unknown
        ∧ Porto.Rsp (Porto.Recv Success Unknown strerror s).2.1 = partial
        ∧ Porto.Fd (Porto.Recv Success Unknown strerror s).2.1 = -1
    | _ =>
        (Porto.Recv Success Unknown strerror s).1 = Unknown
        ∧ Porto.Fd (Porto.Recv Success Unknown strerror s).2.1 = -1
    end.
Proof.
  destruct s as [c w]. unfold Porto.Recv. cbn [fst snd].
  destruct (Recv_loop_spec Success Unknown strerror (Porto.recv_tape w) c w)
    as (ret & s' & evs & -> & (Ht & _) & _ & Hcb & Htape & Hres).
  cbn [fst snd] in *. rewrite Ht, callbacks_app, Hcb, Htape. done.
Qed.

Example client_Recv_event_then_response :
  callbacks (Porto.trace (Porto.Recv 0 1 strerror_ex (connected_ex, world_event_ex)).2.2)
  = [event_ex]
  ∧ (Porto.Recv 0 1 strerror_ex (connected_ex, world_event_ex)).1 = 0
  ∧ Porto.Rsp (Porto.Recv 0 1 strerror_ex (connected_ex, world_event_ex)).2.1 = rsp_ex 0 "a b".
Proof. done. Qed.

(** The connection never leaks a socket: when it holds the one socket
    that is open, or none is open, the same is true after [Close],
    [SetTimeout], [Send], [Recv], [Connect], [Rpc] and the calls of
    [Connection] made of them, whatever the kernel and the daemon answer. *)
Theorem client_single_socket {Body Payload : Type} (Body_Clear : Body) (Success Unknown : Z)
    (strerror : Z → string) (IsInitialized : Porto.TContainerRequest Body → bool)
    (depth : nat) (direction timeout : Z) (req : Porto.TContainerRequest Body)
    (rsp : Porto.TContainerResponse Payload) (containers labels : list string)
    (callback : bool) (s : Porto.Conn Body Payload) :
  Success = 0 → Unknown ≠ 0 → balanced s →
  balanced (Porto.Close s)
  ∧ balanced (Porto.SetTimeout Success Unknown strerror direction timeout s).2
  ∧ balanced (Porto.Connection_SetTimeout Success Unknown strerror timeout s).2
  ∧ balanced (Porto.Send Success Unknown strerror s).2
  ∧ balanced (Porto.Recv Success Unknown strerror s).2
  ∧ returns_balanced (Porto.Connect Body_Clear Success Unknown strerror (1 + depth) s)
  ∧ returns_balanced (Porto.Rpc Body_Clear Success Unknown strerror (2 + depth) s)
  ∧ returns_balanced
      (Porto.Connection_Rpc Body_Clear Success Unknown strerror IsInitialized (2 + depth)
         req rsp s)
  ∧ returns_balanced
      (Porto.Connection_AsyncWait Body_Clear Success Unknown strerror (2 + depth)
         containers labels callback timeout s).
Proof.
  intros HS HU Hb.
  assert (Hrpc : ∀ s1 : Porto.Conn Body Payload, balanced s1 →
    ∃ ret s', Porto.Rpc Body_Clear Success Unknown strerror (2 + depth) s1 = Some (ret, s')
              ∧ balanced s').
  { intros s1 H1.
    destruct (Rpc_spec Body_Clear Success Unknown strerror HS HU depth s1)
      as (ret & s' & evs & He & Hpost & _).
    exists ret, s'. split; [done|]. by apply (rpc_post_balanced _ _ _ _ _ _ Hpost). }
  repeat split.
  - destruct s as [c w]. unfold balanced, Porto.Close in *. simpl in *.
    destruct (0 <=? Porto.Fd c); simpl in *; [|done].
    rewrite open_sockets_app, Hb. done.
  - destruct (SetTimeout_spec Success Unknown strerror direction timeout s)
      as (ret & s' & evs & -> & Hstep & _).
    by apply (transport_step_balanced _ _ _ _ _ _ _ _ Hstep).
  - destruct s as [c w]. unfold Porto.Connection_SetTimeout.
    replace (Porto.Fd (Porto.set_Timeout timeout c)) with (Porto.Fd c) by done.
    destruct (0 <=? Porto.Fd c); [|done].
    destruct (SetTimeout_spec Success Unknown strerror 3 timeout (Porto.set_Timeout timeout c, w))
      as (ret & s' & evs & -> & Hstep & _).
    by apply (transport_step_balanced _ _ _ _ _ _ _ _ Hstep).
  - destruct (Send_spec Success Unknown strerror s) as (ret & s' & evs & -> & Hstep & _).
    by apply (transport_step_balanced _ _ _ _ _ _ _ _ Hstep).
  - destruct s as [c w]. unfold Porto.Recv.
    destruct (Recv_loop_spec Success Unknown strerror (Porto.recv_tape w) c w)
      as (ret & s' & evs & -> & Hstep & _).
    by apply (transport_step_balanced _ _ _ _ _ _ _ _ Hstep).
  - destruct (Connect_spec Body_Clear Success Unknown strerror HS HU depth s)
      as (ret & s' & evs & He & Ht & _ & Ho & _).
    change (1 + depth)%nat with (S depth). rewrite He. unfold returns_balanced, balanced in *.
    rewrite Ht, open_sockets_app, Hb, Ho. lia.
  - destruct (Hrpc s Hb) as (ret & s' & -> & H). done.
  - destruct s as [c w]. unfold Porto.Connection_Rpc.
    destruct (negb _); [done|].
    destruct (Hrpc (Porto.set_Req req c, w)) as (ret & [c' w'] & -> & H); done.
  - destruct s as [c w]. unfold Porto.Connection_AsyncWait. cbv zeta.
    match goal with |- context [Porto.Rpc _ _ _ _ _ ?s1] =>
      destruct (Hrpc s1) as (ret & [c' w'] & -> & H); [done|] end.
    by destruct (negb (ret =? 0)).
Qed.

Lemma client_single_socket_witness :
  returns_balanced (Porto.Rpc [] 0 1 strerror_ex (2 + 0) (conn_ex, world_ex)).
Proof.
  assert (Hb : balanced (conn_ex, world_ex)) by reflexivity.
  exact (proj1 (proj2 (proj2 (proj2 (proj2 (proj2 (proj2
    (client_single_socket [] 0 1 strerror_ex (λ _, true) 0 3 0
       (Porto.mkTContainerRequest [] None) (rsp_ex 0 "") [] [] false (conn_ex, world_ex)
       eq_refl ltac:(lia) Hb)))))))).
Defined.





Example client_reconnect_frames :
  sent_frames
    (Porto.trace (default (0, (conn_ex, world_ex))
                    (Porto.Rpc [] 0 1 strerror_ex 2 (conn_ex, world_ex))).2.2)
  = [Porto.mkTContainerRequest ["list"]
       (Some (Porto.mkTAsyncWaitRequest ["a"] [] (Some 5000)));
     Porto.mkTContainerRequest [] None].
Proof. reflexivity. Qed.






